(** * renamer-media-date-time: the rename engine, embedded and verified

    The development follows the class [MediaDateTime] of [index.ts], the
    source that the test-suite imports (the revision with the directory
    cache): its two private caches, the timestamp resolver and the
    collision-free naming.  The older entry point [src/main.ts] is embedded
    in [Module MainTs] where it behaves differently.

    Conventions of the embedding.
    - A JavaScript string is a [list ascii]: file names and tool output are
      taken to be ASCII (on characters above 127 [toLowerCase] and the
      white-space tests of the model do nothing).
    - A JavaScript number that holds an index is an integer-valued double,
      [Fin z] or [PosInf]; the result of [+ 1] and of [parseInt] is rounded
      to 53 bits as IEEE 754 does.
    - A [Date] keeps the calendar fields that date-fns reads and writes; the
      host time zone is UTC.
    - Node's [path] is the POSIX one.
    - The world outside the engine (the exiftool subprocess and the
      directory listing) is a record of functions, fixed during a run.
    - An exception is a result [Throw e]; [while (true)] takes fuel, and
      [None] means that the fuel ran out. *)

From Stdlib Require Import ZArith List Ascii String Lia Bool Decimal DecimalN.
From stdpp Require Import base option gmap strings list fin_sets.

Abbreviation str := (list ascii).

(** String literals of the source. *)
Definition lit (x : string) : str := list_ascii_of_string x.

(* ===================================================================== *)
(** ** Characters and strings (the JavaScript built-ins the code calls)   *)
(* ===================================================================== *)

Module Js.

Definition code (c : ascii) : nat := nat_of_ascii c.

(** [\d] *)
Definition isDigit (c : ascii) : bool :=
  (48 <=? code c)%nat && (code c <=? 57)%nat.

(** [\s] on ASCII: tab, line feed, vertical tab, form feed, carriage return,
    space. *)
Definition isSpace (c : ascii) : bool :=
  ((9 <=? code c)%nat && (code c <=? 13)%nat) || (code c =? 32)%nat.

(** Line terminators, which [.] of a regular expression does not match. *)
Definition isLineTerminator (c : ascii) : bool :=
  (code c =? 10)%nat || (code c =? 13)%nat.

Definition toLowerChar (c : ascii) : ascii :=
  if (65 <=? code c)%nat && (code c <=? 90)%nat
  then ascii_of_nat (code c + 32) else c.

(** [String.prototype.toLowerCase] *)
Definition toLowerCase (x : str) : str := map toLowerChar x.

Fixpoint dropSpaces (x : str) : str :=
  match x with
  | c :: r => if isSpace c then dropSpaces r else x
  | [] => []
  end.

(** [String.prototype.trim] *)
Definition trim (x : str) : str := rev (dropSpaces (rev (dropSpaces x))).

(** [x.replace(/\s/gi, "")] *)
Definition removeSpaces (x : str) : str := filter (fun c => isSpace c = false) x.

Fixpoint startsWith (p x : str) : bool :=
  match p, x with
  | [], _ => true
  | a :: p', b :: x' => if decide (a = b) then startsWith p' x' else false
  | _ :: _, [] => false
  end.

(** [x.split(c)] for a separator of one character: never empty. *)
Fixpoint splitChar (c : ascii) (x : str) : list str :=
  match x with
  | [] => [[]]
  | a :: r =>
      if decide (a = c) then [] :: splitChar c r
      else match splitChar c r with
           | p :: ps => (a :: p) :: ps
           | [] => [[a]]
           end
  end.

(** [parts.join(sep)] *)
Fixpoint join (sep : str) (parts : list str) : str :=
  match parts with
  | [] => []
  | [p] => p
  | p :: ps => p ++ sep ++ join sep ps
  end.

(** The text of [x] before the first occurrence of the non-empty [sep]. *)
Fixpoint beforeFirst (sep x : str) : str :=
  match x with
  | [] => []
  | c :: r => if startsWith sep x then [] else c :: beforeFirst sep r
  end.

(** [x.split(sep)[0]]: with an empty separator [split] cuts [x] into its
    characters, and the first element of an empty array is [undefined]. *)
Definition split0 (sep x : str) : option str :=
  match sep with
  | [] => match x with [] => None | c :: _ => Some [c] end
  | _ :: _ => Some (beforeFirst sep x)
  end.

(** The longest prefix of [x] made of characters that satisfy [p]. *)
Fixpoint takeWhile (p : ascii -> bool) (x : str) : str :=
  match x with
  | c :: r => if p c then c :: takeWhile p r else []
  | [] => []
  end.

(** The characters of a formatted date and of a printed number. *)
Definition numChar (c : ascii) : bool :=
  isDigit c || bool_decide (c = "-"%char) || bool_decide (c = "+"%char)
  || bool_decide (c = "."%char) || bool_decide (c = "e"%char)
  || bool_decide (c = "_"%char).

(** The characters of a formatted date. *)
Definition stampChar (c : ascii) : bool :=
  isDigit c || bool_decide (c = "-"%char) || bool_decide (c = "_"%char).

(** [x.substring(0, n)] *)
Definition substring0 (n : nat) (x : str) : str := take n x.

End Js.

(* ===================================================================== *)
(** ** Numbers                                                            *)
(* ===================================================================== *)

Module Num.

(** The numbers of the engine are suffix indices: integers, held in doubles. *)
Inductive number : Type :=
  | Fin (z : Z)
  | PosInf.

(** Round to nearest, ties to even, keeping 53 significant bits. *)
Definition roundNat53 (x : Z) : Z :=
  let e := Z.log2 x in
  if (e <? 53)%Z then x
  else
    let sh := (e - 52)%Z in
    let q := Z.shiftr x sh in
    let r := (x - Z.shiftl q sh)%Z in
    let half := Z.shiftl 1 (sh - 1) in
    let q' := if (r <? half)%Z then q
              else if (half <? r)%Z then (q + 1)%Z
              else if Z.even q then q else (q + 1)%Z in
    Z.shiftl q' sh.

Definition roundZ (x : Z) : Z :=
  if (x <? 0)%Z then (- roundNat53 (- x))%Z else roundNat53 x.

(** The double nearest to the integer [x]; beyond the largest double the
    result is [Infinity] (no engine number is large and negative). *)
Definition ofZ (x : Z) : number :=
  let r := roundZ x in
  if (r <? 2 ^ 1024)%Z then Fin r else PosInf.

(** [n + 1] *)
Definition add1 (n : number) : number :=
  match n with
  | Fin z => ofZ (z + 1)
  | PosInf => PosInf
  end.

(** [n < 0] *)
Definition ltZero (n : number) : bool :=
  match n with
  | Fin z => (z <? 0)%Z
  | PosInf => false
  end.

(** An index that [+ 1] turns into [Infinity]. *)
Definition saturated (n : number) : Prop :=
  ltZero n = false /\ add1 n = PosInf.

(** [Math.max(a, b)] *)
Definition max (a b : number) : number :=
  match a, b with
  | Fin x, Fin y => Fin (Z.max x y)
  | _, _ => PosInf
  end.

Fixpoint uintChars (u : Decimal.uint) : str :=
  match u with
  | Nil => []
  | D0 u => "0"%char :: uintChars u
  | D1 u => "1"%char :: uintChars u
  | D2 u => "2"%char :: uintChars u
  | D3 u => "3"%char :: uintChars u
  | D4 u => "4"%char :: uintChars u
  | D5 u => "5"%char :: uintChars u
  | D6 u => "6"%char :: uintChars u
  | D7 u => "7"%char :: uintChars u
  | D8 u => "8"%char :: uintChars u
  | D9 u => "9"%char :: uintChars u
  end.

(** The decimal digits of a natural number, without leading zeros. *)
Definition decimal (x : Z) : str := uintChars (N.to_uint (Z.to_N x)).

(** The value of a string of decimal digits. *)
Definition digitsValue (x : str) : Z :=
  fold_left (fun v c => (10 * v + (Z.of_nat (Js.code c) - 48))%Z) x 0%Z.

(** The integer that [Number::toString] prints for the double [x >= 2^53]:
    the one with the fewest significant digits that still rounds to [x],
    the closest to [x] among those, the even one at a tie. *)
Fixpoint shortestFrom (fuel k : nat) (x : Z) (d : nat) : Z :=
  match fuel with
  | O => x
  | S fuel' =>
      let p := (10 ^ Z.of_nat (d - k))%Z in
      let lo := (x / p * p)%Z in
      let hi := (lo + p)%Z in
      let okLo := (roundZ lo =? x)%Z in
      let okHi := (roundZ hi =? x)%Z in
      if okLo && okHi then
        if (x - lo <? hi - x)%Z then lo
        else if (hi - x <? x - lo)%Z then hi
        else if Z.even (lo / p) then lo else hi
      else if okLo then lo
      else if okHi then hi
      else shortestFrom fuel' (S k) x d
  end.

Definition shortest (x : Z) : Z :=
  let d := length (decimal x) in shortestFrom d 1 x d.

Fixpoint dropTrailingZeros (r : str) : str :=
  match r with
  | c :: r' => if decide (c = "0"%char) then dropTrailingZeros r' else r
  | [] => []
  end.

(** [Number::toString] of a non-negative integer-valued double. *)
Definition natToString (x : Z) : str :=
  if (x <? 2 ^ 53)%Z then decimal x
  else
    let v := decimal (shortest x) in
    if (length v <=? 21)%nat then v
    else
      let e := lit "e+" ++ decimal (Z.of_nat (length v - 1)) in
      match rev (dropTrailingZeros (rev v)) with
      | [] => v
      | [c] => c :: e
      | c :: cs => c :: "."%char :: cs ++ e
      end.

(** [`${n}`] *)
Definition toString (n : number) : str :=
  match n with
  | Fin z => if (z <? 0)%Z then "-"%char :: natToString (- z) else natToString z
  | PosInf => lit "Infinity"
  end.

(** [parseInt(x, 10)] where [x] starts with its digits (the engine passes
    [\d+] captures only): [None] is [NaN], returned when there is no digit. *)
Definition parseInt (x : str) : option number :=
  match x with
  | c :: _ => if Js.isDigit c
              then Some (ofZ (digitsValue (Js.takeWhile Js.isDigit x)))
              else None
  | [] => None
  end.

End Num.

(* ===================================================================== *)
(** ** Node's [path] module (POSIX flavour)                               *)
(* ===================================================================== *)

Module Path.

Record ParsedPath : Type := mkParsed {
  root : str;
  dir : str;
  base : str;
  ext : str;
  name : str
}.

Definition slash : ascii := "/"%char.
Definition dot : ascii := "."%char.

Definition notSlash (c : ascii) : bool := if decide (c = slash) then false else true.
Definition notDot (c : ascii) : bool := if decide (c = dot) then false else true.

Fixpoint dropWhile (p : ascii -> bool) (x : str) : str :=
  match x with
  | c :: r => if p c then dropWhile p r else x
  | [] => []
  end.

(** [base] cut at its last dot into [(name, ext)].  [rootOnly] says that the
    base follows the root of an absolute path directly (Node then compares
    the position of the dot with 0 and not with the start of the base). *)
Definition splitExt (rootOnly : bool) (b : str) : str * str :=
  let r := rev b in
  match dropWhile notDot r with
  | [] => (b, [])                       (* no dot at all *)
  | _ :: before =>                       (* [before]: the text left of the dot, reversed *)
      let e := dot :: rev (Js.takeWhile notDot r) in
      match rev before with
      | [] => (b, [])                    (* the dot starts the base *)
      | c :: _ =>
          if bool_decide (c = dot) && bool_decide (b = [dot; dot]) && negb rootOnly
          then (b, [])                   (* the base is ".." *)
          else (rev before, e)
      end
  end.

(** The fields of a non-empty path; [body] is the path without the root. *)
Definition parsedBody (isAbsolute : bool) (body : str) : ParsedPath :=
  let rt := if isAbsolute then [slash] else [] in
  (* trailing separators are skipped *)
  let t := dropWhile (fun c => negb (notSlash c)) (rev body) in
  let b := rev (Js.takeWhile notSlash t) in
  let d := match dropWhile notSlash t with
           | [] => rt                              (* no separator before the base *)
           | _ :: before => rt ++ rev before
           end in
  let rootOnly := isAbsolute && bool_decide (dropWhile notSlash t = []) in
  let '(n, e) := splitExt rootOnly b in
  mkParsed rt d b e n.

(** [path.parse(p)] *)
Definition parse (p : str) : ParsedPath :=
  match p with
  | [] => mkParsed [] [] [] [] []
  | c :: rest =>
      if bool_decide (c = slash) then parsedBody true rest
      else parsedBody false p
  end.

(** One step of [normalizeString]: the segments kept so far, last first. *)
Definition pushSegment (allowAboveRoot : bool) (kept : list str) (seg : str) : list str :=
  if bool_decide (seg = []) || bool_decide (seg = [dot]) then kept
  else if bool_decide (seg = [dot; dot]) then
    match kept with
    | top :: below =>
        if bool_decide (top = [dot; dot])
        then (if allowAboveRoot then seg :: kept else kept)
        else below
    | [] => if allowAboveRoot then [seg] else []
    end
  else seg :: kept.

Definition normalizeString (p : str) (allowAboveRoot : bool) : str :=
  Js.join [slash]
    (rev (fold_left (pushSegment allowAboveRoot) (Js.splitChar slash p) [])).

(** [path.normalize(p)] *)
Definition normalize (p : str) : str :=
  match p with
  | [] => [dot]
  | c :: _ =>
      let isAbsolute := bool_decide (c = slash) in
      let trailingSeparator := bool_decide (last p = Some slash) in
      let q := normalizeString p (negb isAbsolute) in
      match q with
      | [] => if isAbsolute then [slash]
              else if trailingSeparator then [dot; slash] else [dot]
      | _ :: _ =>
          let q' := if trailingSeparator then q ++ [slash] else q in
          if isAbsolute then slash :: q' else q'
      end
  end.

(** [path.join(...args)] *)
Definition join (args : list str) : str :=
  match filter (fun a => a <> []) args with
  | [] => [dot]
  | parts => normalize (Js.join [slash] parts)
  end.

End Path.

(* ===================================================================== *)
(** ** Regular expressions of the source                                  *)
(* ===================================================================== *)

Module Re.

(** What [String.prototype.match] returns for a regular expression without
    the [g] flag: the matched text, then one entry per capture group, and
    the position of the match. *)
Record MatchArray : Type := mkMatch {
  matched : str;
  captures : list (option str);
  index : nat
}.

(** [match.length]: the matched text and the capture groups, whatever the
    number of places where the expression would match. *)
Definition length (m : MatchArray) : nat := S (List.length (captures m)).

(** [/\d{8}_\d{6,}/] at the start of [x]. *)
Definition stampAt (x : str) : option str :=
  let d8 := take 8 x in
  if (List.length d8 =? 8)%nat && forallb Js.isDigit d8 then
    match drop 8 x with
    | c :: r =>
        if bool_decide (c = "_"%char) then
          let ds := Js.takeWhile Js.isDigit r in
          if (6 <=? List.length ds)%nat then Some (d8 ++ c :: ds) else None
        else None
    | [] => None
    end
  else None.

(** [/15\d{11}/] at the start of [x]. *)
Definition epochAt (x : str) : option str :=
  let d := take 13 x in
  if (List.length d =? 13)%nat && forallb Js.isDigit d && Js.startsWith (lit "15") d
  then Some d else None.

(** The leftmost match: [x.match(re)]. *)
Fixpoint searchFrom (at_ : str -> option str) (i : nat) (x : str) : option MatchArray :=
  match at_ x with
  | Some m => Some (mkMatch m [] i)
  | None => match x with
            | [] => None
            | _ :: r => searchFrom at_ (S i) r
            end
  end.

Definition matchStamp (x : str) : option MatchArray := searchFrom stampAt 0 x.
Definition matchEpoch (x : str) : option MatchArray := searchFrom epochAt 0 x.

(** A pattern made of plain characters and of [.], matched at the start of
    [x]; the rest of [x] is returned. *)
Fixpoint matchChars (pat x : str) : option str :=
  match pat, x with
  | [], _ => Some x
  | p :: pat', c :: x' =>
      if bool_decide (p = "."%char) then
        if Js.isLineTerminator c then None else matchChars pat' x'
      else if bool_decide (p = c) then matchChars pat' x' else None
  | _ :: _, [] => None
  end.

Definition fullMatch (pat x : str) : bool :=
  bool_decide (matchChars pat x = Some []).

(** [name.match(new RegExp(`^${formattedDate}(?:_(\d+))?${extLower}$`))]:
    [None] when there is no match, [Some None] when the group did not take
    part, [Some (Some digits)] with the captured digits otherwise.  The
    engine builds the expression from a formatted date (digits and [_]) and
    an extension of the classifier, where [.] is the only metacharacter. *)
Definition matchSuffix (formattedDate extLower name : str) : option (option str) :=
  match matchChars formattedDate name with
  | None => None
  | Some rest =>
      let viaGroup :=
        match rest with
        | c :: r =>
            let n := (List.length r - List.length extLower)%nat in
            let mid := take n r in
            if bool_decide (c = "_"%char) && (1 <=? n)%nat
               && forallb Js.isDigit mid && fullMatch extLower (drop n r)
            then Some mid else None
        | [] => None
        end in
      match viaGroup with
      | Some mid => Some (Some mid)
      | None => if fullMatch extLower rest then Some None else None
      end
  end.

(** [x.match(/\.(a|b|...)$/) != null] *)
Definition endsWithDotAny (alts : list str) (x : str) : bool :=
  existsb (fun a => Js.startsWith (rev a ++ ["."%char]) (rev x)) alts.

End Re.

(* ===================================================================== *)
(** ** Exceptions                                                         *)
(* ===================================================================== *)

Inductive exn : Type :=
  | ExecError      (* [execSync] fails: exiftool missing or non-zero exit *)
  | TypeError      (* a method called on [undefined] *)
  | RangeError     (* date-fns: "Invalid time value" *)
  | ReferenceError.  (* an undeclared global *)

Inductive result (A : Type) : Type :=
  | Ret (a : A)
  | Throw (e : exn).
Arguments Ret {A} a.
Arguments Throw {A} e.

Global Instance result_bind : MBind result := fun A B k m =>
  match m with
  | Ret a => k a
  | Throw e => Throw e
  end.

(** [try { m } catch (error) { h }] *)
Definition tryCatch {A : Type} (m : result A) (h : A) : A :=
  match m with
  | Ret a => a
  | Throw _ => h
  end.

(* ===================================================================== *)
(** ** Dates and date-fns                                                 *)
(* ===================================================================== *)

Module DateFns.

Record Fields : Type := mkFields {
  year : Z; month : Z; day : Z; hour : Z; minute : Z; second : Z
}.

(** A [Date] object: its calendar fields, or the invalid date (time value
    [NaN]), which is an object all the same and not [null]. *)
Inductive Date : Type :=
  | Valid (f : Fields)
  | Invalid.

Inductive token : Type :=
  | Num (width : nat)       (* [yyyy], [MM], [dd], [HH], [mm], [ss] *)
  | Lit (c : ascii).

(** ["yyyy:MM:dd HH:mm:ss"] *)
Definition exifPattern : list token :=
  [Num 4; Lit ":"; Num 2; Lit ":"; Num 2; Lit " "; Num 2; Lit ":"; Num 2; Lit ":"; Num 2].

(** ["yyyyMMdd_HHmmss"] *)
Definition filePattern : list token :=
  [Num 4; Num 2; Num 2; Lit "_"; Num 2; Num 2; Num 2].

(** [parseNDigits(n, s)]: one to [n] leading digits. *)
Fixpoint takeDigits (n : nat) (x : str) : str :=
  match n, x with
  | S n', c :: r => if Js.isDigit c then c :: takeDigits n' r else []
  | _, _ => []
  end.

Fixpoint runTokens (ts : list token) (x : str) (vals : list Z) : option (list Z * str) :=
  match ts with
  | [] => Some (vals, x)
  | Num w :: ts' =>
      match takeDigits w x with
      | [] => None
      | ds => runTokens ts' (drop (List.length ds) x) (vals ++ [Num.digitsValue ds])
      end
  | Lit c :: ts' =>
      match x with
      | a :: r => if bool_decide (a = c) then runTokens ts' r vals else None
      | [] => None
      end
  end.

Definition isLeapYear (y : Z) : bool :=
  (y mod 400 =? 0)%Z || ((y mod 4 =? 0)%Z && negb (y mod 100 =? 0)%Z).

Definition daysInMonth (y m : Z) : Z :=
  if (m =? 2)%Z then (if isLeapYear y then 29 else 28)%Z
  else if (m =? 4)%Z || (m =? 6)%Z || (m =? 9)%Z || (m =? 11)%Z then 30%Z
  else 31%Z.

Definition between (lo x hi : Z) : bool := (lo <=? x)%Z && (x <=? hi)%Z.

(** The validators of the six parsers, in the order of their priorities. *)
Definition validFields (f : Fields) : bool :=
  (0 <? year f)%Z && between 1 (month f) 12
  && between 1 (day f) (daysInMonth (year f) (month f))
  && between 0 (hour f) 23 && between 0 (minute f) 59 && between 0 (second f) 59.

(** [parse(dateString, pattern, new Date(), {})]: always a [Date], the
    invalid one when the text does not fit the pattern. *)
Definition parse (x : str) (pattern : list token) : Date :=
  match runTokens pattern x [] with
  | Some ([y; mo; d; h; mi; s], rest) =>
      if forallb Js.isSpace rest then
        let f := mkFields y mo d h mi s in
        if validFields f then Valid f else Invalid
      else Invalid
  | _ => Invalid
  end.

(** [addLeadingZeros(n, w)] *)
Definition addLeadingZeros (n : Z) (w : nat) : str :=
  let digits := Num.decimal (Z.abs n) in
  let padded := replicate (w - List.length digits) "0"%char ++ digits in
  if (n <? 0)%Z then "-"%char :: padded else padded.

(** [k] is printed with exactly [w] digits. *)
Definition paddedTo (w : nat) (k : nat) : bool :=
  let s := addLeadingZeros (Z.of_nat k) w in
  (List.length s =? w)%nat && forallb Js.isDigit s.

(** [format(date, "yyyyMMdd_HHmmss", {})] *)
Definition format (d : Date) : result str :=
  match d with
  | Invalid => Throw RangeError
  | Valid f =>
      let y := if (0 <? year f)%Z then year f else (1 - year f)%Z in
      Ret (addLeadingZeros y 4 ++ addLeadingZeros (month f) 2
           ++ addLeadingZeros (day f) 2 ++ "_"%char
           :: addLeadingZeros (hour f) 2 ++ addLeadingZeros (minute f) 2
           ++ addLeadingZeros (second f) 2)
  end.

(** Fields that [format] prints as [yyyyMMdd_HHmmss], four digits for the
    year and two for each of the others. *)
Definition printable (f : Fields) : Prop :=
  (1 <= year f <= 9999 /\ 0 <= month f <= 99 /\ 0 <= day f <= 99
   /\ 0 <= hour f <= 99 /\ 0 <= minute f <= 99 /\ 0 <= second f <= 99)%Z.

(** The calendar date of a day number counted from 1970-01-01. *)
Definition civilFromDays (days : Z) : Z * Z * Z :=
  let z := (days + 719468)%Z in
  let era := (z / 146097)%Z in
  let doe := (z - era * 146097)%Z in
  let yoe := ((doe - doe / 1460 + doe / 36524 - doe / 146096) / 365)%Z in
  let doy := (doe - (365 * yoe + yoe / 4 - yoe / 100))%Z in
  let mp := ((5 * doy + 2) / 153)%Z in
  let d := (doy - (153 * mp + 2) / 5 + 1)%Z in
  let m := if (mp <? 10)%Z then (mp + 3)%Z else (mp - 9)%Z in
  let y := (yoe + era * 400 + (if (m <=? 2)%Z then 1 else 0))%Z in
  (y, m, d).

(** The day [17361 + k] lies in the years 2017 to 2020. *)
Definition civilIn2017To2020 (k : nat) : bool :=
  let '(y, m, d) := civilFromDays (17361 + Z.of_nat k) in
  between 2017 y 2020 && between 1 m 12 && between 1 d 31.

(** [new Date(n)] for a number of milliseconds since the epoch; [None] is
    [NaN]. *)
Definition ofNumber (n : option Num.number) : Date :=
  match n with
  | Some (Num.Fin t) =>
      if (Z.abs t <=? 8640000000000000)%Z then
        let '(y, m, d) := civilFromDays (t / 86400000) in
        let r := (t mod 86400000)%Z in
        Valid (mkFields y m d (r / 3600000) (r / 60000 mod 60) (r / 1000 mod 60))
      else Invalid
  | _ => Invalid
  end.

End DateFns.

(* ===================================================================== *)
(** ** The world outside the engine                                       *)
(* ===================================================================== *)

Record World : Type := mkWorld {
  (** the standard output of [exiftool "<path>"], decoded; [None] when
      [execSync] throws *)
  exiftool : str -> option str;
  (** [fs.readdirSync(dir)]; [None] when it throws *)
  readdirSync : str -> option (list str)
}.

(* ===================================================================== *)
(** ** [class MediaDateTime] of [index.ts]                                *)
(* ===================================================================== *)

Module MediaDateTime.

Import Path.

Definition isImage (file : ParsedPath) : bool :=
  Re.endsWithDotAny
    [lit "jpg"; lit "jpeg"; lit "png"; lit "gif"; lit "bmp"; lit "heic"]
    (Js.toLowerCase (ext file)).

Definition isVideo (file : ParsedPath) : bool :=
  Re.endsWithDotAny [lit "mp4"; lit "mov"] (Js.toLowerCase (ext file)).

Abbreviation ExifMap := (gmap str str).

(** The private fields [#indexMap] and [#dirCache]; [readdirLog] records the
    calls of [fs.readdirSync], oldest first. *)
Record State : Type := mkState {
  indexMap : gmap str Num.number;
  dirCache : gmap str (gset str);
  readdirLog : list str
}.

(** [new MediaDateTime()] *)
Definition init : State := mkState ∅ ∅ [].

Definition description : str :=
  lit "Renames image and video files to a yyyyMMdd_HHmmss format.".

(** One line of the tool's output, put into the map. *)
Definition exifLine (exifMap : ExifMap) (line : str) : ExifMap :=
  match Js.splitChar ":" line with
  | rawKey :: rawValues =>
      let key := Js.removeSpaces (Js.trim rawKey) in
      let value := Js.trim (Js.join (lit ":") rawValues) in
      <[key := value]> exifMap
  | [] => exifMap
  end.

Definition getExif (w : World) (filePath : str) : result ExifMap :=
  match exiftool w filePath with
  | None => Throw ExecError
  | Some outStr =>
      let lines := Js.splitChar (ascii_of_nat 10) outStr in
      Ret (fold_left exifLine lines ∅)
  end.

Definition getDateFromExif (file : ParsedPath) (exifMap : ExifMap)
  : option DateFns.Date :=
  let dateString :=
    match exifMap !! lit "CreateDate" with
    | Some v => head (Js.splitChar "." v)
    | None => None
    end in
  match dateString with
  | Some dateString => Some (DateFns.parse dateString DateFns.exifPattern)
  | None => None
  end.

(** [file.base.split(file.ext)[0]], on which [match] is then called. *)
Definition baseOf (file : ParsedPath) : result str :=
  match Js.split0 (ext file) (base file) with
  | Some b => Ret b
  | None => Throw TypeError
  end.

Definition isCorrectFileName (file : ParsedPath) : result bool :=
  b ← baseOf file;
  let match_ := Re.matchStamp b in
  Ret (match match_ with
       | Some m => (Re.length m =? 1)%nat && (Re.index m =? 0)%nat
       | None => false
       end).

Definition getDateFromFileName (file : ParsedPath) : result (option DateFns.Date) :=
  b ← baseOf file;
  match Re.matchStamp b with
  | None => Ret None
  | Some m =>
      if (1 <? Re.length m)%nat then Ret None
      else
        let dateString := Js.substring0 15 (Re.matched m) in
        Ret (Some (DateFns.parse dateString DateFns.filePattern))
  end.

Definition getDateFromUnixTimestamp (file : ParsedPath) : result (option DateFns.Date) :=
  b ← baseOf file;
  match Re.matchEpoch b with
  | None => Ret None
  | Some m =>
      if (1 <? Re.length m)%nat then Ret None
      else
        let unixTimestampString := Js.substring0 13 (Re.matched m) in
        let unixTimestamp := Num.parseInt unixTimestampString in
        Ret (Some (DateFns.ofNumber unixTimestamp))
  end.

Definition getDate (w : World) (filePath : str) : result (option DateFns.Date) :=
  let file := parse filePath in
  correct ← isCorrectFileName file;
  if correct : bool then Ret None
  else
    exifData ← getExif w filePath;
    match getDateFromExif file exifData with
    | Some dateFromExif => Ret (Some dateFromExif)
    | None =>
        dateFromFileName ← getDateFromFileName file;
        match dateFromFileName with
        | Some d => Ret (Some d)
        | None =>
            dateFromUnixTimestamp ← getDateFromUnixTimestamp file;
            match dateFromUnixTimestamp with
            | Some d => Ret (Some d)
            | None => Ret None
            end
        end
    end.

(** *** Directory cache helpers *)

Definition getDirCache (w : World) (dir : str) (st : State) : gset str * State :=
  match dirCache st !! dir with
  | Some cached => (cached, st)
  | None =>
      let entries := tryCatch (match readdirSync w dir with
                               | Some es => Ret es
                               | None => Throw ExecError
                               end) [] in
      let set : gset str := list_to_set (map Js.toLowerCase entries) in
      (set, mkState (indexMap st) (<[dir := set]> (dirCache st)) (readdirLog st ++ [dir]))
  end.

(** The set is shared with the cache: adding to it changes the cache. *)
Definition addToDirCache (w : World) (dir nameLower : str) (st : State) : State :=
  let '(set, st1) := getDirCache w dir st in
  mkState (indexMap st1) (<[dir := set ∪ {[nameLower]}]> (dirCache st1)) (readdirLog st1).

Definition suffixStep (formattedDate extLower name : str) (maxSuffix : Num.number)
  : Num.number :=
  match Re.matchSuffix formattedDate extLower name with
  | Some (Some m1) =>
      match Num.parseInt m1 with
      | Some n => Num.max maxSuffix n
      | None => maxSuffix
      end
  | Some None => Num.max maxSuffix (Num.Fin (-1))
  | None => maxSuffix
  end.

Definition computeInitialIndex (w : World) (dir formattedDate extLower : str)
    (st : State) : Num.number * State :=
  let '(set, st1) := getDirCache w dir st in
  (set_fold (suffixStep formattedDate extLower) (Num.Fin (-1)) set, st1).

Definition candidate (formattedDate extLower : str) (idx : Num.number) : str :=
  if Num.ltZero idx then formattedDate ++ extLower
  else formattedDate ++ "_"%char :: Num.toString (Num.add1 idx) ++ extLower.

(** The loop [while (true)] of [#nextAvailableIndex]. *)
Fixpoint firstFree (fuel : nat) (set : gset str) (formattedDate extLower : str)
    (idx : Num.number) : option Num.number :=
  match fuel with
  | O => None
  | S fuel' =>
      if bool_decide (candidate formattedDate extLower idx ∈ set)
      then firstFree fuel' set formattedDate extLower (Num.add1 idx)
      else Some idx
  end.

Definition nextAvailableIndex (w : World) (fuel : nat)
    (dir formattedDate extLower : str) (startIndex : Num.number) (st : State)
  : option (Num.number * State) :=
  let '(set, st1) := getDirCache w dir st in
  match firstFree fuel set formattedDate extLower startIndex with
  | Some idx => Some (idx, st1)
  | None => None
  end.

Definition setIndex (baseKey : str) (i : Num.number) (st : State) : State :=
  mkState (<[baseKey := i]> (indexMap st)) (dirCache st) (readdirLog st).

(** [nextIndex < 0 ? "" : `_${nextIndex + 1}`] *)
Definition indexStr (nextIndex : Num.number) : str :=
  if Num.ltZero nextIndex then []
  else "_"%char :: Num.toString (Num.add1 nextIndex).

(** The statements of the second [try] block that follow [format]: the
    new path, and the two caches updated. *)
Definition assignName (w : World) (fuel : nat) (st : State) (file : ParsedPath)
    (formattedDate : str) : option (str * State) :=
  let extLower := Js.toLowerCase (ext file) in
  let baseKey := join [dir file; formattedDate ++ extLower] in
  (* Initialize index from filesystem once for this base key *)
  let st1 :=
    match indexMap st !! baseKey with
    | None =>
        let '(i, s) := computeInitialIndex w (dir file) formattedDate extLower st in
        setIndex baseKey i s
    | Some _ => st
    end in
  (* Find next available suffix *)
  match nextAvailableIndex w fuel (dir file) formattedDate extLower
          (default (Num.Fin (-1)) (indexMap st1 !! baseKey)) st1 with
  | None => None
  | Some (nextIndex, st2) =>
      let indexStr := indexStr nextIndex in
      let newFileNameLower := formattedDate ++ indexStr ++ extLower in
      let newFilePath := join [dir file; formattedDate ++ indexStr ++ ext file] in
      (* Update in-memory trackers and cache for subsequent calls *)
      let st3 := setIndex baseKey nextIndex st2 in
      let st4 := addToDirCache w (dir file) newFileNameLower st3 in
      Some (newFilePath, st4)
  end.

(** [replace(filePath)].  The first [try] leaves [date] undefined when the
    resolver throws.  In the second [try] only [format] can throw, and it is
    the first statement: the handler returns [filePath] with both caches
    untouched. *)
Definition replace (w : World) (fuel : nat) (st : State) (filePath : str)
  : option (result str * State) :=
  let file := parse filePath in
  let date :=
    tryCatch (if isImage file || isVideo file then getDate w filePath
              else Ret None) None in
  match date with
  | None => Some (Ret filePath, st)
  | Some date =>
      match DateFns.format date with
      | Throw _ => Some (Ret filePath, st)
      | Ret formattedDate =>
          match assignName w fuel st file formattedDate with
          | Some (newFilePath, st') => Some (Ret newFilePath, st')
          | None => None
          end
      end
  end.

(** The driver calls [replace] once per file, one call after the other. *)
Fixpoint run (w : World) (fuel : nat) (st : State) (paths : list str)
  : option (list (result str) * State) :=
  match paths with
  | [] => Some ([], st)
  | p :: ps =>
      match replace w fuel st p with
      | None => None
      | Some (out, st1) =>
          match run w fuel st1 ps with
          | None => None
          | Some (outs, st2) => Some (out :: outs, st2)
          end
      end
  end.

End MediaDateTime.

(* ===================================================================== *)
(** ** The older entry point [src/main.ts]                                *)
(* ===================================================================== *)

(** No directory cache and no canonical-name check; the resolver asks the
    file name first; [format] is called outside any [try]. *)
Module MainTs.

Import Path.

Definition isImage (file : ParsedPath) : bool :=
  Re.endsWithDotAny [lit "jpg"; lit "jpeg"; lit "png"; lit "gif"; lit "bmp"]
    (Js.toLowerCase (ext file)).

Definition isVideo (file : ParsedPath) : bool := MediaDateTime.isVideo file.

(** [#getExif], [#getDateFromExif] and [#getDateFromFileName] read as in
    [index.ts]. *)
Definition getExif := MediaDateTime.getExif.
Definition getDateFromExif := MediaDateTime.getDateFromExif.
Definition getDateFromFileName := MediaDateTime.getDateFromFileName.

(** [window.parseInt(...)]: under Node there is no global [window]. *)
Definition getDateFromUnixTimestamp (file : ParsedPath) : result (option DateFns.Date) :=
  b ← MediaDateTime.baseOf file;
  match Re.matchEpoch b with
  | None => Ret None
  | Some m =>
      if (1 <? Re.length m)%nat then Ret None else Throw ReferenceError
  end.

Definition getDate (w : World) (filePath : str) : result (option DateFns.Date) :=
  let file := parse filePath in
  dateFromFileName ← getDateFromFileName file;
  match dateFromFileName with
  | Some d => Ret (Some d)
  | None =>
      dateFromUnixTimestamp ← getDateFromUnixTimestamp file;
      match dateFromUnixTimestamp with
      | Some d => Ret (Some d)
      | None =>
          exifData ← getExif w filePath;
          match getDateFromExif file exifData with
          | Some d => Ret (Some d)
          | None => Ret None
          end
      end
  end.

Definition replace (w : World) (indexMap : gmap str Num.number) (filePath : str)
  : result str * gmap str Num.number :=
  let file := parse filePath in
  let date :=
    tryCatch (if isImage file || isVideo file then getDate w filePath
              else Ret None) None in
  match date with
  | None => (Ret filePath, indexMap)
  | Some date =>
      match DateFns.format date with
      | Throw e => (Throw e, indexMap)
      | Ret formattedDate =>
          let baseNewFilePath := join [dir file; formattedDate ++ "."%char :: ext file] in
          let indexStr := match indexMap !! baseNewFilePath with
                          | None => []
                          | Some index => "_"%char :: Num.toString (Num.add1 index)
                          end in
          let newFilePath := join [dir file; formattedDate ++ indexStr ++ ext file] in
          (Ret newFilePath,
           <[baseNewFilePath :=
               Num.add1 (default (Num.Fin (-1)) (indexMap !! baseNewFilePath))]> indexMap)
      end
  end.

End MainTs.

(* ===================================================================== *)
(** ** The revision without directory cache                               *)
(* ===================================================================== *)

(** The classifiers and the resolver read as in [index.ts]; [replace]
    numbers the names of a bucket from its own counter alone. *)
Module Uncached.

Import Path.

Definition replace (w : World) (indexMap : gmap str Num.number) (filePath : str)
  : result str * gmap str Num.number :=
  let file := parse filePath in
  let date :=
    tryCatch (if MediaDateTime.isImage file || MediaDateTime.isVideo file
              then MediaDateTime.getDate w filePath
              else Ret None) None in
  match date with
  | None => (Ret filePath, indexMap)
  | Some date =>
      match DateFns.format date with
      | Throw _ => (Ret filePath, indexMap)
      | Ret formattedDate =>
          let baseNewFilePath :=
            join [dir file; formattedDate ++ Js.toLowerCase (ext file)] in
          let index := indexMap !! baseNewFilePath in
          let indexStr := match index with
                          | None => []
                          | Some index => "_"%char :: Num.toString (Num.add1 index)
                          end in
          let newFilePath := join [dir file; formattedDate ++ indexStr ++ ext file] in
          (Ret newFilePath,
           <[baseNewFilePath := Num.add1 (default (Num.Fin (-1)) index)]> indexMap)
      end
  end.

(** The driver calls [replace] once per file, one call after the other. *)
Fixpoint run (w : World) (indexMap : gmap str Num.number) (paths : list str)
  : list (result str) * gmap str Num.number :=
  match paths with
  | [] => ([], indexMap)
  | p :: ps =>
      let '(out, indexMap1) := replace w indexMap p in
      let '(outs, indexMap2) := run w indexMap1 ps in
      (out :: outs, indexMap2)
  end.

End Uncached.

(* ===================================================================== *)
(** ** Notions of the statements: the specification's wording, invariants *)
(* ===================================================================== *)

Module Spec.

Import Path MediaDateTime.

(** The three sources of the resolver, each on its own: a source that
    fails in any way has not succeeded. *)
Definition fromMetadata (w : World) (p : str) : option DateFns.Date :=
  match getExif w p with
  | Ret m => getDateFromExif (parse p) m
  | Throw _ => None
  end.

Definition fromFileName (p : str) : option DateFns.Date :=
  tryCatch (getDateFromFileName (parse p)) None.

Definition fromEpoch (p : str) : option DateFns.Date :=
  tryCatch (getDateFromUnixTimestamp (parse p)) None.

(** The first source that succeeded. *)
Fixpoint firstOf (sources : list (option DateFns.Date)) : option DateFns.Date :=
  match sources with
  | [] => None
  | Some d :: _ => Some d
  | None :: rest => firstOf rest
  end.

(** "ordered fallback sources: embedded metadata, filename-embedded
    timestamp pattern, filename-embedded Unix-epoch-millisecond pattern" *)
Definition resolveInOrder (w : World) (p : str) : option DateFns.Date :=
  firstOf [fromMetadata w p; fromFileName p; fromEpoch p].

(** "If the parse succeeds, return this Date": a source whose text does not
    parse is absent. *)
Definition validOnly (d : option DateFns.Date) : option DateFns.Date :=
  match d with
  | Some DateFns.Invalid => None
  | _ => d
  end.

Definition resolveParsed (w : World) (p : str) : option DateFns.Date :=
  firstOf [validOnly (fromMetadata w p); validOnly (fromFileName p);
           validOnly (fromEpoch p)].

(** The text of the metadata date that the resolver parses. *)
Definition createDate (w : World) (p : str) : option str :=
  match getExif w p with
  | Ret m => match m !! lit "CreateDate" with
             | Some v => head (Js.splitChar "." v)
             | None => None
             end
  | Throw _ => None
  end.

(** An eligible path: an image or a video whose name is not canonical. *)
Definition eligible (p : str) : Prop :=
  (isImage (parse p) || isVideo (parse p)) = true
  /\ isCorrectFileName (parse p) = Ret false.


(** "It must occur exactly once in the base name": the number of places
    of [x] where the expression matches. *)
Fixpoint occurrences (at_ : str -> option str) (x : str) : nat :=
  (match at_ x with Some _ => 1 | None => 0 end
   + match x with [] => 0 | _ :: r => occurrences at_ r end)%nat.

(** The collision bucket of a call that renames: (directory, formatted
    timestamp, lower-cased extension). *)
Definition keyOf (w : World) (p : str) : option (str * str * str) :=
  let file := parse p in
  match tryCatch (if isImage file || isVideo file then getDate w p
                  else Ret None) None with
  | Some d =>
      match DateFns.format d with
      | Ret formattedDate => Some (dir file, formattedDate, Js.toLowerCase (ext file))
      | Throw _ => None
      end
  | None => None
  end.

(** The directory listing, empty when it cannot be read. *)
Definition listing (w : World) (d : str) : list str :=
  default [] (readdirSync w d).

(** The names of the listing that belong to a bucket. *)
Definition preexisting (w : World) (k : str * str * str) : list str :=
  let '(d, formattedDate, extLower) := k in
  filter (fun n => Re.matchSuffix formattedDate extLower (Js.toLowerCase n) <> None)
         (listing w d).


(** The set of known names of a directory: the cached one, or else the
    one that the first access builds from the listing. *)
Definition knownNames (w : World) (st : State) (d : str) : gset str :=
  match dirCache st !! d with
  | Some cached => cached
  | None => list_to_set (map Js.toLowerCase (listing w d))
  end.

(** The index from which the loop starts: the one stored for the bucket,
    or, for a new bucket, the one computed from the known names. *)
Definition startIndex (w : World) (st : State) (file : ParsedPath)
    (formattedDate : str) : Num.number :=
  match indexMap st !! join [dir file; formattedDate ++ Js.toLowerCase (ext file)] with
  | Some v => v
  | None => set_fold (suffixStep formattedDate (Js.toLowerCase (ext file)))
              (Num.Fin (-1)) (knownNames w st (dir file))
  end.

(** Every directory was listed at most once, and a listed directory is in
    the cache. *)
Definition listedOnce (st : State) : Prop :=
  NoDup (readdirLog st)
  /\ forall d, d ∈ readdirLog st -> is_Some (dirCache st !! d).



(** No two names are equal when the case of the letters is ignored. *)
Definition distinctIgnoringCase (names : list str) : Prop :=
  NoDup (map Js.toLowerCase names).

Definition plainSegment (seg : str) : Prop :=
  seg <> [] /\ seg <> [dot] /\ seg <> [dot; dot].

(** A file name: a plain segment without separator. *)
Definition plainName (n : str) : Prop :=
  plainSegment n /\ Forall (fun c => c <> slash) n.

(** What [path.join] puts in front of a file name joined to [d]: the
    segments of [d] that normalisation keeps, each followed by a separator,
    after the root of an absolute [d]. *)
Definition dirPrefix (d : str) : str :=
  match d with
  | [] => []
  | c :: _ =>
      let isAbsolute := bool_decide (c = slash) in
      let kept := fold_left (pushSegment (negb isAbsolute)) (Js.splitChar slash d) [] in
      (if isAbsolute then [slash] else [])
      ++ match rev kept with
         | [] => []
         | segs => Js.join [slash] segs ++ [slash]
         end
  end.

(** The directory component that [path.parse] reads off such a prefix. *)
Definition dirOfPrefix (pre : str) : str :=
  match pre with
  | [] => []
  | c :: r =>
      if bool_decide (c = slash)
      then match r with [] => [slash] | _ => slash :: removelast r end
      else removelast pre
  end.

(** A directory written in normal form: no empty segment, no [.] and no
    [..], no separator at the end. *)
Definition normalDir (d : str) : Prop :=
  d = [] \/ d = [slash]
  \/ Forall plainSegment (Js.splitChar slash d)
  \/ exists d', d = slash :: d' /\ Forall plainSegment (Js.splitChar slash d').

(** *** Notions of the further properties *)


(** The extensions, in lower case, that the two classifiers accept. *)
Definition imageExtensions : list str :=
  [lit ".jpg"; lit ".jpeg"; lit ".png"; lit ".gif"; lit ".bmp"; lit ".heic"].

Definition videoExtensions : list str := [lit ".mp4"; lit ".mov"].

(** Eight digits, an underscore and six digits. *)
Definition isStamp (d8 d6 : str) : Prop :=
  length d8 = 8%nat /\ length d6 = 6%nat
  /\ Forall (fun c => Js.isDigit c = true) d8
  /\ Forall (fun c => Js.isDigit c = true) d6.


(** The [Create Date] text that spells the timestamp [d8_d6]:
    [yyyy:MM:dd HH:mm:ss]. *)
Definition exifText (d8 d6 : str) : str :=
  take 4 d8 ++ ":"%char :: take 2 (drop 4 d8) ++ ":"%char :: drop 6 d8
  ++ " "%char :: take 2 d6 ++ ":"%char :: take 2 (drop 2 d6) ++ ":"%char :: drop 4 d6.

(** The calendar fields that the digits of [d8_d6] spell. *)
Definition stampFields (d8 d6 : str) : DateFns.Fields :=
  DateFns.mkFields
    (Num.digitsValue (take 4 d8)) (Num.digitsValue (take 2 (drop 4 d8)))
    (Num.digitsValue (drop 6 d8))
    (Num.digitsValue (take 2 d6)) (Num.digitsValue (take 2 (drop 2 d6)))
    (Num.digitsValue (drop 4 d6)).

Definition notColon (c : ascii) : bool := negb (bool_decide (c = ":"%char)).

(** The key of a line of the tool's output: its text before the first
    colon, trimmed, with the white space removed. *)
Definition lineKey (line : str) : str :=
  Js.removeSpaces (Js.trim (Js.takeWhile notColon line)).

(** The value of a line: its text after the first colon, trimmed. *)
Definition lineValue (line : str) : str :=
  Js.trim (drop (S (length (Js.takeWhile notColon line))) line).

(** [a <= b] on suffix indices. *)
Definition indexLe (a b : Num.number) : Prop :=
  match a, b with
  | Num.Fin x, Num.Fin y => (x <= y)%Z
  | _, Num.PosInf => True
  | Num.PosInf, Num.Fin _ => False
  end.

(** The suffix that [#computeInitialIndex] reads off a name of the
    directory: [-1] for the base name, [None] for a name that the
    expression does not match. *)
Definition suffixOf (formattedDate extLower name : str) : option Num.number :=
  match Re.matchSuffix formattedDate extLower name with
  | Some (Some m1) => Num.parseInt m1
  | Some None => Some (Num.Fin (-1))
  | None => None
  end.

(** The suffix of the [k]-th name of a bucket: none for the first one,
    then [_1], [_2], ... *)
Definition suffixText (k : nat) : str :=
  match k with
  | O => []
  | S _ => "_"%char :: Num.decimal (Z.of_nat k)
  end.

(** The paths returned for files of one bucket that are numbered from [k]
    on; each file keeps its own extension. *)
Fixpoint numbered (d formattedDate : str) (k : nat) (paths : list str)
  : list (result str) :=
  match paths with
  | [] => []
  | p :: ps =>
      Ret (join [d; formattedDate ++ suffixText k ++ ext (parse p)])
      :: numbered d formattedDate (S k) ps
  end.

(** The candidates of the indices [-1], [0], ..., [k - 2]. *)
Fixpoint firstCandidates (formattedDate extLower : str) (k : nat) : gset str :=
  match k with
  | O => ∅
  | S k' =>
      firstCandidates formattedDate extLower k'
      ∪ {[candidate formattedDate extLower (Num.Fin (Z.of_nat k' - 1))]}
  end.

(** The state of the engine after [k] files of a bucket whose directory
    listed no name of the bucket. *)
Definition numberedUpTo (w : World) (d formattedDate extLower : str)
    (k : nat) (st : State) : Prop :=
  knownNames w st d
  = list_to_set (map Js.toLowerCase (listing w d))
    ∪ firstCandidates formattedDate extLower k
  /\ indexMap st !! join [d; formattedDate ++ extLower]
     = match k with
       | O => None
       | S k' => Some (Num.Fin (Z.of_nat k' - 1))
       end.

(** The key under which a renaming counts: the bucket's directory joined
    to its base name. *)
Definition baseKeyOf (w : World) (p : str) : option str :=
  match keyOf w p with
  | Some (d, formattedDate, extLower) => Some (join [d; formattedDate ++ extLower])
  | None => None
  end.

(** The number of renamings among [paths] that count under [key]. *)
Fixpoint countKey (w : World) (key : str) (paths : list str) : nat :=
  match paths with
  | [] => 0
  | p :: ps =>
      ((if decide (baseKeyOf w p = Some key) then 1 else 0) + countKey w key ps)%nat
  end.

(** The paths of a run in which each renaming is numbered by the count of
    the earlier renamings ([seen]) under the same key. *)
Fixpoint countedOutputs (w : World) (seen paths : list str) : list (result str) :=
  match paths with
  | [] => []
  | p :: ps =>
      match keyOf w p with
      | Some (d, formattedDate, extLower) =>
          Ret (join [d; formattedDate
                        ++ suffixText (countKey w (join [d; formattedDate ++ extLower]) seen)
                        ++ ext (parse p)])
      | None => Ret p
      end :: countedOutputs w (seen ++ [p]) ps
  end.

(** The counters of the revision without cache after the calls for
    [seen]. *)
Definition counted (w : World) (seen : list str) (indexMap : gmap str Num.number)
  : Prop :=
  forall key,
    indexMap !! key
    = match countKey w key seen with
      | O => None
      | S c => Some (Num.Fin (Z.of_nat c))
      end.

(** *** Notions of the order of [src/main.ts] and of listed directories *)





End Spec.

(* ===================================================================== *)
(** ** Worlds and inputs of the examples                                  *)
(* ===================================================================== *)

Module Ex.

Definition nl : ascii := ascii_of_nat 10.

(** What exiftool prints for a file with the given [Create Date]. *)
Definition exifOutput (createDate : str) : str :=
  lit "ExifTool Version Number                 : 12.30" ++ nl
  :: lit "Create Date                             : " ++ createDate.

(** The same exiftool output for every file, the same listing for every
    directory. *)
Definition world (createDate : str) (entries : list str) : World :=
  mkWorld (fun _ => Some (exifOutput createDate)) (fun _ => Some entries).

(** exiftool is not installed. *)
Definition noTool (entries : list str) : World :=
  mkWorld (fun _ => None) (fun _ => Some entries).

(** exiftool prints no creation date. *)
Definition noDate (entries : list str) : World :=
  mkWorld (fun _ => Some (lit "File Name : x")) (fun _ => Some entries).

Definition outputs (r : option (list (result str) * MediaDateTime.State))
  : option (list (result str)) := fst <$> r.

Definition finalState (r : option (list (result str) * MediaDateTime.State))
  : MediaDateTime.State := default MediaDateTime.init (snd <$> r).

Definition results (r : option (list (result str) * MediaDateTime.State))
  : list (result str) := default [] (fst <$> r).

(** Every file was created on 2024-04-29 at 13:25:57. *)
Definition world2024 : World := world (lit "2024:04:29 13:25:57") [].

(** A name that carries two timestamps. *)
Definition twoStamps : str := lit "/d/IMG_20200101_010203_20210202_020304.jpg".

(** A name that carries one timestamp, not at its start. *)
Definition stamped : str := lit "/d/IMG_20200101_010203.jpg".

(** A name whose timestamp has month 13. *)
Definition month13 : str := lit "/d/IMG_20201301_010203.jpg".

(** A directory that holds a file with the suffix 2^53. *)
Definition hugeSuffix : list str := [lit "20200101_010203_9007199254740992.jpg"].

Definition stamp2020 : str := lit "20200101_010203".

(** Every file was created on 2020-01-01 at 01:02:03. *)
Definition world2020 (entries : list str) : World :=
  world (lit "2020:01:01 01:02:03") entries.



(** The date that exiftool prints when the field was never set. *)
Definition unsetDate : str := lit "0000:00:00 00:00:00".



End Ex.

(* ********************************************************************* *)
(** * Properties                                                          *)
(* ********************************************************************* *)

Section Characters.

Import Js.

(** Tactic for a fact about one character: all 256 of them are tried. *)
Ltac by_cases_on_char c :=
  destruct c as [[] [] [] [] [] [] [] []]; vm_compute; intros; congruence.

Lemma toLowerCase_app (x y : str) : toLowerCase (x ++ y) = toLowerCase x ++ toLowerCase y.
Proof. apply map_app. Qed.

Lemma isDigit_numChar (c : ascii) : isDigit c = true -> numChar c = true.
Proof. by_cases_on_char c. Qed.

Lemma numChar_lower (c : ascii) : numChar c = true -> toLowerChar c = c.
Proof. by_cases_on_char c. Qed.

Lemma numChar_not_slash (c : ascii) : numChar c = true -> c <> "/"%char.
Proof. by_cases_on_char c. Qed.

Lemma toLowerCase_fixed (x : str) :
  Forall (fun c => numChar c = true) x -> toLowerCase x = x.
Proof.
  induction 1 as [|c x Hc _ IH]; [reflexivity|].
  simpl. rewrite numChar_lower by assumption. f_equal. exact IH.
Qed.

Lemma uintChars_digits (u : Decimal.uint) :
  Forall (fun c => isDigit c = true) (Num.uintChars u).
Proof. induction u; simpl; constructor; (reflexivity || assumption). Qed.

Lemma decimal_digits (x : Z) : Forall (fun c => isDigit c = true) (Num.decimal x).
Proof. apply uintChars_digits. Qed.

Lemma digits_numChars (x : str) :
  Forall (fun c => isDigit c = true) x -> Forall (fun c => numChar c = true) x.
Proof. intros H. eapply Forall_impl; [exact H|]. exact isDigit_numChar. Qed.

Lemma dropTrailingZeros_sub (x : str) (P : ascii -> Prop) :
  Forall P x -> Forall P (Num.dropTrailingZeros x).
Proof.
  induction 1 as [|c x Hc Hx IH]; simpl; [constructor|].
  destruct (decide (c = "0"%char)); [exact IH|constructor; assumption].
Qed.

Lemma natToString_numChars (x : Z) :
  Forall (fun c => numChar c = true) (Num.natToString x).
Proof.
  unfold Num.natToString.
  destruct (x <? 2 ^ 53)%Z; [apply digits_numChars, decimal_digits|].
  set (v := Num.decimal (Num.shortest x)).
  assert (Hv : Forall (fun c => numChar c = true) v)
    by apply digits_numChars, decimal_digits.
  destruct (length v <=? 21)%nat; [exact Hv|].
  assert (He : Forall (fun c => numChar c = true)
                 (lit "e+" ++ Num.decimal (Z.of_nat (length v - 1)))).
  { apply Forall_app. split; [repeat constructor|apply digits_numChars, decimal_digits]. }
  assert (Hr : Forall (fun c => numChar c = true) (rev (Num.dropTrailingZeros (rev v)))).
  { apply Forall_rev, dropTrailingZeros_sub, Forall_rev, Hv. }
  destruct (rev (Num.dropTrailingZeros (rev v))) as [|c [|c' cs]]; [exact Hv| |].
  - inversion Hr; subst. constructor; assumption.
  - inversion Hr as [|? ? Hc Hcs]; subst. constructor; [exact Hc|].
    constructor; [reflexivity|]. apply Forall_app. split; assumption.
Qed.

(** A finite number prints in digits, signs, [.] and [e]. *)
Lemma toString_numChars (z : Z) :
  Forall (fun c => numChar c = true) (Num.toString (Num.Fin z)).
Proof.
  simpl. destruct (z <? 0)%Z; [constructor; [reflexivity|]|]; apply natToString_numChars.
Qed.

Lemma add1_Fin_cases (z : Z) :
  (exists z', Num.add1 (Num.Fin z) = Num.Fin z') \/ Num.add1 (Num.Fin z) = Num.PosInf.
Proof. simpl. unfold Num.ofZ. destruct (_ <? _)%Z; eauto. Qed.

End Characters.

Section Format.

Import Js DateFns.

Local Open Scope Z_scope.

Lemma stampChar_numChar (c : ascii) : stampChar c = true -> numChar c = true.
Proof. destruct c as [[] [] [] [] [] [] [] []]; vm_compute; intros; congruence. Qed.

Lemma stampChar_not_dot (c : ascii) : stampChar c = true -> c <> "."%char.
Proof. destruct c as [[] [] [] [] [] [] [] []]; vm_compute; intros; congruence. Qed.

Lemma isDigit_stampChar (c : ascii) : isDigit c = true -> stampChar c = true.
Proof. destruct c as [[] [] [] [] [] [] [] []]; vm_compute; intros; congruence. Qed.

Lemma addLeadingZeros_chars (n : Z) (w : nat) :
  Forall (fun c => stampChar c = true) (addLeadingZeros n w).
Proof.
  unfold addLeadingZeros.
  assert (H : Forall (fun c => stampChar c = true)
                (replicate (w - length (Num.decimal (Z.abs n))) "0"%char
                 ++ Num.decimal (Z.abs n))).
  { apply Forall_app. split; [apply Forall_replicate; reflexivity|].
    eapply Forall_impl; [apply decimal_digits|]. exact isDigit_stampChar. }
  destruct (n <? 0); [constructor; [reflexivity|exact H]|exact H].
Qed.

Lemma addLeadingZeros_length (n : Z) (w : nat) :
  (w <= length (addLeadingZeros n w))%nat.
Proof.
  unfold addLeadingZeros.
  destruct (n <? 0); cbn [length]; rewrite length_app, length_replicate; lia.
Qed.

Lemma format_chars (d : Date) (T : str) :
  format d = Ret T -> Forall (fun c => stampChar c = true) T.
Proof.
  destruct d as [f|]; [|discriminate]. intros [= <-].
  repeat (apply Forall_app; split; try apply addLeadingZeros_chars).
  constructor; [reflexivity|].
  repeat (apply Forall_app; split; try apply addLeadingZeros_chars).
Qed.

Lemma format_length (d : Date) (T : str) :
  format d = Ret T -> (15 <= length T)%nat.
Proof.
  destruct d as [f|]; [|discriminate]. intros [= <-].
  rewrite !length_app. cbn [length]. rewrite !length_app.
  pose proof (addLeadingZeros_length
                (if 0 <? year f then year f else 1 - year f) 4).
  pose proof (addLeadingZeros_length (month f) 2).
  pose proof (addLeadingZeros_length (day f) 2).
  pose proof (addLeadingZeros_length (hour f) 2).
  pose proof (addLeadingZeros_length (minute f) 2).
  pose proof (addLeadingZeros_length (second f) 2).
  lia.
Qed.

(** A number of at most [w] digits is printed with exactly [w] digits:
    checked for every number below the bound. *)
Lemma addLeadingZeros_checked (w : nat) (bound n : Z) :
  forallb (paddedTo w) (seq 0 (Z.to_nat bound)) = true ->
  0 <= n < bound ->
  length (addLeadingZeros n w) = w
  /\ Forall (fun c => isDigit c = true) (addLeadingZeros n w).
Proof.
  intros Hall Hn. rewrite forallb_forall in Hall.
  specialize (Hall (Z.to_nat n)). unfold paddedTo in Hall.
  rewrite Z2Nat.id in Hall by lia.
  destruct (andb_prop _ _ (Hall ltac:(apply in_seq; lia))) as [Hl Hd].
  split; [apply Nat.eqb_eq; exact Hl|].
  apply Forall_forall. intros c Hc. apply list_elem_of_In in Hc.
  rewrite forallb_forall in Hd. apply Hd. exact Hc.
Qed.

Lemma addLeadingZeros_2 (n : Z) :
  0 <= n <= 99 ->
  length (addLeadingZeros n 2) = 2%nat
  /\ Forall (fun c => isDigit c = true) (addLeadingZeros n 2).
Proof.
  intros Hn. apply (addLeadingZeros_checked 2 100); [vm_compute; reflexivity|lia].
Qed.

Lemma addLeadingZeros_4 (n : Z) :
  0 <= n <= 9999 ->
  length (addLeadingZeros n 4) = 4%nat
  /\ Forall (fun c => isDigit c = true) (addLeadingZeros n 4).
Proof.
  intros Hn. apply (addLeadingZeros_checked 4 10000); [vm_compute; reflexivity|lia].
Qed.

(** The canonical shape: eight digits, [_], six digits. *)
Lemma format_canonical (f : Fields) :
  printable f ->
  exists d8 d6 : str,
    format (Valid f) = Ret (d8 ++ "_"%char :: d6)
    /\ length d8 = 8%nat /\ length d6 = 6%nat
    /\ Forall (fun c => isDigit c = true) d8
    /\ Forall (fun c => isDigit c = true) d6.
Proof.
  intros (Hy & Hmo & Hd & Hh & Hmi & Hs).
  destruct (addLeadingZeros_4 (year f) ltac:(lia)) as [Ly Dy].
  destruct (addLeadingZeros_2 (month f) Hmo) as [Lmo Dmo].
  destruct (addLeadingZeros_2 (day f) Hd) as [Ld Dd].
  destruct (addLeadingZeros_2 (hour f) Hh) as [Lh Dh].
  destruct (addLeadingZeros_2 (minute f) Hmi) as [Lmi Dmi].
  destruct (addLeadingZeros_2 (second f) Hs) as [Ls Ds].
  exists (addLeadingZeros (year f) 4 ++ addLeadingZeros (month f) 2
          ++ addLeadingZeros (day f) 2),
         (addLeadingZeros (hour f) 2 ++ addLeadingZeros (minute f) 2
          ++ addLeadingZeros (second f) 2).
  split.
  - simpl. destruct (Z.ltb_spec 0 (year f)); [|lia].
    rewrite <- !app_assoc. reflexivity.
  - rewrite !length_app, Ly, Lmo, Ld, Lh, Lmi, Ls.
    repeat split; try reflexivity; repeat (apply Forall_app; split); assumption.
Qed.

End Format.

Section ParsedDates.

Import Js DateFns.

Local Open Scope Z_scope.

Lemma isDigit_value (c : ascii) :
  isDigit c = true -> 0 <= Z.of_nat (code c) - 48 <= 9.
Proof.
  unfold isDigit. intros H. apply andb_prop in H as [H1 H2].
  apply Nat.leb_le in H1, H2. lia.
Qed.

Lemma digits_fold_range (ds : str) :
  Forall (fun c => isDigit c = true) ds ->
  forall v0, 0 <= v0 ->
  v0 * 10 ^ Z.of_nat (length ds)
  <= fold_left (fun v c => 10 * v + (Z.of_nat (code c) - 48)) ds v0
  < (v0 + 1) * 10 ^ Z.of_nat (length ds).
Proof.
  induction 1 as [|c ds Hc _ IH]; intros v0 Hv0.
  - simpl. lia.
  - cbn [fold_left length]. rewrite Nat2Z.inj_succ, Z.pow_succ_r by lia.
    pose proof (isDigit_value c Hc).
    specialize (IH (10 * v0 + (Z.of_nat (code c) - 48)) ltac:(lia)).
    assert (0 < 10 ^ Z.of_nat (length ds)) by (apply Z.pow_pos_nonneg; lia).
    nia.
Qed.

Lemma digitsValue_range (ds : str) :
  Forall (fun c => isDigit c = true) ds ->
  0 <= Num.digitsValue ds < 10 ^ Z.of_nat (length ds).
Proof.
  intros H. pose proof (digits_fold_range ds H 0 ltac:(lia)) as Hr.
  unfold Num.digitsValue. lia.
Qed.

Lemma takeDigits_digits (n : nat) (x : str) :
  Forall (fun c => isDigit c = true) (takeDigits n x).
Proof.
  revert x. induction n as [|n IH]; intros [|c x]; simpl; try constructor.
  destruct (isDigit c) eqn:Hc; constructor; [exact Hc|apply IH].
Qed.

Lemma takeDigits_length (n : nat) (x : str) : (length (takeDigits n x) <= n)%nat.
Proof.
  revert x. induction n as [|n IH]; intros [|c x]; simpl; try lia.
  destruct (isDigit c); simpl; [specialize (IH x)|]; lia.
Qed.

(** The values read so far stay at the front of the result. *)
Lemma runTokens_prefix (ts : list token) :
  forall (x : str) (acc out : list Z) (rest : str),
  runTokens ts x acc = Some (out, rest) -> exists more, out = acc ++ more.
Proof.
  induction ts as [|[w|c] ts IH]; intros x acc out rest; simpl.
  - intros [= <- <-]. exists []. rewrite app_nil_r. reflexivity.
  - destruct (takeDigits w x) as [|a ds]; [discriminate|].
    intros H. apply IH in H as [more ->]. exists (Num.digitsValue (a :: ds) :: more).
    rewrite <- app_assoc. reflexivity.
  - destruct x as [|a r]; [discriminate|].
    destruct (bool_decide (a = c)); [apply IH|discriminate].
Qed.

Lemma validFields_ranges (f : Fields) :
  validFields f = true ->
  0 < year f /\ 1 <= month f <= 12 /\ 1 <= day f <= 31
  /\ 0 <= hour f <= 23 /\ 0 <= minute f <= 59 /\ 0 <= second f <= 59.
Proof.
  unfold validFields, between, daysInMonth. intros H.
  repeat (apply andb_prop in H as [H ?]).
  repeat match goal with
         | H : (_ <=? _) = true |- _ => apply Z.leb_le in H
         | H : (_ <? _) = true |- _ => apply Z.ltb_lt in H
         end.
  repeat split; try lia.
  destruct (month f =? 2); [destruct (isLeapYear (year f)); lia|].
  destruct (_ || _); lia.
Qed.

(** A date parsed under a pattern that starts with [yyyy] has a year of
    four digits at most. *)
Lemma parse_printable (x : str) (ts : list token) (f : Fields) :
  parse x (Num 4 :: ts) = Valid f -> printable f.
Proof.
  unfold parse.
  destruct (runTokens (Num 4 :: ts) x []) as [[vals rest]|] eqn:Hrun; [|discriminate].
  destruct vals as [|y [|mo [|d [|h [|mi [|s [|? ?]]]]]]]; try discriminate.
  destruct (forallb isSpace rest); [|discriminate].
  destruct (validFields (mkFields y mo d h mi s)) eqn:Hv; [|discriminate].
  intros [= <-]. apply validFields_ranges in Hv. simpl in Hv.
  assert (Hy : y < 10 ^ 4).
  { cbn [runTokens] in Hrun.
    destruct (takeDigits 4 x) as [|a ds] eqn:Hds; [discriminate|].
    apply runTokens_prefix in Hrun as [more Hmore]. simpl in Hmore.
    injection Hmore as -> _.
    pose proof (takeDigits_digits 4 x) as Hd. pose proof (takeDigits_length 4 x) as Hl.
    rewrite Hds in Hd, Hl.
    pose proof (digitsValue_range _ Hd) as [_ Hlt].
    eapply Z.lt_le_trans; [exact Hlt|]. apply Z.pow_le_mono_r; lia. }
  unfold printable. simpl. lia.
Qed.

Lemma searchFrom_at (at_ : str -> option str) (x : str) :
  forall (i : nat) (m : Re.MatchArray),
  Re.searchFrom at_ i x = Some m -> exists y, at_ y = Some (Re.matched m).
Proof.
  induction x as [|c x IH]; intros i m; simpl.
  - destruct (at_ []) eqn:H; [|discriminate]. intros [= <-]. eauto.
  - destruct (at_ (c :: x)) eqn:H; [intros [= <-]; eauto|apply IH].
Qed.

Lemma takeWhile_all (P : ascii -> bool) (x : str) :
  forallb P x = true -> takeWhile P x = x.
Proof.
  induction x as [|c x IH]; [reflexivity|]. simpl.
  destruct (P c); [|discriminate]. intros H. rewrite IH by exact H. reflexivity.
Qed.

(** Thirteen digits that start with 15 are a time between 2017 and 2020. *)
Lemma epoch_value (d : str) :
  length d = 13%nat -> forallb isDigit d = true ->
  startsWith (lit "15") d = true ->
  15 * 10 ^ 11 <= Num.digitsValue d < 16 * 10 ^ 11.
Proof.
  intros Hl Hd Hs.
  destruct d as [|a [|b ds]]; try discriminate.
  simpl in Hs. destruct (decide ("1"%char = a)) as [<-|]; [|discriminate].
  destruct (decide ("5"%char = b)) as [<-|]; [|discriminate].
  simpl in Hd. rewrite forallb_forall in Hd.
  assert (Hds : Forall (fun c => isDigit c = true) ds).
  { apply Forall_forall. intros c Hc. apply Hd. apply list_elem_of_In. exact Hc. }
  pose proof (digits_fold_range ds Hds 15 ltac:(lia)) as Hr.
  simpl in Hl. injection Hl as Hl. rewrite Hl in Hr.
  unfold Num.digitsValue. cbn [fold_left].
  change (10 * (10 * 0 + (Z.of_nat (code "1") - 48)) + (Z.of_nat (code "5") - 48)) with 15.
  exact Hr.
Qed.

Lemma ofNumber_epoch_printable (t : Z) (f : Fields) :
  15 * 10 ^ 11 <= t < 16 * 10 ^ 11 ->
  ofNumber (Some (Num.Fin t)) = Valid f -> printable f.
Proof.
  intros Ht. unfold ofNumber.
  destruct (Z.abs t <=? 8640000000000000); [|discriminate].
  assert (Hday : 17361 <= t / 86400000 <= 17361 + 1157).
  { split; [apply Z.div_le_lower_bound; lia|].
    apply Z.lt_succ_r. apply Z.div_lt_upper_bound; lia. }
  assert (Hall : forallb civilIn2017To2020 (seq 0 1158) = true)
    by (vm_compute; reflexivity).
  rewrite forallb_forall in Hall.
  specialize (Hall (Z.to_nat (t / 86400000 - 17361)) ltac:(apply in_seq; lia)).
  unfold civilIn2017To2020 in Hall.
  replace (17361 + Z.of_nat (Z.to_nat (t / 86400000 - 17361)))
    with (t / 86400000) in Hall by lia.
  destruct (civilFromDays (t / 86400000)) as [[y m] d].
  unfold between in Hall.
  repeat (apply andb_prop in Hall as [Hall ?]).
  repeat match goal with
         | H : (_ <=? _) = true |- _ => apply Z.leb_le in H
         end.
  intros [= <-]. unfold printable. simpl.
  pose proof (Z.mod_pos_bound t 86400000 ltac:(lia)) as Hr.
  pose proof (Z.mod_pos_bound (t mod 86400000 / 60000) 60 ltac:(lia)).
  pose proof (Z.mod_pos_bound (t mod 86400000 / 1000) 60 ltac:(lia)).
  assert (0 <= t mod 86400000 / 3600000 <= 23).
  { split; [apply Z.div_pos; lia|].
    apply Z.lt_succ_r. apply Z.div_lt_upper_bound; lia. }
  lia.
Qed.

End ParsedDates.

Section Paths.

Import Js Path.

Lemma takeWhile_app (P : ascii -> bool) (a b : str) :
  forallb P a = true -> takeWhile P (a ++ b) = a ++ takeWhile P b.
Proof.
  induction a as [|c a IH]; [reflexivity|]. simpl.
  destruct (P c); [|discriminate]. intros H. rewrite IH by exact H. reflexivity.
Qed.

Lemma dropWhile_app (P : ascii -> bool) (a b : str) :
  forallb P a = true -> dropWhile P (a ++ b) = dropWhile P b.
Proof.
  induction a as [|c a IH]; [reflexivity|]. simpl.
  destruct (P c); [|discriminate]. exact IH.
Qed.

Lemma forallb_rev (P : ascii -> bool) (a : str) :
  forallb P (rev a) = forallb P a.
Proof.
  induction a as [|c a IH]; [reflexivity|]. simpl.
  rewrite forallb_app, IH. simpl. rewrite andb_true_r. apply andb_comm.
Qed.

Lemma forallb_notSlash (x : str) :
  Forall (fun c => c <> slash) x -> forallb notSlash x = true.
Proof.
  induction 1 as [|c x Hc _ IH]; [reflexivity|]. simpl. rewrite IH.
  unfold notSlash. destruct (decide (c = slash)); [contradiction|reflexivity].
Qed.

Lemma forallb_notDot (x : str) :
  Forall (fun c => c <> dot) x -> forallb notDot x = true.
Proof.
  induction 1 as [|c x Hc _ IH]; [reflexivity|]. simpl. rewrite IH.
  unfold notDot. destruct (decide (c = dot)); [contradiction|reflexivity].
Qed.

Lemma takeWhile_sub (P : ascii -> bool) (Q : ascii -> Prop) (x : str) :
  Forall Q x -> Forall Q (takeWhile P x).
Proof.
  induction 1 as [|c x Hc _ IH]; simpl; [constructor|].
  destruct (P c); constructor; assumption.
Qed.

Lemma takeWhile_holds (P : ascii -> bool) (x : str) :
  Forall (fun c => P c = true) (takeWhile P x).
Proof.
  induction x as [|c x IH]; simpl; [constructor|].
  destruct (P c) eqn:H; constructor; assumption.
Qed.

Lemma splitChar_nonempty (c : ascii) (x : str) : splitChar c x <> [].
Proof.
  destruct x as [|a x]; simpl; [discriminate|].
  destruct (decide (a = c)); [discriminate|].
  destruct (splitChar c x); discriminate.
Qed.

Lemma splitChar_app (c : ascii) (a b : str) :
  splitChar c (a ++ c :: b) = splitChar c a ++ splitChar c b.
Proof.
  induction a as [|x a IH]; simpl.
  - destruct (decide (c = c)); [reflexivity|contradiction].
  - destruct (decide (x = c)); [rewrite IH; reflexivity|].
    rewrite IH. pose proof (splitChar_nonempty c a).
    destruct (splitChar c a); [contradiction|reflexivity].
Qed.

Lemma splitChar_none (c : ascii) (x : str) :
  Forall (fun a => a <> c) x -> splitChar c x = [x].
Proof.
  induction 1 as [|a x Ha _ IH]; [reflexivity|]. simpl.
  destruct (decide (a = c)); [contradiction|]. rewrite IH. reflexivity.
Qed.

(** Cutting at a character and joining with it again gives the text back. *)
Lemma join_splitChar (c : ascii) (x : str) : Js.join [c] (splitChar c x) = x.
Proof.
  induction x as [|a x IH]; [reflexivity|]. simpl.
  destruct (decide (a = c)) as [->|Hne].
  - pose proof (splitChar_nonempty c x).
    destruct (splitChar c x) as [|p ps]; [contradiction|].
    change (Js.join [c] ([] :: p :: ps)) with ([] ++ [c] ++ Js.join [c] (p :: ps)).
    rewrite IH. reflexivity.
  - pose proof (splitChar_nonempty c x).
    destruct (splitChar c x) as [|p ps]; [contradiction|].
    destruct ps as [|p' ps]; simpl in *; rewrite <- IH; reflexivity.
Qed.

Lemma join_snoc (sep : str) (l : list str) (x : str) :
  Js.join sep (l ++ [x])
  = match l with [] => x | _ => Js.join sep l ++ sep ++ x end.
Proof.
  induction l as [|a l IH]; [reflexivity|].
  destruct l as [|b l]; [reflexivity|].
  change (Js.join sep ((a :: b :: l) ++ [x]))
    with (a ++ sep ++ Js.join sep ((b :: l) ++ [x])).
  rewrite IH. change (Js.join sep (a :: b :: l)) with (a ++ sep ++ Js.join sep (b :: l)).
  rewrite <- !app_assoc. reflexivity.
Qed.

Lemma pushSegment_plain (allow : bool) (kept : list str) (seg : str) :
  Spec.plainSegment seg -> pushSegment allow kept seg = seg :: kept.
Proof.
  intros (H0 & H1 & H2). unfold pushSegment.
  rewrite !bool_decide_eq_false_2 by assumption. reflexivity.
Qed.

Lemma fold_pushSegment_plain (allow : bool) (segs : list str) :
  Forall Spec.plainSegment segs ->
  forall kept, fold_left (pushSegment allow) segs kept = rev segs ++ kept.
Proof.
  induction 1 as [|seg segs Hs _ IH]; intros kept; [reflexivity|].
  simpl. rewrite pushSegment_plain by exact Hs. rewrite IH, <- app_assoc. reflexivity.
Qed.

Lemma last_app_nonempty (x n : str) : n <> [] -> last (x ++ n) = last n.
Proof.
  intros Hn. destruct n as [|c n]; [contradiction|].
  rewrite last_app. destruct (last (c :: n)) eqn:H; [reflexivity|].
  apply last_None in H. discriminate.
Qed.

Lemma plainName_last (n : str) : Spec.plainName n -> last n <> Some slash.
Proof.
  intros [[Hne _] Hns] H. apply last_Some in H as [l' ->].
  apply Forall_app in Hns as [_ Hs]. inversion Hs; subst. contradiction.
Qed.

(** [path.join(d, name)] puts the normalised directory in front of the
    name, which it leaves as it is. *)
Lemma join_dir_name (d n : str) :
  Spec.plainName n -> join [d; n] = Spec.dirPrefix d ++ n.
Proof.
  intros Hn. pose proof Hn as [[Hne Hplain] Hns]. unfold join.
  assert (Hlast : forall x, bool_decide (last (x ++ n) = Some slash) = false).
  { intros x. rewrite last_app_nonempty by exact Hne.
    apply bool_decide_eq_false_2, plainName_last, Hn. }
  destruct d as [|c d'].
  - rewrite filter_cons_False by (intros H; apply H; reflexivity).
    rewrite filter_cons_True by exact Hne. rewrite filter_nil.
    cbn [Js.join Spec.dirPrefix app]. unfold normalize.
    destruct n as [|a n']; [contradiction|].
    assert (Ha : a <> slash) by (inversion Hns; assumption).
    rewrite (bool_decide_eq_false_2 (a = slash)) by exact Ha.
    specialize (Hlast []). cbn [app] in Hlast. rewrite Hlast.
    unfold normalizeString. rewrite splitChar_none by exact Hns.
    cbn [fold_left]. rewrite pushSegment_plain by (split; assumption).
    reflexivity.
  - rewrite filter_cons_True by discriminate.
    rewrite filter_cons_True by exact Hne. rewrite filter_nil.
    change (Js.join [slash] [c :: d'; n]) with ((c :: d') ++ slash :: n).
    unfold normalize, Spec.dirPrefix. cbn [app].
    change (c :: d' ++ slash :: n) with ((c :: d') ++ slash :: n).
    replace (bool_decide (last ((c :: d') ++ slash :: n) = Some slash)) with false.
    2:{ symmetry. specialize (Hlast ((c :: d') ++ [slash])).
        rewrite <- app_assoc in Hlast. exact Hlast. }
    unfold normalizeString. rewrite splitChar_app, fold_left_app.
    rewrite splitChar_none by exact Hns. cbn [fold_left].
    rewrite pushSegment_plain by (split; assumption).
    cbn [rev]. rewrite join_snoc.
    set (kept := fold_left _ (splitChar slash (c :: d')) []).
    destruct (rev kept) as [|s segs] eqn:Hk.
    + destruct n as [|a n']; [contradiction|].
      destruct (bool_decide (c = slash)); reflexivity.
    + set (q := Js.join [slash] (s :: segs) ++ [slash] ++ n).
      assert (Hq : q <> []).
      { unfold q. destruct (Js.join [slash] (s :: segs)); discriminate. }
      destruct q as [|qa q'] eqn:Heq; [contradiction|].
      destruct (bool_decide (c = slash)); cbn [app]; rewrite <- Heq; unfold q;
        rewrite <- !app_assoc; reflexivity.
Qed.

Lemma dropWhile_head (P : ascii -> bool) (c : ascii) (x : str) :
  P c = false -> dropWhile P (c :: x) = c :: x.
Proof. intros H. simpl. rewrite H. reflexivity. Qed.

(** The text after the last separator, when the path does not end with a
    separator: [pb] is empty or ends with a separator, [n] is a name. *)
Lemma parse_tail (pb n : str) :
  Spec.plainName n -> pb = [] \/ last pb = Some slash ->
  dropWhile (fun c => negb (notSlash c)) (rev (pb ++ n)) = rev n ++ rev pb
  /\ takeWhile notSlash (rev n ++ rev pb) = rev n
  /\ dropWhile notSlash (rev n ++ rev pb) = rev pb
  /\ (rev pb = [] \/ exists y, rev pb = slash :: rev y /\ pb = y ++ [slash]).
Proof.
  intros [[Hne _] Hns] Hpb.
  assert (Hrev : forallb notSlash (rev n) = true)
    by (rewrite forallb_rev; apply forallb_notSlash, Hns).
  assert (Hshape : rev pb = [] \/ exists y, rev pb = slash :: rev y /\ pb = y ++ [slash]).
  { destruct Hpb as [->|Hl]; [left; reflexivity|].
    apply last_Some in Hl as [y ->]. right. exists y.
    rewrite rev_app_distr. split; reflexivity. }
  split; [|split; [|split; [|exact Hshape]]].
  - rewrite rev_app_distr.
    destruct (rev n) as [|l m] eqn:Hr.
    { apply (f_equal (@rev ascii)) in Hr. rewrite rev_involutive in Hr. contradiction. }
    simpl in Hrev. apply andb_prop in Hrev as [Hl _].
    apply dropWhile_head. rewrite Hl. reflexivity.
  - rewrite takeWhile_app by exact Hrev.
    destruct Hshape as [->|(y & -> & _)]; simpl; [|unfold notSlash; simpl];
      rewrite app_nil_r; reflexivity.
  - rewrite dropWhile_app by exact Hrev.
    destruct Hshape as [->|(y & -> & _)]; reflexivity.
Qed.

Lemma splitExt_not_dotdot (r1 r2 : bool) (b : str) :
  b <> [dot; dot] -> splitExt r1 b = splitExt r2 b.
Proof.
  intros Hb. unfold splitExt.
  destruct (dropWhile notDot (rev b)) as [|x before]; [reflexivity|].
  destruct (rev before) as [|c l]; [reflexivity|].
  rewrite (bool_decide_eq_false_2 (b = [dot; dot])) by exact Hb.
  rewrite andb_false_r. reflexivity.
Qed.

Lemma parse_absolute (rest : str) : parse (slash :: rest) = parsedBody true rest.
Proof. reflexivity. Qed.

Lemma parse_relative (p : str) (c : ascii) (rest : str) :
  p = c :: rest -> c <> slash -> parse p = parsedBody false p.
Proof.
  intros -> Hc. cbn [parse]. rewrite (bool_decide_eq_false_2 (c = slash)) by exact Hc.
  reflexivity.
Qed.

Lemma parsedBody_name (isAbsolute : bool) (pb n : str) :
  Spec.plainName n -> pb = [] \/ last pb = Some slash ->
  parsedBody isAbsolute (pb ++ n)
  = mkParsed (if isAbsolute then [slash] else [])
      (match rev pb with
       | [] => if isAbsolute then [slash] else []
       | _ :: before => (if isAbsolute then [slash] else []) ++ rev before
       end)
      n (splitExt false n).2 (splitExt false n).1.
Proof.
  intros Hn Hpb. pose proof Hn as [[Hne [_ Hdd]] Hns].
  destruct (parse_tail pb n Hn Hpb) as (Ht & Hb & Hd & _).
  unfold parsedBody. rewrite Ht, Hb, Hd, rev_involutive.
  rewrite (splitExt_not_dotdot _ false n Hdd).
  destruct (splitExt false n); reflexivity.
Qed.

(** What [path.parse] reads off a name behind a prefix that is empty or
    ends with a separator. *)
Lemma parse_prefix_name (pre n : str) :
  Spec.plainName n -> pre = [] \/ last pre = Some slash ->
  base (parse (pre ++ n)) = n
  /\ dir (parse (pre ++ n)) = Spec.dirOfPrefix pre
  /\ ext (parse (pre ++ n)) = (splitExt false n).2
  /\ name (parse (pre ++ n)) = (splitExt false n).1.
Proof.
  intros Hn Hpre. pose proof Hn as [[Hne _] Hns].
  destruct pre as [|c r].
  - (* no directory at all *)
    assert (Hhead : exists a n', n = a :: n' /\ a <> slash).
    { destruct n as [|a n']; [contradiction|]. exists a, n'.
      split; [reflexivity|]. inversion Hns; assumption. }
    destruct Hhead as (a & n' & En & Ha).
    cbn [app]. rewrite (parse_relative n a n' En Ha).
    pose proof (parsedBody_name false [] n Hn (or_introl eq_refl)) as H.
    cbn [app] in H. rewrite H. repeat split.
  - destruct (decide (c = slash)) as [->|Hc].
    + (* an absolute prefix *)
      assert (Hr : r = [] \/ last r = Some slash).
      { destruct r as [|x r']; [left; reflexivity|right].
        destruct Hpre as [|Hl]; [discriminate|]. exact Hl. }
      change ((slash :: r) ++ n) with (slash :: (r ++ n)).
      rewrite parse_absolute, (parsedBody_name true r n Hn Hr).
      unfold Spec.dirOfPrefix.
      rewrite (bool_decide_eq_true_2 (slash = slash)) by reflexivity.
      cbn [base dir ext name]. repeat split.
      destruct Hr as [->|Hl]; [reflexivity|].
      apply last_Some in Hl as [y ->].
      rewrite rev_app_distr. cbn [rev app]. rewrite rev_involutive, removelast_last.
      destruct (y ++ [slash]) eqn:E; [destruct y; discriminate|]. reflexivity.
    + (* a relative prefix *)
      rewrite (parse_relative ((c :: r) ++ n) c (r ++ n) eq_refl Hc).
      rewrite (parsedBody_name false (c :: r) n Hn Hpre).
      unfold Spec.dirOfPrefix.
      rewrite (bool_decide_eq_false_2 (c = slash)) by exact Hc.
      cbn [base dir ext name]. repeat split.
      destruct Hpre as [|Hl]; [discriminate|].
      apply last_Some in Hl as [y Hy]. rewrite Hy.
      rewrite rev_app_distr. cbn [rev app]. rewrite rev_involutive, removelast_last.
      reflexivity.
Qed.

Lemma dirPrefix_shape (d : str) :
  Spec.dirPrefix d = [] \/ last (Spec.dirPrefix d) = Some slash.
Proof.
  unfold Spec.dirPrefix. destruct d as [|c d']; [left; reflexivity|].
  set (kept := fold_left _ _ []).
  destruct (rev kept) as [|s segs].
  - destruct (bool_decide (c = slash)); [right|left]; reflexivity.
  - right. rewrite app_assoc. apply last_snoc.
Qed.

Lemma notDot_true (c : ascii) : notDot c = true -> c <> dot.
Proof. unfold notDot. destruct (decide (c = dot)); [discriminate|trivial]. Qed.

Lemma notSlash_true (c : ascii) : notSlash c = true -> c <> slash.
Proof. unfold notSlash. destruct (decide (c = slash)); [discriminate|trivial]. Qed.

Lemma splitExt_shape (ro : bool) (b : str) :
  Forall (fun c => c <> slash) b ->
  (splitExt ro b).2 = []
  \/ exists e', (splitExt ro b).2 = dot :: e'
       /\ Forall (fun c => c <> dot) e' /\ Forall (fun c => c <> slash) e'.
Proof.
  intros Hb. unfold splitExt.
  destruct (dropWhile notDot (rev b)) as [|x before]; [left; reflexivity|].
  assert (He : exists e', dot :: rev (takeWhile notDot (rev b)) = dot :: e'
                /\ Forall (fun c => c <> dot) e' /\ Forall (fun c => c <> slash) e').
  { eexists. split; [reflexivity|]. split.
    - apply Forall_rev. eapply Forall_impl; [apply takeWhile_holds|]. exact notDot_true.
    - apply Forall_rev, takeWhile_sub, Forall_rev, Hb. }
  destruct (rev before) as [|c l]; [left; reflexivity|].
  destruct (_ && _ && _); [left; reflexivity|right; exact He].
Qed.

(** An extension is empty, or a dot followed by characters that are
    neither dots nor separators. *)
Lemma ext_shape (p : str) :
  ext (parse p) = []
  \/ exists e', ext (parse p) = dot :: e'
       /\ Forall (fun c => c <> dot) e' /\ Forall (fun c => c <> slash) e'.
Proof.
  assert (Hbody : forall a body,
            ext (parsedBody a body) = []
            \/ exists e', ext (parsedBody a body) = dot :: e'
                 /\ Forall (fun c => c <> dot) e' /\ Forall (fun c => c <> slash) e').
  { intros a body. unfold parsedBody.
    set (t := dropWhile _ (rev body)).
    set (ro := a && _).
    pose proof (splitExt_shape ro (rev (takeWhile notSlash t))) as H.
    destruct (splitExt ro (rev (takeWhile notSlash t))) as [n e]. simpl in *.
    apply H. apply Forall_rev. eapply Forall_impl; [apply takeWhile_holds|].
    exact notSlash_true. }
  destruct p as [|c rest]; [left; reflexivity|].
  cbn [parse]. destruct (bool_decide (c = slash)); apply Hbody.
Qed.

Lemma splitExt_stem (c : ascii) (s e' : str) :
  c <> dot -> Forall (fun x => x <> dot) e' ->
  splitExt false ((c :: s) ++ dot :: e') = (c :: s, dot :: e').
Proof.
  intros Hc He. unfold splitExt.
  assert (Hrev : forallb notDot (rev e') = true)
    by (rewrite forallb_rev; apply forallb_notDot, He).
  rewrite rev_app_distr. cbn [rev]. rewrite <- app_assoc. cbn [app].
  rewrite dropWhile_app by exact Hrev.
  rewrite dropWhile_head by (unfold notDot; destruct (decide (dot = dot)); congruence).
  rewrite takeWhile_app by exact Hrev.
  cbn [takeWhile]. unfold notDot at 1.
  destruct (decide (dot = dot)); [|contradiction].
  rewrite app_nil_r, !rev_involutive.
  change (rev (rev (c :: s))) with (rev (rev s ++ [c])).
  rewrite rev_app_distr, rev_involutive. cbn [rev app].
  rewrite (bool_decide_eq_false_2 (c = dot)) by exact Hc. reflexivity.
Qed.

End Paths.

Section Resolver.

Import Path MediaDateTime.

Lemma bind_ret {A B : Type} (a : A) (k : A -> result B) :
  (Ret a ≫= k) = k a.
Proof. reflexivity. Qed.

(** When the canonical-name check returned, the base of the name is
    defined and no file-name source throws. *)
Lemma isCorrectFileName_ret file b :
  isCorrectFileName file = Ret b -> exists x, baseOf file = Ret x.
Proof.
  unfold isCorrectFileName. destruct (baseOf file) as [x|e]; [eauto|discriminate].
Qed.

Lemma searchFrom_length at_ i x m :
  Re.searchFrom at_ i x = Some m -> Re.length m = 1%nat.
Proof.
  revert i. induction x as [|c x IH]; intros i; simpl.
  - destruct (at_ []); [|discriminate]. intros [= <-]. reflexivity.
  - destruct (at_ (c :: x)).
    + intros [= <-]. reflexivity.
    + apply IH.
Qed.

(** What [#getDate] returns once the metadata has been read. *)
Lemma getDate_after_exif w p m :
  isCorrectFileName (parse p) = Ret false ->
  getExif w p = Ret m ->
  getDate w p = Ret (Spec.resolveInOrder w p).
Proof.
  intros Hc Hm. destruct (isCorrectFileName_ret _ _ Hc) as [x Hx].
  unfold getDate, Spec.resolveInOrder, Spec.fromMetadata, Spec.fromFileName,
    Spec.fromEpoch.
  rewrite Hc, bind_ret, Hm, bind_ret. simpl Spec.firstOf.
  destruct (getDateFromExif (parse p) m) as [d|]; [reflexivity|].
  unfold getDateFromFileName, getDateFromUnixTimestamp. rewrite Hx, !bind_ret.
  destruct (Re.matchStamp x) as [ms|]; simpl.
  - destruct (1 <? Re.length ms)%nat; simpl; [|reflexivity].
    destruct (Re.matchEpoch x) as [me|]; simpl; [|reflexivity].
    destruct (1 <? Re.length me)%nat; reflexivity.
  - destruct (Re.matchEpoch x) as [me|]; simpl; [|reflexivity].
    destruct (1 <? Re.length me)%nat; reflexivity.
Qed.






(** The date text that the resolver parses comes from the metadata map. *)
Lemma createDate_getDateFromExif w p v :
  Spec.createDate w p = Some v ->
  exists m, getExif w p = Ret m
    /\ getDateFromExif (parse p) m = Some (DateFns.parse v DateFns.exifPattern).
Proof.
  unfold Spec.createDate, getDateFromExif.
  destruct (getExif w p) as [m|e]; [|discriminate].
  intros H. exists m. split; [reflexivity|].
  destruct (m !! lit "CreateDate") as [x|]; [|discriminate].
  rewrite H. reflexivity.
Qed.

(** C3, as amended: a [CreateDate] that does not parse yields the invalid
    date, which the resolver returns as it is; no later source is used,
    and [replace] returns the path unchanged. *)
Theorem malformed_createDate w p v :
  Spec.eligible p ->
  Spec.createDate w p = Some v ->
  DateFns.parse v DateFns.exifPattern = DateFns.Invalid ->
  getDate w p = Ret (Some DateFns.Invalid)
  /\ forall fuel st, replace w fuel st p = Some (Ret p, st).
Proof.
  intros [Hmedia Hc] Hv Hparse.
  destruct (createDate_getDateFromExif _ _ _ Hv) as (m & Hm & Hd).
  assert (Hg : getDate w p = Ret (Some DateFns.Invalid)).
  { unfold getDate. rewrite Hc, bind_ret, Hm, bind_ret, Hd, Hparse. reflexivity. }
  split; [exact Hg|].
  intros fuel st. unfold replace. rewrite Hmedia, Hg. reflexivity.
Qed.

Lemma malformed_createDate_witness :
  getDate (Ex.world Ex.unsetDate []) Ex.stamped = Ret (Some DateFns.Invalid)
  /\ forall fuel st,
       replace (Ex.world Ex.unsetDate []) fuel st Ex.stamped = Some (Ret Ex.stamped, st).
Proof.
  apply (malformed_createDate (Ex.world Ex.unsetDate []) Ex.stamped Ex.unsetDate).
  - split; vm_compute; reflexivity.
  - vm_compute; reflexivity.
  - vm_compute; reflexivity.
Defined.

(** C3, as stated, fails: exiftool prints a date that does not parse, the
    file name holds a timestamp, and the resolver does not fall through to
    it. *)
Lemma malformed_createDate_counterexample :
  Spec.eligible Ex.stamped /\
  Spec.createDate (Ex.world Ex.unsetDate []) Ex.stamped = Some Ex.unsetDate /\
  DateFns.parse Ex.unsetDate DateFns.exifPattern = DateFns.Invalid /\
  Spec.resolveParsed (Ex.world Ex.unsetDate []) Ex.stamped
    = Some (DateFns.Valid (DateFns.mkFields 2020 1 1 1 2 3)) /\
  getDate (Ex.world Ex.unsetDate []) Ex.stamped
    <> Ret (Spec.resolveParsed (Ex.world Ex.unsetDate []) Ex.stamped).
Proof.
  split; [split; vm_compute; reflexivity|].
  repeat (split; [vm_compute; reflexivity|]).
  vm_compute. discriminate.
Qed.

(** C7: the guard [match.length > 1] never fires, and a base name with two
    timestamps is dated by the first of them. *)
Theorem getDateFromFileName_first_occurrence :
  (forall x m, Re.matchStamp x = Some m -> Re.length m = 1%nat) /\
  baseOf (parse Ex.twoStamps) = Ret (lit "IMG_20200101_010203_20210202_020304") /\
  Spec.occurrences Re.stampAt (lit "IMG_20200101_010203_20210202_020304") = 2%nat /\
  getDateFromFileName (parse Ex.twoStamps)
    = Ret (Some (DateFns.Valid (DateFns.mkFields 2020 1 1 1 2 3))) /\
  Ex.outputs (run (Ex.noDate []) 1 init [Ex.twoStamps])
    = Some [Ret (lit "/d/20200101_010203.jpg")].
Proof.
  split; [intros x m; apply searchFrom_length|].
  vm_compute. repeat split; reflexivity.
Qed.

End Resolver.

Section Numbers.

Import Num.

Local Open Scope Z_scope.

Lemma roundNat53_exact x : 0 <= x < 2 ^ 53 -> roundNat53 x = x.
Proof.
  intros [H0 H1]. unfold roundNat53.
  destruct (Z.eq_dec x 0) as [->|Hx]; [reflexivity|].
  assert (Z.log2 x < 53) by (apply Z.log2_lt_pow2; lia).
  destruct (Z.ltb_spec (Z.log2 x) 53); [reflexivity|lia].
Qed.

Lemma pow53_lt_pow1024 : 2 ^ 53 < 2 ^ 1024.
Proof. apply Z.pow_lt_mono_r; lia. Qed.

Lemma ofZ_exact x : - 2 ^ 53 < x < 2 ^ 53 -> ofZ x = Fin x.
Proof.
  intros H. unfold ofZ, roundZ. pose proof pow53_lt_pow1024.
  destruct (Z.ltb_spec x 0).
  - rewrite roundNat53_exact by lia. rewrite Z.opp_involutive.
    destruct (Z.ltb_spec x (2 ^ 1024)); [reflexivity|lia].
  - rewrite roundNat53_exact by lia.
    destruct (Z.ltb_spec x (2 ^ 1024)); [reflexivity|lia].
Qed.

Lemma add1_exact z : - 2 ^ 53 <= z -> z + 1 < 2 ^ 53 -> add1 (Fin z) = Fin (z + 1).
Proof. intros. simpl. apply ofZ_exact. lia. Qed.

Lemma uintChars_inj u u' : uintChars u = uintChars u' -> u = u'.
Proof.
  revert u'. induction u; destruct u'; simpl; intros H;
    try discriminate; try reflexivity; f_equal; apply IHu;
    injection H; auto.
Qed.

Lemma decimal_inj a b : 0 <= a -> 0 <= b -> decimal a = decimal b -> a = b.
Proof.
  intros Ha Hb H. apply uintChars_inj, DecimalN.Unsigned.to_uint_inj in H.
  apply Z2N.inj; assumption.
Qed.

Lemma toString_small z : 0 <= z < 2 ^ 53 -> toString (Fin z) = decimal z.
Proof.
  intros [H0 H1]. unfold toString, natToString.
  destruct (Z.ltb_spec z 0); [lia|].
  destruct (Z.ltb_spec z (2 ^ 53)); [reflexivity|lia].
Qed.

End Numbers.

Section NextAvailableIndex.

Import Num MediaDateTime.

Local Open Scope Z_scope.

Variables formattedDate extLower : str.

Local Abbreviation cand := (candidate formattedDate extLower).

Lemma candidate_neg z : z < 0 -> cand (Fin z) = formattedDate ++ extLower.
Proof.
  intros H. unfold candidate. simpl. destruct (Z.ltb_spec z 0); [reflexivity|lia].
Qed.

Lemma candidate_nonneg z :
  0 <= z -> z + 1 < 2 ^ 53 ->
  cand (Fin z) = formattedDate ++ "_"%char :: decimal (z + 1) ++ extLower.
Proof.
  intros H0 H1. unfold candidate. cbn [ltZero].
  destruct (Z.ltb_spec z 0); [lia|].
  rewrite add1_exact by lia. rewrite toString_small by lia. reflexivity.
Qed.

(** In the range of the safe integers the candidates of different indices
    are different names. *)
Lemma candidate_inj a b :
  0 <= a -> a + 1 < 2 ^ 53 -> 0 <= b -> b + 1 < 2 ^ 53 ->
  cand (Fin a) = cand (Fin b) -> a = b.
Proof.
  intros Ha Ha' Hb Hb'. rewrite !candidate_nonneg by assumption.
  intros H. apply app_inv_head in H. injection H as H.
  apply app_inv_tail in H. apply decimal_inj in H; lia.
Qed.

Lemma firstFree_S (n : nat) (set : gset str) (idx : number) :
  firstFree (S n) set formattedDate extLower idx
  = if bool_decide (cand idx ∈ set)
    then firstFree n set formattedDate extLower (add1 idx)
    else Some idx.
Proof. reflexivity. Qed.

Lemma firstFree_mono (n m : nat) (set : gset str) (idx r : number) :
  (n <= m)%nat ->
  firstFree n set formattedDate extLower idx = Some r ->
  firstFree m set formattedDate extLower idx = Some r.
Proof.
  revert m idx. induction n as [|n IH]; intros m idx Hle; [discriminate|].
  destruct m as [|m]; [lia|]. simpl.
  destruct (bool_decide _); [|trivial]. apply IH. lia.
Qed.

(** The loop only looks at the candidates from its index onwards. *)
Lemma firstFree_ext (n : nat) (set set' : gset str) (z : Z) :
  0 <= z -> z + Z.of_nat n < 2 ^ 53 ->
  (forall j, z <= j < z + Z.of_nat n -> cand (Fin j) ∈ set <-> cand (Fin j) ∈ set') ->
  firstFree n set formattedDate extLower (Fin z)
  = firstFree n set' formattedDate extLower (Fin z).
Proof.
  revert z. induction n as [|n IH]; intros z H0 H1 Hext; [reflexivity|].
  cbn [firstFree].
  rewrite (bool_decide_ext (cand (Fin z) ∈ set) (cand (Fin z) ∈ set')
             (Hext z ltac:(lia))).
  destruct (bool_decide _); [|reflexivity].
  rewrite add1_exact by lia. apply IH; [lia|lia|].
  intros j Hj. apply Hext. lia.
Qed.

(** From a non-negative index the loop finds the first free candidate
    after at most [size set] retries. *)
Lemma firstFree_nonneg (n : nat) : forall (set : gset str) (z : Z),
  size set = n ->
  0 <= z -> z + Z.of_nat n + 1 < 2 ^ 53 ->
  exists i, firstFree (S n) set formattedDate extLower (Fin z) = Some (Fin i)
    /\ z <= i <= z + Z.of_nat n
    /\ (cand (Fin i) ∉ set)
    /\ forall j, z <= j < i -> cand (Fin j) ∈ set.
Proof.
  induction n as [|n IH]; intros set z Hsize H0 H1.
  - exists z. apply size_empty_inv in Hsize. apply leibniz_equiv in Hsize.
    subst set. rewrite firstFree_S, bool_decide_eq_false_2 by set_solver.
    repeat split; [lia|lia|set_solver|intros; lia].
  - rewrite firstFree_S.
    destruct (bool_decide (cand (Fin z) ∈ set)) eqn:Hin.
    2:{ apply bool_decide_eq_false in Hin. exists z.
        repeat split; [lia|lia|assumption|intros; lia]. }
    apply bool_decide_eq_true in Hin.
    rewrite add1_exact by lia.
    set (set' := set ∖ {[cand (Fin z)]}).
    assert (Hsize' : size set' = n).
    { unfold set'. rewrite size_difference by set_solver.
      rewrite size_singleton. lia. }
    destruct (IH set' (z + 1) Hsize' ltac:(lia) ltac:(lia))
      as (i & Hi & Hrange & Hfree & Hbelow).
    assert (Hother : forall j, z + 1 <= j < z + 1 + Z.of_nat (S n) ->
              cand (Fin j) ∈ set <-> cand (Fin j) ∈ set').
    { intros j Hj. unfold set'. rewrite elem_of_difference, elem_of_singleton.
      split; [|tauto]. intros Hj'. split; [assumption|].
      intros Heq. apply candidate_inj in Heq; lia. }
    exists i. rewrite (firstFree_ext (S n) set set' (z + 1)) by (assumption || lia).
    repeat split; [assumption|lia|lia| |].
    + intros Hi'. apply Hfree. apply Hother; [lia|assumption].
    + intros j Hj. destruct (Z.eq_dec j z) as [->|Hne]; [assumption|].
      apply (Hother j ltac:(lia)). apply Hbelow. lia.
Qed.

(** While the index is negative the candidate is the name without a
    suffix. *)
Lemma firstFree_negative (k : nat) : forall (n : nat) (set : gset str) (z : Z),
  Z.of_nat k = - z -> - 2 ^ 53 <= z ->
  formattedDate ++ extLower ∈ set ->
  firstFree (k + n) set formattedDate extLower (Fin z)
  = firstFree n set formattedDate extLower (Fin 0).
Proof.
  induction k as [|k IH]; intros n set z Hk Hz Hin.
  - replace z with 0 by lia. reflexivity.
  - cbn [Nat.add]. rewrite firstFree_S, candidate_neg by lia.
    rewrite bool_decide_eq_true_2 by assumption.
    rewrite add1_exact by lia. apply IH; [lia|lia|assumption].
Qed.

(** The loop of [#nextAvailableIndex] in the range of the safe integers. *)
Lemma firstFree_terminates (set : gset str) (s : Z) (fuel : nat) :
  - 2 ^ 53 <= s ->
  Z.max s 0 + Z.of_nat (size set) + 1 < 2 ^ 53 ->
  (Z.to_nat (- s) + size set + 1 <= fuel)%nat ->
  exists i, firstFree fuel set formattedDate extLower (Fin s) = Some (Fin i)
    /\ s <= i
    /\ (cand (Fin i) ∉ set)
    /\ forall j, s <= j < i -> cand (Fin j) ∈ set.
Proof.
  intros Hlo Hhi Hfuel.
  destruct (Z.ltb_spec s 0) as [Hneg|Hpos].
  - destruct (decide (formattedDate ++ extLower ∈ set)) as [Hin|Hout].
    + destruct (firstFree_nonneg (size set) set 0 eq_refl ltac:(lia) ltac:(lia))
        as (i & Hi & Hrange & Hfree & Hbelow).
      exists i. split; [|split; [lia|split; [assumption|]]].
      * apply (firstFree_mono (Z.to_nat (- s) + S (size set))); [lia|].
        rewrite (firstFree_negative (Z.to_nat (- s))) by (assumption || lia).
        assumption.
      * intros j Hj. destruct (Z.ltb_spec j 0).
        -- rewrite candidate_neg by assumption. assumption.
        -- apply Hbelow. lia.
    + exists s. destruct fuel as [|fuel]; [lia|].
      rewrite firstFree_S, candidate_neg by assumption.
      rewrite bool_decide_eq_false_2 by assumption.
      repeat split; [lia|assumption|intros; lia].
  - destruct (firstFree_nonneg (size set) set s eq_refl ltac:(lia) ltac:(lia))
      as (i & Hi & Hrange & Hfree & Hbelow).
    exists i. split; [|split; [lia|split; assumption]].
    apply (firstFree_mono (S (size set))); [lia|assumption].
Qed.

End NextAvailableIndex.

Section ResolvedDates.

Import Js DateFns Path MediaDateTime.

Lemma parseInt_epoch (d : str) :
  length d = 13%nat -> forallb isDigit d = true ->
  startsWith (lit "15") d = true ->
  exists t, Num.parseInt d = Some (Num.Fin t) /\ (15 * 10 ^ 11 <= t < 16 * 10 ^ 11)%Z.
Proof.
  intros Hl Hd Hs. pose proof (epoch_value d Hl Hd Hs) as Hv.
  exists (Num.digitsValue d). split; [|exact Hv].
  unfold Num.parseInt. destruct d as [|c d']; [discriminate|].
  assert (Hc : isDigit c = true) by (simpl in Hd; apply andb_prop in Hd; tauto).
  rewrite Hc, takeWhile_all by exact Hd. f_equal. apply ofZ_exact. lia.
Qed.

Lemma getDateFromUnixTimestamp_printable (file : ParsedPath) (f : Fields) :
  getDateFromUnixTimestamp file = Ret (Some (Valid f)) -> printable f.
Proof.
  unfold getDateFromUnixTimestamp.
  destruct (baseOf file) as [b|]; [|discriminate]. rewrite bind_ret.
  destruct (Re.matchEpoch b) as [m|] eqn:Hm; [|discriminate].
  destruct (1 <? Re.length m)%nat; [discriminate|].
  apply searchFrom_at in Hm as [y Hy]. unfold Re.epochAt in Hy.
  destruct (_ && _) eqn:Hc in Hy; [|discriminate]. injection Hy as Hy.
  apply andb_prop in Hc as [Hc Hs]. apply andb_prop in Hc as [Hl Hd].
  apply Nat.eqb_eq in Hl. rewrite <- Hy.
  unfold substring0. rewrite (take_ge (take 13 y)) by lia.
  destruct (parseInt_epoch _ Hl Hd Hs) as (t & -> & Ht).
  intros [= H]. eapply ofNumber_epoch_printable; eassumption.
Qed.

(** Every valid date that the resolver returns is printed in the
    canonical shape. *)
Lemma getDate_printable (w : World) (p : str) (f : Fields) :
  getDate w p = Ret (Some (Valid f)) -> printable f.
Proof.
  unfold getDate.
  destruct (isCorrectFileName (parse p)) as [[|]|]; try discriminate.
  rewrite bind_ret. destruct (getExif w p) as [m|]; [|discriminate].
  rewrite bind_ret. unfold getDateFromExif.
  destruct (match m !! lit "CreateDate" with
            | Some v => head (splitChar "." v)
            | None => None
            end) as [ds|].
  { intros [= H]. exact (parse_printable _ _ _ H). }
  unfold getDateFromFileName.
  destruct (baseOf (parse p)) as [b|] eqn:Hb; [|discriminate]. rewrite bind_ret.
  assert (Hunix : (dateFromUnixTimestamp ← getDateFromUnixTimestamp (parse p);
                   match dateFromUnixTimestamp with
                   | Some d => Ret (Some d)
                   | None => Ret None
                   end) = Ret (Some (Valid f)) -> printable f).
  { destruct (getDateFromUnixTimestamp (parse p)) as [[d|]|] eqn:Hu; try discriminate.
    rewrite bind_ret. intros [= ->].
    exact (getDateFromUnixTimestamp_printable _ _ Hu). }
  destruct (Re.matchStamp b) as [ms|]; [|rewrite bind_ret; exact Hunix].
  destruct (1 <? Re.length ms)%nat; rewrite bind_ret; [exact Hunix|].
  intros [= H]. exact (parse_printable _ _ _ H).
Qed.

End ResolvedDates.

Section Termination.

Import Num Path MediaDateTime.

(** Membership in a closed set, decided by computation. *)
Lemma elem_of_by_compute (x : str) (set : gset str) :
  bool_decide (x ∈ set) = true -> x ∈ set.
Proof. apply bool_decide_eq_true_1. Qed.

Lemma replace_keyOf_none (w : World) (fuel : nat) (st : State) (p : str) :
  Spec.keyOf w p = None -> replace w fuel st p = Some (Ret p, st).
Proof.
  unfold Spec.keyOf, replace.
  destruct (tryCatch _ None) as [d|]; [|reflexivity].
  destruct (DateFns.format d); [discriminate|reflexivity].
Qed.

Lemma replace_keyOf_some (w : World) (fuel : nat) (st : State) (p d T e : str) :
  Spec.keyOf w p = Some (d, T, e) ->
  d = dir (parse p) /\ e = Js.toLowerCase (ext (parse p))
  /\ replace w fuel st p
     = match assignName w fuel st (parse p) T with
       | Some (q, st') => Some (Ret q, st')
       | None => None
       end.
Proof.
  unfold Spec.keyOf, replace.
  destruct (tryCatch _ None) as [date|]; [|discriminate].
  destruct (DateFns.format date); [|discriminate].
  intros [= <- <- <-]. repeat split.
Qed.

(** An index that [+ 1] does not change, with its candidate taken: the loop
    never ends. *)
Lemma firstFree_stuck (set : gset str) (T e : str) (idx : number) :
  add1 idx = idx -> candidate T e idx ∈ set ->
  forall fuel, firstFree fuel set T e idx = None.
Proof.
  intros Hfix Hin fuel. induction fuel as [|fuel IH]; [reflexivity|].
  rewrite firstFree_S, bool_decide_eq_true_2, Hfix by assumption. exact IH.
Qed.

Lemma nextAvailableIndex_stuck (w : World) (dir T e : str) (idx : number) (st : State) :
  add1 idx = idx ->
  candidate T e idx ∈ (getDirCache w dir st).1 ->
  forall fuel, nextAvailableIndex w fuel dir T e idx st = None.
Proof.
  intros Hfix Hin fuel. unfold nextAvailableIndex.
  destruct (getDirCache w dir st) as [set st1]. simpl in Hin.
  rewrite (firstFree_stuck set T e idx Hfix Hin). reflexivity.
Qed.

(** C9, as amended: in the range of the safe integers the retry loop ends.
    With the start index [s >= -2^53], and [max s 0] plus the size of the
    known-name set below [2^53 - 1], enough fuel makes
    [#nextAvailableIndex] return the first index from [s] on whose
    candidate is not in the set. *)
Theorem nextAvailableIndex_terminates
    (w : World) (dir T e : str) (s : Z) (st : State) (fuel : nat) :
  (- 2 ^ 53 <= s)%Z ->
  (Z.max s 0 + Z.of_nat (size (getDirCache w dir st).1) + 1 < 2 ^ 53)%Z ->
  (Z.to_nat (- s) + size (getDirCache w dir st).1 + 1 <= fuel)%nat ->
  exists i : Z,
    nextAvailableIndex w fuel dir T e (Fin s) st
      = Some (Fin i, (getDirCache w dir st).2)
    /\ (s <= i)%Z
    /\ (candidate T e (Fin i) ∉ (getDirCache w dir st).1)
    /\ forall j : Z, (s <= j < i)%Z -> candidate T e (Fin j) ∈ (getDirCache w dir st).1.
Proof.
  intros Hlo Hhi Hfuel. unfold nextAvailableIndex.
  destruct (getDirCache w dir st) as [set st1]. simpl in *.
  destruct (firstFree_terminates T e set s fuel Hlo Hhi Hfuel)
    as (i & Hi & Hle & Hfree & Hbelow).
  exists i. rewrite Hi. auto.
Qed.

Lemma nextAvailableIndex_terminates_witness :
  exists i : Z,
    nextAvailableIndex (Ex.world2020 [Ex.stamp2020 ++ lit ".jpg"]) 3
      (lit "/d") Ex.stamp2020 (lit ".jpg") (Fin (-1)) init
      = Some (Fin i, (getDirCache (Ex.world2020 [Ex.stamp2020 ++ lit ".jpg"])
                        (lit "/d") init).2)
    /\ (-1 <= i)%Z
    /\ (candidate Ex.stamp2020 (lit ".jpg") (Fin i)
          ∉ (getDirCache (Ex.world2020 [Ex.stamp2020 ++ lit ".jpg"]) (lit "/d") init).1)
    /\ forall j : Z, (-1 <= j < i)%Z ->
         candidate Ex.stamp2020 (lit ".jpg") (Fin j)
           ∈ (getDirCache (Ex.world2020 [Ex.stamp2020 ++ lit ".jpg"]) (lit "/d") init).1.
Proof.
  apply (nextAvailableIndex_terminates
           (Ex.world2020 [Ex.stamp2020 ++ lit ".jpg"]) (lit "/d")
           Ex.stamp2020 (lit ".jpg") (-1) init 3).
  - vm_compute. discriminate.
  - vm_compute. reflexivity.
  - vm_compute. lia.
Defined.

(** C9, as stated, fails beyond the safe integers: [2^53 + 1] is [2^53]
    again.  A directory that holds a file with the suffix 2^53 seeds the
    index with 2^53, whose candidate is that very file, and the loop of
    [#nextAvailableIndex] never returns; nor does [replace]. *)
Lemma nextAvailableIndex_counterexample :
  computeInitialIndex (Ex.world2020 Ex.hugeSuffix) (lit "/d") Ex.stamp2020 (lit ".jpg") init
    = (Fin (2 ^ 53), (getDirCache (Ex.world2020 Ex.hugeSuffix) (lit "/d") init).2)
  /\ (forall fuel,
        nextAvailableIndex (Ex.world2020 Ex.hugeSuffix) fuel (lit "/d")
          Ex.stamp2020 (lit ".jpg") (Fin (2 ^ 53)) init = None)
  /\ (forall fuel,
        replace (Ex.world2020 Ex.hugeSuffix) fuel init (lit "/d/a.jpg") = None).
Proof.
  split; [vm_compute; reflexivity|]. split.
  - apply nextAvailableIndex_stuck.
    + vm_compute. reflexivity.
    + apply elem_of_by_compute. vm_compute. reflexivity.
  - intros fuel.
    assert (Hk : Spec.keyOf (Ex.world2020 Ex.hugeSuffix) (lit "/d/a.jpg")
                 = Some (lit "/d", Ex.stamp2020, lit ".jpg"))
      by (vm_compute; reflexivity).
    destruct (replace_keyOf_some _ fuel init _ _ _ _ Hk) as (_ & _ & ->).
    unfold assignName. rewrite nextAvailableIndex_stuck; [reflexivity| |].
    + vm_compute. reflexivity.
    + apply elem_of_by_compute. vm_compute. reflexivity.
Qed.

End Termination.

Section Engine.

Import Num Path MediaDateTime.

Lemma getDirCache_fst (w : World) (d : str) (st : State) :
  (getDirCache w d st).1 = Spec.knownNames w st d.
Proof.
  unfold getDirCache, Spec.knownNames, Spec.listing.
  destruct (dirCache st !! d); [reflexivity|].
  destruct (readdirSync w d); reflexivity.
Qed.

Lemma getDirCache_snd (w : World) (d : str) (st : State) :
  (getDirCache w d st).2
  = mkState (indexMap st)
      (<[d := Spec.knownNames w st d]> (dirCache st))
      (readdirLog st ++ match dirCache st !! d with None => [d] | Some _ => [] end).
Proof.
  unfold getDirCache, Spec.knownNames, Spec.listing.
  destruct (dirCache st !! d) eqn:H.
  - rewrite insert_id by assumption. rewrite app_nil_r. destruct st; reflexivity.
  - destruct (readdirSync w d); reflexivity.
Qed.

Lemma getDirCache_hit (w : World) (d : str) (st : State) (K : gset str) :
  dirCache st !! d = Some K -> getDirCache w d st = (K, st).
Proof. intros H. unfold getDirCache. rewrite H. reflexivity. Qed.

Lemma getDirCache_eq (w : World) (d : str) (st : State) :
  getDirCache w d st = ((getDirCache w d st).1, (getDirCache w d st).2).
Proof. destruct (getDirCache w d st); reflexivity. Qed.

Lemma candidate_indexStr (T e : str) (idx : number) :
  candidate T e idx = T ++ indexStr idx ++ e.
Proof. unfold candidate, indexStr. destruct (ltZero idx); reflexivity. Qed.

Lemma firstFree_free (fuel : nat) (set : gset str) (T e : str) (start idx : number) :
  firstFree fuel set T e start = Some idx -> candidate T e idx ∉ set.
Proof.
  revert start. induction fuel as [|fuel IH]; intros start; [discriminate|].
  simpl. destruct (bool_decide _) eqn:H.
  - apply IH.
  - intros [= <-]. apply bool_decide_eq_false in H. exact H.
Qed.

(** One renaming, written out: the start index comes from [#indexMap] or,
    for a new key, from the names of the directory; the loop finds the
    index; the path is built and both caches are updated. *)
Lemma assignName_eq (w : World) (fuel : nat) (st : State) (file : ParsedPath) (T : str) :
  assignName w fuel st file T
  = match firstFree fuel (Spec.knownNames w st (dir file)) T (Js.toLowerCase (ext file))
            (match indexMap st !! join [dir file; T ++ Js.toLowerCase (ext file)] with
             | Some v => v
             | None => set_fold (suffixStep T (Js.toLowerCase (ext file))) (Fin (-1))
                         (Spec.knownNames w st (dir file))
             end) with
    | None => None
    | Some idx =>
        Some (join [dir file; T ++ indexStr idx ++ ext file],
              mkState
                (<[join [dir file; T ++ Js.toLowerCase (ext file)] := idx]> (indexMap st))
                (<[dir file := Spec.knownNames w st (dir file)
                                ∪ {[T ++ indexStr idx ++ Js.toLowerCase (ext file)]}]>
                   (dirCache st))
                (readdirLog st ++ match dirCache st !! dir file with
                                  | None => [dir file]
                                  | Some _ => []
                                  end))
    end.
Proof.
  unfold assignName.
  set (e := Js.toLowerCase (ext file)). set (d := dir file).
  set (bk := join [d; T ++ e]). set (K := Spec.knownNames w st d).
  assert (Hload : getDirCache w d st
                  = (K, mkState (indexMap st) (<[d := K]> (dirCache st))
                          (readdirLog st ++ match dirCache st !! d with
                                            | None => [d] | Some _ => [] end))).
  { rewrite (getDirCache_eq w d st), getDirCache_fst, getDirCache_snd. reflexivity. }
  destruct (indexMap st !! bk) as [v|] eqn:Hbk.
  - rewrite Hbk. change (default (Fin (-1)) (Some v)) with v.
    unfold nextAvailableIndex. rewrite Hload.
    destruct (firstFree fuel K T e v) as [idx|]; [|reflexivity].
    unfold addToDirCache.
    rewrite (getDirCache_hit w d _ K) by apply lookup_insert_eq.
    cbn. rewrite insert_insert_eq. reflexivity.
  - unfold computeInitialIndex. rewrite Hload.
    set (i0 := set_fold (suffixStep T e) (Fin (-1)) K).
    cbn [setIndex indexMap dirCache readdirLog]. rewrite lookup_insert_eq.
    change (default (Fin (-1)) (Some i0)) with i0. unfold nextAvailableIndex.
    rewrite (getDirCache_hit w d _ K) by apply lookup_insert_eq.
    destruct (firstFree fuel K T e i0) as [idx|]; [|reflexivity].
    unfold addToDirCache.
    rewrite (getDirCache_hit w d _ K) by apply lookup_insert_eq.
    cbn. rewrite !insert_insert_eq. reflexivity.
Qed.

(** What one renaming does to the engine: the index found by the loop, the
    path returned, and the two caches afterwards. *)
Lemma assignName_spec (w : World) (fuel : nat) (st st' : State)
    (file : ParsedPath) (T q : str) :
  assignName w fuel st file T = Some (q, st') ->
  exists idx start : number,
    firstFree fuel (Spec.knownNames w st (dir file)) T
      (Js.toLowerCase (ext file)) start = Some idx
    /\ (forall v, indexMap st !! join [dir file; T ++ Js.toLowerCase (ext file)] = Some v
               -> start = v)
    /\ (indexMap st !! join [dir file; T ++ Js.toLowerCase (ext file)] = None
        -> start = set_fold (suffixStep T (Js.toLowerCase (ext file))) (Fin (-1))
                     (Spec.knownNames w st (dir file)))
    /\ q = join [dir file; T ++ indexStr idx ++ ext file]
    /\ indexMap st' = <[join [dir file; T ++ Js.toLowerCase (ext file)] := idx]> (indexMap st)
    /\ dirCache st'
       = <[dir file := Spec.knownNames w st (dir file)
                        ∪ {[T ++ indexStr idx ++ Js.toLowerCase (ext file)]}]> (dirCache st)
    /\ readdirLog st'
       = readdirLog st ++ match dirCache st !! dir file with
                          | None => [dir file]
                          | Some _ => []
                          end.
Proof.
  rewrite assignName_eq.
  set (start := match indexMap st !! _ with Some v => v | None => _ end).
  destruct (firstFree _ _ _ _ start) as [idx|] eqn:Hff; [|discriminate].
  intros [= <- <-]. exists idx, start. cbn.
  repeat split; try assumption.
  - intros v Hv. unfold start. rewrite Hv. reflexivity.
  - intros Hv. unfold start. rewrite Hv. reflexivity.
Qed.

Lemma assignName_listedOnce (w : World) (fuel : nat) (st st' : State)
    (file : ParsedPath) (T q : str) :
  assignName w fuel st file T = Some (q, st') ->
  Spec.listedOnce st -> Spec.listedOnce st'.
Proof.
  intros H [Hnd Hin].
  destruct (assignName_spec _ _ _ _ _ _ _ H)
    as (idx & start & _ & _ & _ & _ & _ & Hcache & Hlog).
  split.
  - rewrite Hlog. destruct (dirCache st !! dir file) eqn:Hd.
    + rewrite app_nil_r. exact Hnd.
    + apply NoDup_app. split; [exact Hnd|]. split; [|apply NoDup_singleton].
      intros x Hx ->%list_elem_of_singleton.
      destruct (Hin _ Hx) as [? Hs]. congruence.
  - intros x Hx. rewrite Hcache.
    destruct (decide (x = dir file)) as [->|Hne].
    + rewrite lookup_insert_eq. eauto.
    + rewrite lookup_insert_ne by congruence. apply Hin.
      rewrite Hlog in Hx. apply elem_of_app in Hx as [Hx|Hx]; [exact Hx|].
      destruct (dirCache st !! dir file).
      * inversion Hx.
      * apply list_elem_of_singleton in Hx. contradiction.
Qed.

Lemma replace_listedOnce (w : World) (fuel : nat) (st st' : State)
    (p : str) (r : result str) :
  replace w fuel st p = Some (r, st') ->
  Spec.listedOnce st -> Spec.listedOnce st'.
Proof.
  unfold replace.
  destruct (tryCatch _ None) as [d|]; [|intros [= <- <-]; trivial].
  destruct (DateFns.format d) as [T|e]; [|intros [= <- <-]; trivial].
  destruct (assignName w fuel st (parse p) T) as [[q s]|] eqn:Ha; [|discriminate].
  intros [= <- <-]. eapply assignName_listedOnce. exact Ha.
Qed.

Lemma run_listedOnce (w : World) (fuel : nat) (paths : list str) :
  forall (st st' : State) (outs : list (result str)),
  run w fuel st paths = Some (outs, st') ->
  Spec.listedOnce st -> Spec.listedOnce st'.
Proof.
  induction paths as [|p ps IH]; intros st st' outs; simpl.
  - intros [= <- <-]. trivial.
  - destruct (replace w fuel st p) as [[r s1]|] eqn:Hr; [|discriminate].
    destruct (run w fuel s1 ps) as [[os s2]|] eqn:Hrun; [|discriminate].
    intros [= <- <-] Hst. eapply IH; [exact Hrun|].
    eapply replace_listedOnce; eassumption.
Qed.

Lemma NoDup_filter_eq_length (d : str) (l : list str) :
  NoDup l -> (length (filter (fun x => x = d) l) <= 1)%nat.
Proof.
  induction 1 as [|x l Hx Hnd IH]; [simpl; lia|].
  rewrite filter_cons. destruct (decide (x = d)) as [->|Hne]; [|exact IH].
  simpl. assert (Hnil : filter (fun x => x = d) l = []).
  { destruct (filter (fun x => x = d) l) as [|y k] eqn:Hf; [reflexivity|].
    assert (Hy : y ∈ filter (fun x => x = d) l) by (rewrite Hf; left).
    apply list_elem_of_filter in Hy as [-> Hy]. contradiction. }
  rewrite Hnil. simpl. lia.
Qed.

(** C8: in a run of any length a directory is listed at most once; once it
    has been listed, every later access gets the cached set and reads
    nothing from the file system. *)
Theorem readdir_at_most_once (w : World) (fuel : nat) (paths : list str)
    (outs : list (result str)) (st' : State) (d : str) :
  run w fuel init paths = Some (outs, st') ->
  (length (filter (fun x => x = d) (readdirLog st')) <= 1)%nat
  /\ (d ∈ readdirLog st' ->
      getDirCache w d st' = (Spec.knownNames w st' d, st')).
Proof.
  intros Hrun.
  assert (Hinit : Spec.listedOnce init).
  { split; [apply NoDup_nil_2|]. intros x Hx. inversion Hx. }
  destruct (run_listedOnce _ _ _ _ _ _ Hrun Hinit) as [Hnd Hin].
  split; [apply NoDup_filter_eq_length; exact Hnd|].
  intros Hd. destruct (Hin _ Hd) as [K HK].
  unfold Spec.knownNames. rewrite HK. apply getDirCache_hit. exact HK.
Qed.

Lemma readdir_at_most_once_witness :
  (length (filter (fun x => x = lit "/d")
     (readdirLog (Ex.finalState
        (run (Ex.world2020 []) 2 init [lit "/d/a.jpg"; lit "/d/b.jpg"])))) <= 1)%nat
  /\ (lit "/d" ∈ readdirLog (Ex.finalState
         (run (Ex.world2020 []) 2 init [lit "/d/a.jpg"; lit "/d/b.jpg"])) ->
      getDirCache (Ex.world2020 []) (lit "/d")
        (Ex.finalState (run (Ex.world2020 []) 2 init [lit "/d/a.jpg"; lit "/d/b.jpg"]))
      = (Spec.knownNames (Ex.world2020 [])
           (Ex.finalState (run (Ex.world2020 []) 2 init [lit "/d/a.jpg"; lit "/d/b.jpg"]))
           (lit "/d"),
         Ex.finalState (run (Ex.world2020 []) 2 init [lit "/d/a.jpg"; lit "/d/b.jpg"]))).
Proof.
  apply (readdir_at_most_once (Ex.world2020 []) 2 [lit "/d/a.jpg"; lit "/d/b.jpg"]
           (Ex.results (run (Ex.world2020 []) 2 init [lit "/d/a.jpg"; lit "/d/b.jpg"]))).
  vm_compute. reflexivity.
Defined.

End Engine.

Section ErrorHandling.

Import Path MediaDateTime.

(** What [replace] of [index.ts] does with exceptions: whatever the
    resolver or [format] throws is caught, the call then returns the input
    path and leaves the caches as they were, in particular when exiftool
    cannot be run.  When a date was resolved and formatted, the call
    returns a path as soon as the retry loop ends, which it does in the
    range of the safe integers. *)
Lemma replace_catches (w : World) (fuel : nat) (st : State) (p : str) :
  (forall r st', replace w fuel st p = Some (r, st') -> exists q, r = Ret q)
  /\ (forall e,
        (if isImage (parse p) || isVideo (parse p) then getDate w p else Ret None)
          = Throw e ->
        replace w fuel st p = Some (Ret p, st))
  /\ (forall d e,
        (if isImage (parse p) || isVideo (parse p) then getDate w p else Ret None)
          = Ret (Some d) ->
        DateFns.format d = Throw e ->
        replace w fuel st p = Some (Ret p, st))
  /\ (exiftool w p = None -> replace w fuel st p = Some (Ret p, st))
  /\ (forall d T s,
        (if isImage (parse p) || isVideo (parse p) then getDate w p else Ret None)
          = Ret (Some d) ->
        DateFns.format d = Ret T ->
        Spec.startIndex w st (parse p) T = Num.Fin s ->
        (- 2 ^ 53 <= s)%Z ->
        (Z.max s 0 + Z.of_nat (size (Spec.knownNames w st (dir (parse p)))) + 1
         < 2 ^ 53)%Z ->
        (Z.to_nat (- s) + size (Spec.knownNames w st (dir (parse p))) + 1 <= fuel)%nat ->
        exists q st', replace w fuel st p = Some (Ret q, st')).
Proof.
  split; [|split; [|split; [|split]]].
  - unfold replace. intros r st'.
    destruct (tryCatch _ None) as [d|]; [|intros [= <- <-]; eauto].
    destruct (DateFns.format d) as [fd|e]; [|intros [= <- <-]; eauto].
    destruct (assignName _ _ _ _ _) as [[q s]|]; [|discriminate].
    intros [= <- <-]; eauto.
  - intros e H. unfold replace. rewrite H. reflexivity.
  - intros d e H Hf. unfold replace. rewrite H. simpl. rewrite Hf. reflexivity.
  - intros H. unfold replace.
    destruct (isImage (parse p) || isVideo (parse p)); [|reflexivity].
    unfold getDate, getExif. rewrite H.
    destruct (isCorrectFileName (parse p)) as [[|]|e]; reflexivity.
  - intros d T s H Hf Hs Hlo Hhi Hfuel. unfold replace. rewrite H. cbn [tryCatch].
    rewrite Hf, assignName_eq. fold (Spec.startIndex w st (parse p) T). rewrite Hs.
    destruct (firstFree_terminates T (Js.toLowerCase (ext (parse p)))
                (Spec.knownNames w st (dir (parse p))) s fuel Hlo Hhi Hfuel)
      as (i & -> & _). eauto.
Qed.

(** In [src/main.ts] the file name is asked first and [format] is called
    outside any [try]: a match of the timestamp expression that is no
    calendar date makes [replace] throw. *)
Lemma MainTs_replace_invalid_stamp (w : World) (im : gmap str Num.number)
    (p b : str) (m : Re.MatchArray) :
  (MainTs.isImage (parse p) || MainTs.isVideo (parse p)) = true ->
  baseOf (parse p) = Ret b ->
  Re.matchStamp b = Some m ->
  DateFns.parse (Js.substring0 15 (Re.matched m)) DateFns.filePattern
    = DateFns.Invalid ->
  MainTs.replace w im p = (Throw RangeError, im).
Proof.
  intros Hmedia Hb Hm Hinv.
  unfold MainTs.replace, MainTs.getDate, MainTs.getDateFromFileName, getDateFromFileName.
  rewrite Hmedia, Hb, bind_ret, Hm.
  rewrite (searchFrom_length _ _ _ _ Hm). cbn [Nat.ltb Nat.leb]. rewrite Hinv.
  reflexivity.
Qed.

(** C2 holds of [replace] of [index.ts] and fails of [replace] of the older
    [src/main.ts].  In [index.ts] [replace] never throws: whatever the
    resolver or [format] throws is caught and the call returns the input
    path, the caches left as they were, in particular when exiftool cannot
    be run; when a date was resolved and formatted, the call returns a
    path as soon as the retry loop ends.  In [src/main.ts] [format] is
    called outside any [try]: for a media file whose name holds a match of
    [/\d{8}_\d{6,}/] that is no calendar date, as
    [/d/IMG_20201301_010203.jpg], [replace] throws a [RangeError] to its
    caller, whatever exiftool prints and whatever was renamed before;
    [index.ts] returns that path as it is when exiftool prints no creation
    date. *)
Theorem replace_throws_in_main_ts :
  (forall (w : World) (fuel : nat) (st : State) (p : str),
     (forall r st', replace w fuel st p = Some (r, st') -> exists q, r = Ret q)
     /\ (forall e,
           (if isImage (parse p) || isVideo (parse p) then getDate w p else Ret None)
             = Throw e ->
           replace w fuel st p = Some (Ret p, st))
     /\ (forall d e,
           (if isImage (parse p) || isVideo (parse p) then getDate w p else Ret None)
             = Ret (Some d) ->
           DateFns.format d = Throw e ->
           replace w fuel st p = Some (Ret p, st))
     /\ (exiftool w p = None -> replace w fuel st p = Some (Ret p, st))
     /\ (forall d T s,
           (if isImage (parse p) || isVideo (parse p) then getDate w p else Ret None)
             = Ret (Some d) ->
           DateFns.format d = Ret T ->
           Spec.startIndex w st (parse p) T = Num.Fin s ->
           (- 2 ^ 53 <= s)%Z ->
           (Z.max s 0 + Z.of_nat (size (Spec.knownNames w st (dir (parse p)))) + 1
            < 2 ^ 53)%Z ->
           (Z.to_nat (- s) + size (Spec.knownNames w st (dir (parse p))) + 1
            <= fuel)%nat ->
           exists q st', replace w fuel st p = Some (Ret q, st')))
  /\ (forall (w : World) (im : gmap str Num.number) (p b : str) (m : Re.MatchArray),
        (MainTs.isImage (parse p) || MainTs.isVideo (parse p)) = true ->
        baseOf (parse p) = Ret b ->
        Re.matchStamp b = Some m ->
        DateFns.parse (Js.substring0 15 (Re.matched m)) DateFns.filePattern
          = DateFns.Invalid ->
        MainTs.replace w im p = (Throw RangeError, im))
  /\ (forall (w : World) (im : gmap str Num.number),
        MainTs.replace w im Ex.month13 = (Throw RangeError, im))
  /\ (forall (fuel : nat) (st : State),
        replace (Ex.noDate []) fuel st Ex.month13 = Some (Ret Ex.month13, st)).
Proof.
  split; [exact replace_catches|]. split; [exact MainTs_replace_invalid_stamp|].
  split.
  - intros w im.
    apply (MainTs_replace_invalid_stamp w im Ex.month13 (lit "IMG_20201301_010203")
             (Re.mkMatch (lit "20201301_010203") [] 4)); reflexivity.
  - intros fuel st.
    apply (proj1 (proj2 (proj2 (replace_catches (Ex.noDate []) fuel st Ex.month13)))
             DateFns.Invalid RangeError); reflexivity.
Qed.

(** The older [src/main.ts] calls [format] outside any [try]: there a file
    name with month 13 makes [replace] throw. *)
Lemma MainTs_replace_throws :
  fst (MainTs.replace (Ex.noDate []) ∅ Ex.month13) = Throw RangeError.
Proof. vm_compute. reflexivity. Qed.

(** The older [src/main.ts] asks the file name before the metadata. *)
Lemma MainTs_getDate_file_name_first :
  MainTs.getDate (Ex.world (lit "2021:12:25 14:23:59") []) Ex.stamped
    = Ret (Some (DateFns.Valid (DateFns.mkFields 2020 1 1 1 2 3)))
  /\ getDate (Ex.world (lit "2021:12:25 14:23:59") []) Ex.stamped
    = Ret (Some (DateFns.Valid (DateFns.mkFields 2021 12 25 14 23 59))).
Proof. vm_compute. split; reflexivity. Qed.

End ErrorHandling.

Section Renaming.

Import Js DateFns Path MediaDateTime.

Lemma stampChar_not_slash (c : ascii) : stampChar c = true -> c <> slash.
Proof. intros H. apply numChar_not_slash, stampChar_numChar, H. Qed.

Lemma Forall_forallb (P : ascii -> bool) (x : str) :
  Forall (fun c => P c = true) x -> forallb P x = true.
Proof.
  induction 1 as [|c x Hc _ IH]; [reflexivity|]. simpl. rewrite Hc, IH. reflexivity.
Qed.

Lemma indexStr_not_slash (idx : Num.number) :
  Forall (fun c => c <> slash) (indexStr idx).
Proof.
  unfold indexStr. destruct (Num.ltZero idx); [constructor|].
  constructor; [discriminate|].
  destruct idx as [z|]; [|repeat constructor; discriminate].
  destruct (add1_Fin_cases z) as [[z' ->]| ->].
  - eapply Forall_impl; [apply toString_numChars|]. exact numChar_not_slash.
  - repeat constructor; discriminate.
Qed.

(** The name that a renaming emits is a plain file name. *)
Lemma emitted_plain (d : Date) (T x : str) (idx : Num.number) :
  format d = Ret T -> Forall (fun c => c <> slash) x ->
  Spec.plainName (T ++ indexStr idx ++ x).
Proof.
  intros HT Hx. pose proof (format_length d T HT) as Hl.
  pose proof (format_chars d T HT) as Hc.
  split.
  - repeat split; intros H; apply (f_equal (@length ascii)) in H;
      rewrite !length_app in H; simpl in H; lia.
  - repeat (apply Forall_app; split); [|apply indexStr_not_slash|exact Hx].
    eapply Forall_impl; [exact Hc|]. exact stampChar_not_slash.
Qed.

Lemma media_ext (file : ParsedPath) :
  (isImage file || isVideo file) = true -> ext file <> [].
Proof. intros H He. unfold isImage, isVideo in H. rewrite He in H. discriminate. Qed.

Lemma keyOf_inv (w : World) (p d T e : str) :
  Spec.keyOf w p = Some (d, T, e) ->
  (isImage (parse p) || isVideo (parse p)) = true
  /\ d = dir (parse p) /\ e = toLowerCase (ext (parse p))
  /\ exists f, getDate w p = Ret (Some (Valid f)) /\ format (Valid f) = Ret T.
Proof.
  unfold Spec.keyOf.
  destruct (isImage (parse p) || isVideo (parse p)); [|discriminate].
  destruct (getDate w p) as [[date|]|]; try discriminate. cbn [tryCatch].
  destruct date as [f|]; [|discriminate].
  destruct (format (Valid f)) as [T'|] eqn:Hf; [|discriminate].
  intros [= <- <- <-]. repeat split. exists f. split; [reflexivity|exact Hf].
Qed.

(** The path that a renaming returns, read again by [path.parse]. *)
Lemma emitted_parse (w : World) (p d T e : str) (idx : Num.number) :
  Spec.keyOf w p = Some (d, T, e) ->
  let n := T ++ indexStr idx ++ ext (parse p) in
  Spec.plainName n
  /\ join [d; n] = Spec.dirPrefix d ++ n
  /\ base (parse (join [d; n])) = n
  /\ ext (parse (join [d; n])) = ext (parse p)
  /\ dir (parse (join [d; n])) = Spec.dirOfPrefix (Spec.dirPrefix d).
Proof.
  intros Hk n. destruct (keyOf_inv _ _ _ _ _ Hk) as (Hmedia & -> & -> & f & Hg & HT).
  pose proof (media_ext _ Hmedia) as Hne.
  destruct (ext_shape p) as [He|(e' & He & Hnd & Hns)]; [contradiction|].
  assert (Hplain : Spec.plainName n).
  { unfold n. apply (emitted_plain (Valid f)); [exact HT|].
    rewrite He. constructor; [discriminate|exact Hns]. }
  split; [exact Hplain|].
  rewrite (join_dir_name _ _ Hplain). split; [reflexivity|].
  destruct (parse_prefix_name _ n Hplain (dirPrefix_shape (dir (parse p))))
    as (Hb & Hd & Hx & _).
  split; [exact Hb|]. split; [|exact Hd].
  rewrite Hx. unfold n. rewrite He.
  pose proof (format_length _ _ HT) as Hl. pose proof (format_chars _ _ HT) as Hc.
  destruct T as [|c T']; [simpl in Hl; lia|].
  rewrite app_assoc.
  change ((c :: T') ++ indexStr idx) with (c :: (T' ++ indexStr idx)).
  rewrite (splitExt_stem c (T' ++ indexStr idx) e'); [reflexivity| |exact Hnd].
  apply stampChar_not_dot. inversion Hc; assumption.
Qed.

Lemma normalDir_prefix (d : str) :
  Spec.normalDir d -> Spec.dirOfPrefix (Spec.dirPrefix d) = d.
Proof.
  intros [->|[->|[H|(d' & -> & H)]]]; [reflexivity|reflexivity| |].
  - destruct d as [|c d']; [reflexivity|].
    assert (Hc : c <> slash).
    { intros ->. simpl in H. destruct (decide (slash = slash)); [|contradiction].
      inversion H as [|? ? [Hne _] _]. contradiction. }
    unfold Spec.dirPrefix. rewrite (bool_decide_eq_false_2 (c = slash)) by exact Hc.
    cbn [negb app]. rewrite fold_pushSegment_plain by exact H.
    rewrite app_nil_r, rev_involutive.
    pose proof (splitChar_nonempty slash (c :: d')) as Hn.
    pose proof (join_splitChar slash (c :: d')) as Hj.
    destruct (splitChar slash (c :: d')) as [|s segs]; [contradiction|].
    rewrite Hj. cbn [app]. unfold Spec.dirOfPrefix.
    rewrite (bool_decide_eq_false_2 (c = slash)) by exact Hc.
    change (c :: d' ++ [slash]) with ((c :: d') ++ [slash]).
    apply removelast_last.
  - unfold Spec.dirPrefix. rewrite (bool_decide_eq_true_2 (slash = slash)) by reflexivity.
    cbn [negb splitChar]. destruct (decide (slash = slash)); [|contradiction].
    cbn [fold_left]. unfold pushSegment at 2.
    rewrite (bool_decide_eq_true_2 ([] = [])) by reflexivity. cbn [orb].
    rewrite fold_pushSegment_plain by exact H.
    rewrite app_nil_r, rev_involutive.
    pose proof (splitChar_nonempty slash d') as Hn.
    pose proof (join_splitChar slash d') as Hj.
    destruct (splitChar slash d') as [|s segs]; [contradiction|].
    rewrite Hj. cbn [app]. unfold Spec.dirOfPrefix.
    rewrite (bool_decide_eq_true_2 (slash = slash)) by reflexivity.
    rewrite removelast_last. destruct (d' ++ [slash]) eqn:E; [|reflexivity].
    destruct d'; discriminate.
Qed.

(** C10, as amended: [replace] returns the input path, or
    [path.join(dir, name)] for the directory component [dir] of the input
    and a new file name: only the last component changes.  The directory
    component of the result is the normalised form of [dir]; it is [dir]
    itself whenever [dir] is written in normal form. *)
Theorem replace_keeps_directory (w : World) (fuel : nat) (st st' : State) (p q : str) :
  replace w fuel st p = Some (Ret q, st') ->
  q = p
  \/ exists n, Spec.plainName n
       /\ q = join [dir (parse p); n]
       /\ base (parse q) = n
       /\ dir (parse q) = Spec.dirOfPrefix (Spec.dirPrefix (dir (parse p)))
       /\ (Spec.normalDir (dir (parse p)) -> dir (parse q) = dir (parse p)).
Proof.
  intros H. destruct (Spec.keyOf w p) as [[[d T] e]|] eqn:Hk.
  - right. destruct (replace_keyOf_some w fuel st _ _ _ _ Hk) as (Hd & He & Hr).
    rewrite Hr in H.
    destruct (assignName w fuel st (parse p) T) as [[q' s]|] eqn:Ha; [|discriminate].
    injection H as -> ->.
    destruct (assignName_spec _ _ _ _ _ _ _ Ha) as (idx & start & _ & _ & _ & -> & _).
    destruct (emitted_parse w p d T e idx Hk) as (Hplain & _ & Hb & _ & Hdir).
    subst d. eexists. split; [exact Hplain|]. split; [reflexivity|].
    split; [exact Hb|]. split; [exact Hdir|].
    intros Hn. rewrite Hdir. apply normalDir_prefix, Hn.
  - left. rewrite (replace_keyOf_none w fuel st p Hk) in H. congruence.
Qed.

Lemma replace_keeps_directory_witness :
  lit "/d/20240429_132557.jpg" = lit "/d/one.jpg"
  \/ exists n, Spec.plainName n
       /\ lit "/d/20240429_132557.jpg" = join [dir (parse (lit "/d/one.jpg")); n]
       /\ base (parse (lit "/d/20240429_132557.jpg")) = n
       /\ dir (parse (lit "/d/20240429_132557.jpg"))
          = Spec.dirOfPrefix (Spec.dirPrefix (dir (parse (lit "/d/one.jpg"))))
       /\ (Spec.normalDir (dir (parse (lit "/d/one.jpg"))) ->
           dir (parse (lit "/d/20240429_132557.jpg")) = dir (parse (lit "/d/one.jpg"))).
Proof.
  apply (replace_keeps_directory Ex.world2024 1 init
           (Ex.finalState (run Ex.world2024 1 init [lit "/d/one.jpg"]))
           (lit "/d/one.jpg") (lit "/d/20240429_132557.jpg")).
  vm_compute. reflexivity.
Defined.

(** C10, as stated, fails when the directory is not written in normal
    form: the file [./one.jpg] becomes [20240429_132557.jpg], whose
    directory component is empty and not [.]. *)
Lemma replace_keeps_directory_counterexample :
  Ex.outputs (run Ex.world2024 1 init [lit "./one.jpg"])
    = Some [Ret (lit "20240429_132557.jpg")]
  /\ dir (parse (lit "./one.jpg")) = lit "."
  /\ dir (parse (lit "20240429_132557.jpg")) = []
  /\ dir (parse (lit "20240429_132557.jpg")) <> dir (parse (lit "./one.jpg")).
Proof. vm_compute. repeat split; try reflexivity. discriminate. Qed.

Lemma beforeFirst_app (e' T r : str) :
  Forall (fun c => c <> dot) T ->
  beforeFirst (dot :: e') (T ++ r) = T ++ beforeFirst (dot :: e') r.
Proof.
  induction 1 as [|c T Hc _ IH]; [reflexivity|].
  cbn [app beforeFirst startsWith].
  destruct (decide (dot = c)) as [<-|_]; [contradiction|]. rewrite IH. reflexivity.
Qed.

Lemma stampAt_canonical (d8 d6 rest : str) :
  length d8 = 8%nat -> length d6 = 6%nat ->
  Forall (fun c => isDigit c = true) d8 ->
  Forall (fun c => isDigit c = true) d6 ->
  exists m, Re.stampAt (d8 ++ "_"%char :: d6 ++ rest) = Some m.
Proof.
  intros L8 L6 D8 D6. unfold Re.stampAt.
  assert (Htake : take 8 (d8 ++ "_"%char :: d6 ++ rest) = d8)
    by (rewrite <- L8; apply take_app_length).
  assert (Hdrop : drop 8 (d8 ++ "_"%char :: d6 ++ rest) = "_"%char :: d6 ++ rest)
    by (rewrite <- L8; apply drop_app_length).
  rewrite Htake, Hdrop, L8, (Forall_forallb _ _ D8). cbn [Nat.eqb andb].
  rewrite (bool_decide_eq_true_2 ("_"%char = "_"%char)) by reflexivity.
  rewrite takeWhile_app by (apply Forall_forallb, D6).
  rewrite length_app, L6. cbn. eauto.
Qed.

(** A file that carries an emitted name is already in the canonical form. *)
Lemma isCorrectFileName_emitted (file : ParsedPath) (f : Fields) (T i e' : str) :
  printable f -> format (Valid f) = Ret T ->
  base file = T ++ i ++ dot :: e' -> ext file = dot :: e' ->
  isCorrectFileName file = Ret true.
Proof.
  intros Hp HT Hb He.
  destruct (format_canonical f Hp) as (d8 & d6 & HT' & L8 & L6 & D8 & D6).
  rewrite HT in HT'. injection HT' as ->.
  pose proof (format_chars _ _ HT) as Hc.
  unfold isCorrectFileName, baseOf, split0. rewrite He, Hb, bind_ret.
  rewrite beforeFirst_app
    by (eapply Forall_impl; [exact Hc|]; exact stampChar_not_dot).
  unfold Re.matchStamp. rewrite <- app_assoc. cbn [app].
  destruct (stampAt_canonical d8 d6 (beforeFirst (dot :: e') (i ++ dot :: e'))
              L8 L6 D8 D6) as [m Hm].
  destruct (d8 ++ "_"%char :: d6 ++ beforeFirst (dot :: e') (i ++ dot :: e'))
    as [|c x] eqn:E; cbn [Re.searchFrom]; rewrite Hm; reflexivity.
Qed.

(** C6: [replace] is idempotent.  What it returns is returned unchanged by
    a second call, in any state of the caches: a name that it emitted
    starts with the timestamp pattern and is skipped as canonical, and a
    path that it left alone is left alone again. *)
Theorem replace_idempotent (w : World) (fuel fuel' : nat) (st st' st'' : State)
    (p q : str) :
  replace w fuel st p = Some (Ret q, st') ->
  replace w fuel' st'' q = Some (Ret q, st'').
Proof.
  intros H. destruct (Spec.keyOf w p) as [[[d T] e]|] eqn:Hk.
  - destruct (replace_keyOf_some w fuel st _ _ _ _ Hk) as (Hd & He & Hr).
    rewrite Hr in H.
    destruct (assignName w fuel st (parse p) T) as [[q' s]|] eqn:Ha; [|discriminate].
    injection H as -> ->.
    destruct (assignName_spec _ _ _ _ _ _ _ Ha) as (idx & start & _ & _ & _ & -> & _).
    destruct (emitted_parse w p d T e idx Hk) as (_ & _ & Hb & Hx & _).
    destruct (keyOf_inv _ _ _ _ _ Hk) as (Hmedia & _ & _ & f & Hg & HT).
    pose proof (media_ext _ Hmedia) as Hne.
    destruct (ext_shape p) as [He0|(e' & He' & _)]; [contradiction|].
    subst d. set (q := join _) in *.
    assert (Hc : isCorrectFileName (parse q) = Ret true).
    { apply (isCorrectFileName_emitted _ f T (indexStr idx) e').
      - exact (getDate_printable _ _ _ Hg).
      - exact HT.
      - rewrite Hb, He'. reflexivity.
      - rewrite Hx, He'. reflexivity. }
    unfold replace, getDate. rewrite Hc, bind_ret.
    destruct (isImage (parse q) || isVideo (parse q)); reflexivity.
  - rewrite (replace_keyOf_none w fuel st p Hk) in H. injection H as <- <-.
    apply replace_keyOf_none, Hk.
Qed.

Lemma replace_idempotent_witness :
  replace Ex.world2024 1
    (Ex.finalState (run Ex.world2024 1 init [lit "/d/one.jpg"]))
    (lit "/d/20240429_132557.jpg")
  = Some (Ret (lit "/d/20240429_132557.jpg"),
          Ex.finalState (run Ex.world2024 1 init [lit "/d/one.jpg"])).
Proof.
  apply (replace_idempotent Ex.world2024 1 1 init
           (Ex.finalState (run Ex.world2024 1 init [lit "/d/one.jpg"]))
           (Ex.finalState (run Ex.world2024 1 init [lit "/d/one.jpg"]))
           (lit "/d/one.jpg") (lit "/d/20240429_132557.jpg")).
  vm_compute. reflexivity.
Defined.

End Renaming.

Section PrePopulated.

Import Js DateFns Path MediaDateTime.


Lemma firstFree_at_least (n fuel : nat) (set : gset str) (T e : str) (start r : Num.number) :
  firstFree n set T e start = Some r -> (n <= fuel)%nat ->
  firstFree fuel set T e start = Some r.
Proof. intros H Hle. eapply firstFree_mono; eassumption. Qed.

End PrePopulated.

Section Buckets.

Import Js DateFns Path MediaDateTime.



(** An index is saturated, or else it prints in digits. *)
Lemma indexStr_cases (i : Num.number) :
  Num.saturated i \/ Forall (fun c => numChar c = true) (indexStr i).
Proof.
  unfold Num.saturated, indexStr. destruct (Num.ltZero i) eqn:Hlt; [right; constructor|].
  destruct i as [z|]; [|left; split; reflexivity].
  destruct (add1_Fin_cases z) as [[z' Hz]|Hz]; rewrite Hz.
  - right. constructor; [reflexivity|apply toString_numChars].
  - left. split; reflexivity.
Qed.


Lemma toLowerCase_stamp (d : Date) (T : str) :
  format d = Ret T -> toLowerCase T = T.
Proof.
  intros H. apply toLowerCase_fixed.
  eapply Forall_impl; [exact (format_chars d T H)|]. exact stampChar_numChar.
Qed.

(** The lower-case form of an emitted name whose index prints in digits is
    the candidate that the loop checked. *)
Lemma toLowerCase_emitted (d : Date) (T x : str) (i : Num.number) :
  format d = Ret T -> Forall (fun c => numChar c = true) (indexStr i) ->
  toLowerCase (T ++ indexStr i ++ x) = T ++ indexStr i ++ toLowerCase x.
Proof.
  intros HT Hi. rewrite !toLowerCase_app, (toLowerCase_stamp d T HT).
  rewrite (toLowerCase_fixed (indexStr i) Hi). reflexivity.
Qed.



Lemma matchChars_self (T r : str) :
  Forall (fun c => stampChar c = true) T -> Re.matchChars T (T ++ r) = Some r.
Proof.
  induction 1 as [|c T Hc _ IH]; [reflexivity|]. cbn [app Re.matchChars].
  rewrite (bool_decide_eq_false_2 (c = "."%char)) by (apply stampChar_not_dot, Hc).
  rewrite (bool_decide_eq_true_2 (c = c)) by reflexivity. exact IH.
Qed.



Lemma knownNames_after (w : World) (st st' : State) (d' c : str) :
  dirCache st' = <[d' := Spec.knownNames w st d' ∪ {[c]}]> (dirCache st) ->
  forall y, Spec.knownNames w st' y
            = if decide (y = d') then Spec.knownNames w st y ∪ {[c]}
              else Spec.knownNames w st y.
Proof.
  intros H y. unfold Spec.knownNames at 1. rewrite H.
  destruct (decide (y = d')) as [->|Hne].
  - rewrite lookup_insert_eq. reflexivity.
  - rewrite lookup_insert_ne by congruence. reflexivity.
Qed.




Lemma distinct_by_compute (l : list str) :
  bool_decide (NoDup (map toLowerCase l)) = true -> Spec.distinctIgnoringCase l.
Proof. apply bool_decide_eq_true_1. Qed.




End Buckets.

Section Classification.

Import Js Path MediaDateTime.

Lemma startsWith_snoc (d : ascii) (a l : str) :
  Forall (fun c => c <> d) a -> Forall (fun c => c <> d) l ->
  startsWith (a ++ [d]) (l ++ [d]) = true <-> a = l.
Proof.
  intros Ha. revert l. induction Ha as [|c a Hc Ha IH]; intros l Hl.
  - destruct Hl as [|c' l Hc' Hl]; cbn.
    + destruct (decide (d = d)); [|contradiction]. split; reflexivity.
    + destruct (decide (d = c')) as [<-|_]; [contradiction|]. split; discriminate.
  - destruct Hl as [|c' l Hc' Hl]; cbn.
    + destruct (decide (c = d)) as [->|_]; [contradiction|]. split; discriminate.
    + destruct (decide (c = c')) as [<-|Hne].
      * rewrite (IH l Hl). split; [intros ->; reflexivity|intros [= ->]; reflexivity].
      * split; [discriminate|intros [= ? ?]; contradiction].
Qed.

Lemma endsWithDotAny_ext (alts : list str) (l : str) :
  Forall (Forall (fun c => c <> dot)) alts -> Forall (fun c => c <> dot) l ->
  Re.endsWithDotAny alts (dot :: l) = true <-> dot :: l ∈ map (cons dot) alts.
Proof.
  intros Halts Hl. unfold Re.endsWithDotAny. rewrite existsb_exists.
  change (rev (dot :: l)) with (rev l ++ [dot]).
  split.
  - intros (a & Hin & Hs). apply list_elem_of_fmap. exists a. split.
    + apply startsWith_snoc in Hs.
      * apply (f_equal (@rev ascii)) in Hs. rewrite !rev_involutive in Hs. congruence.
      * apply Forall_rev. rewrite Forall_forall in Halts. apply Halts.
        apply list_elem_of_In. exact Hin.
      * apply Forall_rev, Hl.
    + apply list_elem_of_In. exact Hin.
  - intros Hin. apply list_elem_of_fmap in Hin. destruct Hin as (a & [= ->] & Hin).
    exists a. split; [apply list_elem_of_In; exact Hin|].
    apply startsWith_snoc; [apply Forall_rev, Hl|apply Forall_rev, Hl|reflexivity].
Qed.

Lemma toLowerChar_dot (c : ascii) : c <> dot -> toLowerChar c <> dot.
Proof.
  destruct c as [[] [] [] [] [] [] [] []]; vm_compute; intros H; try discriminate;
    try (exfalso; apply H; reflexivity).
Qed.

Lemma toLowerCase_no_dot (x : str) :
  Forall (fun c => c <> dot) x -> Forall (fun c => c <> dot) (toLowerCase x).
Proof.
  induction 1 as [|c x Hc _ IH]; constructor; [apply toLowerChar_dot, Hc|exact IH].
Qed.

Lemma no_dot_by_compute (alts : list str) :
  forallb (forallb notDot) alts = true -> Forall (Forall (fun c => c <> dot)) alts.
Proof.
  intros H. rewrite forallb_forall in H. apply Forall_forall. intros a Ha.
  apply list_elem_of_In in Ha.
  specialize (H a Ha). rewrite forallb_forall in H. apply Forall_forall. intros c Hc.
  apply list_elem_of_In in Hc.
  apply notDot_true, H, Hc.
Qed.

(** The two classifiers of a parsed path, read on the lower-cased
    extension: the extension that [path.parse] returns holds one dot, its
    first character, so that the expression matches it as a whole. *)
Lemma classifier_ext (alts : list str) (p : str) :
  forallb (forallb notDot) alts = true ->
  Re.endsWithDotAny alts (toLowerCase (ext (parse p))) = true
  <-> toLowerCase (ext (parse p)) ∈ map (cons dot) alts.
Proof.
  intros Halts. destruct (ext_shape p) as [->|(e' & -> & Hnd & _)].
  - split.
    + unfold Re.endsWithDotAny. rewrite existsb_exists. intros (a & _ & Hs).
      destruct (rev a); discriminate.
    + intros H. apply list_elem_of_fmap in H. destruct H as (a & [=] & _).
  - apply (endsWithDotAny_ext alts (toLowerCase e'));
      [apply no_dot_by_compute, Halts|apply toLowerCase_no_dot, Hnd].
Qed.

Lemma not_elem_of_by_compute (x : str) (l : list str) :
  bool_decide (x ∈ l) = false -> x ∉ l.
Proof. apply bool_decide_eq_false_1. Qed.

(** X1: the classifiers accept exactly the listed extensions.  For every
    path, [isImage] holds of the parsed path exactly when its extension,
    put in lower case, is one of [.jpg], [.jpeg], [.png], [.gif], [.bmp],
    [.heic], and [isVideo] exactly when it is [.mp4] or [.mov]. *)
Theorem media_classification (p : str) :
  (isImage (parse p) = true
   <-> toLowerCase (ext (parse p)) ∈ Spec.imageExtensions)
  /\ (isVideo (parse p) = true
      <-> toLowerCase (ext (parse p)) ∈ Spec.videoExtensions).
Proof.
  split.
  - apply (classifier_ext [lit "jpg"; lit "jpeg"; lit "png"; lit "gif"; lit "bmp"; lit "heic"]).
    reflexivity.
  - apply (classifier_ext [lit "mp4"; lit "mov"]). reflexivity.
Qed.

(** X2: a path whose extension, in lower case, is none of the eight is
    returned as it is, in every world, with any fuel and with the caches
    untouched: neither exiftool nor the directory is consulted. *)
Theorem other_extensions_untouched (w : World) (fuel : nat) (st : State) (p : str) :
  toLowerCase (ext (parse p)) ∉ Spec.imageExtensions ++ Spec.videoExtensions ->
  replace w fuel st p = Some (Ret p, st).
Proof.
  intros Hn. unfold replace.
  assert (Hi : isImage (parse p) = false).
  { destruct (isImage (parse p)) eqn:E; [|reflexivity]. exfalso. apply Hn.
    apply elem_of_app. left.
    apply (classifier_ext [lit "jpg"; lit "jpeg"; lit "png"; lit "gif"; lit "bmp"; lit "heic"]);
      [reflexivity|exact E]. }
  assert (Hv : isVideo (parse p) = false).
  { destruct (isVideo (parse p)) eqn:E; [|reflexivity]. exfalso. apply Hn.
    apply elem_of_app. right.
    apply (classifier_ext [lit "mp4"; lit "mov"]); [reflexivity|exact E]. }
  rewrite Hi, Hv. reflexivity.
Qed.

Lemma other_extensions_untouched_witness :
  replace Ex.world2024 0 init (lit "/docs/IMG_20200101_010203.jpg.txt")
  = Some (Ret (lit "/docs/IMG_20200101_010203.jpg.txt"), init).
Proof.
  apply other_extensions_untouched.
  apply not_elem_of_by_compute. vm_compute. reflexivity.
Defined.

End Classification.

Section CanonicalNames.

Import Js Path MediaDateTime.

Lemma takeWhile_split (P : ascii -> bool) (x : str) :
  exists t, x = takeWhile P x ++ t.
Proof.
  induction x as [|c x [t IH]]; [exists []; reflexivity|]. cbn.
  destruct (P c); [exists t; cbn; congruence|exists (c :: x); reflexivity].
Qed.

Lemma forallb_Forall (P : ascii -> bool) (x : str) :
  forallb P x = true -> Forall (fun c => P c = true) x.
Proof.
  intros H. rewrite forallb_forall in H. apply Forall_forall. intros c Hc.
  apply H, list_elem_of_In, Hc.
Qed.

(** Where [/\d{8}_\d{6,}/] matches at the start of a text. *)
Lemma stampAt_iff (b : str) :
  is_Some (Re.stampAt b)
  <-> exists d8 d6 rest, b = d8 ++ "_"%char :: d6 ++ rest /\ Spec.isStamp d8 d6.
Proof.
  split.
  - intros [m Hm]. unfold Re.stampAt in Hm.
    destruct ((length (take 8 b) =? 8)%nat && forallb isDigit (take 8 b)) eqn:E;
      [|discriminate].
    apply andb_true_iff in E. destruct E as [L8 D8]. apply Nat.eqb_eq in L8.
    destruct (drop 8 b) as [|c r] eqn:Hd; [discriminate|].
    destruct (bool_decide (c = "_"%char)) eqn:Hc; [|discriminate].
    apply bool_decide_eq_true_1 in Hc. subst c.
    destruct (6 <=? length (takeWhile isDigit r))%nat eqn:L6; [|discriminate].
    apply Nat.leb_le in L6.
    destruct (takeWhile_split isDigit r) as [t Ht].
    exists (take 8 b), (take 6 (takeWhile isDigit r)),
      (drop 6 (takeWhile isDigit r) ++ t).
    split.
    + rewrite app_assoc, take_drop, <- Ht, <- Hd, take_drop. reflexivity.
    + repeat split.
      * exact L8.
      * rewrite length_take. lia.
      * apply forallb_Forall, D8.
      * apply Forall_take, takeWhile_holds.
  - intros (d8 & d6 & rest & -> & L8 & L6 & D8 & D6).
    destruct (stampAt_canonical d8 d6 rest L8 L6 D8 D6) as [m Hm]. exists m. exact Hm.
Qed.

(** The leftmost match starts at the position where the search began
    exactly when the expression matches there. *)
Lemma searchFrom_index (at_ : str -> option str) (x : str) :
  forall (i : nat) (m : Re.MatchArray),
  Re.searchFrom at_ i x = Some m ->
  (i <= Re.index m)%nat /\ (Re.index m = i <-> is_Some (at_ x)).
Proof.
  induction x as [|c x IH]; intros i m; cbn.
  - destruct (at_ []) as [y|]; [|discriminate]. intros [= <-]. cbn.
    split; [lia|]. split; [eauto|reflexivity].
  - destruct (at_ (c :: x)) as [y|].
    + intros [= <-]. cbn. split; [lia|]. split; [eauto|reflexivity].
    + intros H. destruct (IH _ _ H) as [Hle _]. split; [lia|].
      split; [lia|]. intros [? [=]].
Qed.

Lemma isCorrectFileName_stampAt (file : ParsedPath) :
  isCorrectFileName file = Ret true
  <-> exists b, baseOf file = Ret b /\ is_Some (Re.stampAt b).
Proof.
  unfold isCorrectFileName. destruct (baseOf file) as [b|e].
  - rewrite bind_ret. unfold Re.matchStamp.
    destruct (Re.searchFrom Re.stampAt 0 b) as [m|] eqn:Hm.
    + destruct (searchFrom_index _ _ _ _ Hm) as [_ Hi].
      rewrite (searchFrom_length _ _ _ _ Hm). cbn [Nat.eqb andb].
      split.
      * intros [= H]. apply Nat.eqb_eq in H. exists b. split; [reflexivity|].
        apply Hi, H.
      * intros (b' & [= <-] & Hs). apply Hi in Hs. rewrite Hs. reflexivity.
    + split; [discriminate|]. intros (b' & [= <-] & [y Hy]). exfalso.
      destruct b; cbn [Re.searchFrom] in Hm; rewrite Hy in Hm; discriminate.
  - split; [discriminate|]. intros (b' & [=] & _).
Qed.

(** X3: [#isCorrectFileName] holds exactly when the base of the name (the
    text before the first occurrence of the extension) starts with eight
    digits, an underscore and six digits; a timestamp further inside the
    name does not count. *)
Theorem isCorrectFileName_iff (file : ParsedPath) :
  isCorrectFileName file = Ret true
  <-> exists d8 d6 rest,
        baseOf file = Ret (d8 ++ "_"%char :: d6 ++ rest) /\ Spec.isStamp d8 d6.
Proof.
  rewrite isCorrectFileName_stampAt. split.
  - intros (b & Hb & Hs). apply stampAt_iff in Hs.
    destruct Hs as (d8 & d6 & rest & -> & Hst). eauto.
  - intros (d8 & d6 & rest & Hb & Hst). eexists. split; [exact Hb|].
    apply stampAt_iff. eauto.
Qed.

Lemma digit_not_dot (c : ascii) : isDigit c = true -> c <> dot.
Proof. intros H. apply stampChar_not_dot, isDigit_stampChar, H. Qed.

Lemma digit_not_slash (c : ascii) : isDigit c = true -> c <> slash.
Proof. intros H. apply stampChar_not_slash, isDigit_stampChar, H. Qed.

(** X4: a file whose name starts with [dddddddd_dddddd], followed by any
    text and an extension, is returned as it is in every world and every
    state, whatever its metadata says. *)
Theorem canonical_name_untouched (w : World) (fuel : nat) (st : State)
    (pre d8 d6 rest e' : str) :
  pre = [] \/ last pre = Some slash ->
  Spec.isStamp d8 d6 ->
  Forall (fun c => c <> slash) rest ->
  Forall (fun c => c <> slash /\ c <> dot) e' ->
  replace w fuel st (pre ++ d8 ++ "_"%char :: d6 ++ rest ++ dot :: e')
  = Some (Ret (pre ++ d8 ++ "_"%char :: d6 ++ rest ++ dot :: e'), st).
Proof.
  intros Hpre (L8 & L6 & D8 & D6) Hrest He.
  set (n := d8 ++ "_"%char :: d6 ++ rest ++ dot :: e').
  assert (Hes : Forall (fun c => c <> slash) e')
    by (eapply Forall_impl; [exact He|]; intros c [H _]; exact H).
  assert (Hed : Forall (fun c => c <> dot) e')
    by (eapply Forall_impl; [exact He|]; intros c [_ H]; exact H).
  assert (Hplain : Spec.plainName n).
  { split.
    - repeat split; intros H; apply (f_equal (@length ascii)) in H; unfold n in H;
        rewrite length_app in H; cbn in H; lia.
    - unfold n. apply Forall_app. split.
      + eapply Forall_impl; [exact D8|]. exact digit_not_slash.
      + constructor; [discriminate|]. apply Forall_app. split.
        * eapply Forall_impl; [exact D6|]. exact digit_not_slash.
        * apply Forall_app. split; [exact Hrest|]. constructor; [discriminate|exact Hes]. }
  destruct (parse_prefix_name pre n Hplain Hpre) as (Hb & _ & Hx & _).
  assert (Hext : ext (parse (pre ++ n)) = dot :: e').
  { rewrite Hx. unfold n. destruct d8 as [|c d8']; [discriminate|].
    replace ((c :: d8') ++ "_"%char :: d6 ++ rest ++ dot :: e')
      with ((c :: d8' ++ "_"%char :: d6 ++ rest) ++ dot :: e')
      by (cbn; rewrite <- !app_assoc; cbn; rewrite <- !app_assoc; reflexivity).
    rewrite splitExt_stem; [reflexivity| |exact Hed].
    apply digit_not_dot. inversion D8; assumption. }
  assert (Hbase : baseOf (parse (pre ++ n))
                  = Ret (d8 ++ "_"%char :: d6
                         ++ beforeFirst (dot :: e') (rest ++ dot :: e'))).
  { unfold baseOf, split0. rewrite Hext, Hb. unfold n.
    rewrite beforeFirst_app by (eapply Forall_impl; [exact D8|]; exact digit_not_dot).
    change ("_"%char :: d6 ++ rest ++ dot :: e')
      with (["_"%char] ++ d6 ++ rest ++ dot :: e').
    rewrite beforeFirst_app by (repeat constructor; discriminate).
    rewrite beforeFirst_app by (eapply Forall_impl; [exact D6|]; exact digit_not_dot).
    reflexivity. }
  assert (Hc : isCorrectFileName (parse (pre ++ n)) = Ret true).
  { apply isCorrectFileName_stampAt. eexists. split; [exact Hbase|].
    apply stampAt_iff. exists d8, d6, (beforeFirst (dot :: e') (rest ++ dot :: e')).
    split; [reflexivity|repeat split; assumption]. }
  unfold replace, getDate. rewrite Hc.
  destruct (isImage _ || isVideo _); reflexivity.
Qed.

Lemma canonical_name_untouched_witness :
  replace (Ex.world (lit "2021:12:25 14:23:59") []) 9 init
    (lit "/photos/" ++ lit "20210518" ++ "_"%char :: lit "122045" ++ lit "_sample" ++ dot :: lit "jpg")
  = Some (Ret (lit "/photos/" ++ lit "20210518" ++ "_"%char :: lit "122045" ++ lit "_sample"
               ++ dot :: lit "jpg"), init).
Proof.
  apply canonical_name_untouched.
  - right. reflexivity.
  - repeat split; repeat constructor.
  - repeat constructor; discriminate.
  - repeat constructor; discriminate.
Defined.

End CanonicalNames.

Section Decimals.

Import Js Num DateFns.

Local Open Scope Z_scope.

Lemma of_lu_rev_cons (u d : Decimal.uint) :
  Z.of_N (DecimalPos.Unsigned.of_lu (Decimal.revapp u d))
  = Z.of_N (DecimalPos.Unsigned.of_lu (Decimal.rev u))
    + Z.of_N (DecimalPos.Unsigned.of_lu d) * 10 ^ Z.of_N (DecimalPos.Unsigned.usize u).
Proof.
  rewrite DecimalPos.Unsigned.of_lu_revapp.
  rewrite N2Z.inj_add, N2Z.inj_mul, N2Z.inj_pow. reflexivity.
Qed.

Lemma fold_uintChars (u : Decimal.uint) :
  forall v0 : Z,
  fold_left (fun v c => 10 * v + (Z.of_nat (code c) - 48)) (uintChars u) v0
  = v0 * 10 ^ Z.of_N (DecimalPos.Unsigned.usize u)
    + Z.of_N (DecimalPos.Unsigned.of_lu (Decimal.rev u)).
Proof.
  induction u; intros v0; cbn [uintChars fold_left DecimalPos.Unsigned.usize];
    [cbn; lia|..];
    rewrite IHu; unfold Decimal.rev at 2; cbn [Decimal.revapp];
    rewrite of_lu_rev_cons;
    rewrite N2Z.inj_succ, Z.pow_succ_r by lia;
    cbn [DecimalPos.Unsigned.of_lu];
    match goal with
    | |- context [Z.of_nat (code ?c)] =>
        let n := eval vm_compute in (Z.of_nat (code c)) in
        change (Z.of_nat (code c)) with n
    end;
    match goal with
    | |- context [Z.of_N ?k * _] =>
        let n := eval vm_compute in (Z.of_N k) in change (Z.of_N k) with n
    end; ring.
Qed.

Lemma digitsValue_uintChars (u : Decimal.uint) :
  digitsValue (uintChars u) = Z.of_N (N.of_uint u).
Proof.
  unfold digitsValue. rewrite fold_uintChars.
  unfold N.of_uint. rewrite DecimalPos.Unsigned.of_uint_alt. lia.
Qed.

(** Reading the printed digits of a number gives the number back. *)
Lemma digitsValue_decimal (z : Z) : 0 <= z -> digitsValue (decimal z) = z.
Proof.
  intros Hz. unfold decimal. rewrite digitsValue_uintChars.
  rewrite DecimalN.Unsigned.of_to. lia.
Qed.

Lemma isDigit_cases (c : ascii) :
  isDigit c = true ->
  c ∈ ["0"; "1"; "2"; "3"; "4"; "5"; "6"; "7"; "8"; "9"]%char.
Proof.
  destruct c as [[] [] [] [] [] [] [] []]; intros H;
    first [discriminate H | apply list_elem_of_In; cbn; auto 12].
Qed.

Lemma digits_uint (ds : str) :
  Forall (fun c => isDigit c = true) ds -> exists u, ds = uintChars u.
Proof.
  induction 1 as [|c ds Hc _ [u ->]]; [exists Nil; reflexivity|].
  apply isDigit_cases in Hc.
  repeat (apply elem_of_cons in Hc; destruct Hc as [->|Hc]);
    [exists (D0 u)|exists (D1 u)|exists (D2 u)|exists (D3 u)|exists (D4 u)
    |exists (D5 u)|exists (D6 u)|exists (D7 u)|exists (D8 u)|exists (D9 u)|];
    try reflexivity.
  inversion Hc.
Qed.

Lemma uintChars_nzhead (u : Decimal.uint) :
  exists k : nat, uintChars u = replicate k "0"%char ++ uintChars (nzhead u).
Proof.
  induction u; try (exists 0%nat; reflexivity).
  destruct IHu as [k Hk]. exists (S k). cbn. rewrite Hk. reflexivity.
Qed.

(** Printing the value of [w] digits with [w] digits gives the digits
    back. *)
Lemma addLeadingZeros_digitsValue (ds : str) :
  ds <> [] -> Forall (fun c => isDigit c = true) ds ->
  addLeadingZeros (digitsValue ds) (length ds) = ds.
Proof.
  intros Hne Hd. destruct (digits_uint ds Hd) as [u ->].
  unfold addLeadingZeros. rewrite digitsValue_uintChars.
  rewrite Z.abs_eq by lia.
  destruct (Z.ltb_spec (Z.of_N (N.of_uint u)) 0) as [?|_]; [lia|].
  unfold decimal. rewrite N2Z.id, DecimalN.Unsigned.to_of. unfold unorm.
  destruct (uintChars_nzhead u) as [k Hk].
  destruct (nzhead u) eqn:Hz; rewrite Hk; rewrite length_app, length_replicate;
    cbn [uintChars length app];
    try (replace (k + S (length (uintChars u0)) - S (length (uintChars u0)))%nat
           with k by lia; reflexivity).
  rewrite Hk in Hne. cbn in Hne. rewrite app_nil_r in Hne.
  destruct k as [|k]; [contradiction|].
  replace (S k + 0 - 1)%nat with k by lia. rewrite app_nil_r.
  clear. induction k; cbn; [reflexivity|]. cbn in IHk. rewrite IHk. reflexivity.
Qed.

End Decimals.

Section DateRoundTrip.

Import Js Num DateFns Path MediaDateTime.

Local Abbreviation digits := (Forall (fun c => isDigit c = true)).

Lemma takeDigits_full (ds r : str) :
  digits ds -> takeDigits (length ds) (ds ++ r) = ds.
Proof.
  induction 1 as [|c ds Hc _ IH]; [reflexivity|].
  cbn. rewrite Hc, IH. reflexivity.
Qed.

Lemma runTokens_Num (w : nat) (ts : list token) (ds r : str) (vals : list Z) :
  length ds = w -> ds <> [] -> digits ds ->
  runTokens (Num w :: ts) (ds ++ r) vals
  = runTokens ts r (vals ++ [digitsValue ds]).
Proof.
  intros <- Hne Hd. cbn [runTokens]. rewrite takeDigits_full by exact Hd.
  destruct ds as [|c ds']; [contradiction|].
  rewrite drop_app_length. reflexivity.
Qed.

Lemma runTokens_Lit (c : ascii) (ts : list token) (r : str) (vals : list Z) :
  runTokens (Lit c :: ts) (c :: r) vals = runTokens ts r vals.
Proof. cbn [runTokens]. rewrite bool_decide_eq_true_2 by reflexivity. reflexivity. Qed.

(** The six groups of digits of a timestamp. *)
Lemma stamp_chunks (d8 d6 : str) :
  Spec.isStamp d8 d6 ->
  d8 = take 4 d8 ++ take 2 (drop 4 d8) ++ drop 6 d8
  /\ d6 = take 2 d6 ++ take 2 (drop 2 d6) ++ drop 4 d6
  /\ (length (take 4 d8) = 4 /\ length (take 2 (drop 4 d8)) = 2
      /\ length (drop 6 d8) = 2 /\ length (take 2 d6) = 2
      /\ length (take 2 (drop 2 d6)) = 2 /\ length (drop 4 d6) = 2)%nat
  /\ digits (take 4 d8) /\ digits (take 2 (drop 4 d8)) /\ digits (drop 6 d8)
  /\ digits (take 2 d6) /\ digits (take 2 (drop 2 d6)) /\ digits (drop 4 d6).
Proof.
  intros (L8 & L6 & D8 & D6). split; [|split; [|split]].
  - rewrite <- (take_drop 4 d8) at 1. f_equal.
    rewrite <- (take_drop 2 (drop 4 d8)) at 1. f_equal. apply drop_drop.
  - rewrite <- (take_drop 2 d6) at 1. f_equal.
    rewrite <- (take_drop 2 (drop 2 d6)) at 1. f_equal. apply drop_drop.
  - rewrite !length_take, !length_drop. lia.
  - repeat split; repeat first [apply Forall_take | apply Forall_drop]; assumption.
Qed.

Lemma nonempty_length (x : str) (n : nat) : length x = S n -> x <> [].
Proof. intros H ->. discriminate. Qed.

Lemma parse_filePattern (d8 d6 : str) :
  Spec.isStamp d8 d6 ->
  DateFns.parse (d8 ++ "_"%char :: d6) filePattern
  = if validFields (Spec.stampFields d8 d6)
    then Valid (Spec.stampFields d8 d6) else Invalid.
Proof.
  intros Hs.
  destruct (stamp_chunks d8 d6 Hs)
    as (E8 & E6 & (L1 & L2 & L3 & L4 & L5 & L6) & D1 & D2 & D3 & D4 & D5 & D6).
  unfold DateFns.parse, filePattern, Spec.stampFields.
  rewrite E8 at 1. rewrite E6 at 1. rewrite <- !app_assoc.
  rewrite (runTokens_Num 4) by eauto using nonempty_length.
  rewrite (runTokens_Num 2) by eauto using nonempty_length.
  change ((drop 6 d8 ++ "_"%char :: take 2 d6 ++ take 2 (drop 2 d6) ++ drop 4 d6))
    with (drop 6 d8 ++ ("_"%char :: take 2 d6 ++ take 2 (drop 2 d6) ++ drop 4 d6)).
  rewrite (runTokens_Num 2) by eauto using nonempty_length.
  rewrite runTokens_Lit.
  rewrite (runTokens_Num 2) by eauto using nonempty_length.
  rewrite (runTokens_Num 2) by eauto using nonempty_length.
  rewrite <- (app_nil_r (drop 4 d6)) at 1.
  rewrite (runTokens_Num 2) by eauto using nonempty_length.
  reflexivity.
Qed.

Lemma parse_exifPattern (d8 d6 t : str) :
  Spec.isStamp d8 d6 ->
  DateFns.parse (Spec.exifText d8 d6 ++ t) exifPattern
  = if forallb isSpace t
    then (if validFields (Spec.stampFields d8 d6)
          then Valid (Spec.stampFields d8 d6) else Invalid)
    else Invalid.
Proof.
  intros Hs.
  destruct (stamp_chunks d8 d6 Hs)
    as (E8 & E6 & (L1 & L2 & L3 & L4 & L5 & L6) & D1 & D2 & D3 & D4 & D5 & D6).
  unfold DateFns.parse, exifPattern, Spec.stampFields, Spec.exifText.
  repeat (rewrite <- ?app_assoc; rewrite <- ?app_comm_cons).
  rewrite (runTokens_Num 4) by eauto using nonempty_length.
  rewrite runTokens_Lit.
  rewrite (runTokens_Num 2) by eauto using nonempty_length.
  rewrite runTokens_Lit.
  rewrite (runTokens_Num 2) by eauto using nonempty_length.
  rewrite runTokens_Lit.
  rewrite (runTokens_Num 2) by eauto using nonempty_length.
  rewrite runTokens_Lit.
  rewrite (runTokens_Num 2) by eauto using nonempty_length.
  rewrite runTokens_Lit.
  rewrite (runTokens_Num 2) by eauto using nonempty_length.
  reflexivity.
Qed.

Lemma addLeadingZeros_width (w : nat) (ds : str) :
  length ds = w -> ds <> [] -> digits ds ->
  addLeadingZeros (digitsValue ds) w = ds.
Proof. intros <-. apply addLeadingZeros_digitsValue. Qed.

Lemma format_stampFields (d8 d6 : str) :
  Spec.isStamp d8 d6 ->
  validFields (Spec.stampFields d8 d6) = true ->
  format (Valid (Spec.stampFields d8 d6)) = Ret (d8 ++ "_"%char :: d6).
Proof.
  intros Hs Hv.
  destruct (stamp_chunks d8 d6 Hs)
    as (E8 & E6 & (L1 & L2 & L3 & L4 & L5 & L6) & D1 & D2 & D3 & D4 & D5 & D6).
  apply validFields_ranges in Hv. destruct Hv as (Hy & _).
  unfold format, Spec.stampFields in *. cbn [year month day hour minute second] in *.
  apply Z.ltb_lt in Hy. rewrite Hy.
  rewrite (addLeadingZeros_width 4), !(addLeadingZeros_width 2)
    by eauto using nonempty_length.
  rewrite E8 at 4. rewrite E6 at 4. rewrite <- !app_assoc. reflexivity.
Qed.

End DateRoundTrip.

Section Sources.

Import Js Num DateFns Path MediaDateTime.

Lemma getDate_createDate (w : World) (p v : str) :
  Spec.eligible p -> Spec.createDate w p = Some v ->
  getDate w p = Ret (Some (DateFns.parse v exifPattern)).
Proof.
  intros [_ Hc] Hv. destruct (createDate_getDateFromExif _ _ _ Hv) as (m & Hm & Hd).
  rewrite (getDate_after_exif w p m Hc Hm).
  unfold Spec.resolveInOrder, Spec.fromMetadata. rewrite Hm, Hd. reflexivity.
Qed.

(** X5: on a host whose time zone is UTC, which is the zone that [DateFns]
    fixes for the local time of date-fns, for an eligible file whose
    [CreateDate] reads [yyyy:MM:dd HH:mm:ss] for the digits of the
    timestamp [d8_d6], the resolver returns the date of these fields when
    they are a calendar date and the invalid date otherwise, and [format]
    prints a valid one as [d8_d6], digit for digit.  Where the local time
    has gaps, a time inside a gap is printed as another time: that is
    outside this statement. *)
Theorem createDate_stamp (w : World) (p d8 d6 : str) :
  Spec.eligible p -> Spec.isStamp d8 d6 ->
  Spec.createDate w p = Some (Spec.exifText d8 d6) ->
  getDate w p
  = Ret (Some (if validFields (Spec.stampFields d8 d6)
               then Valid (Spec.stampFields d8 d6) else Invalid))
  /\ (validFields (Spec.stampFields d8 d6) = true ->
      format (Valid (Spec.stampFields d8 d6)) = Ret (d8 ++ "_"%char :: d6)).
Proof.
  intros He Hs Hv. split.
  - rewrite (getDate_createDate w p _ He Hv).
    rewrite <- (app_nil_r (Spec.exifText d8 d6)).
    rewrite (parse_exifPattern d8 d6 [] Hs). reflexivity.
  - apply format_stampFields, Hs.
Qed.

Lemma isStamp_by_compute (d8 d6 : str) :
  (length d8 =? 8)%nat && (length d6 =? 6)%nat
  && forallb isDigit d8 && forallb isDigit d6 = true ->
  Spec.isStamp d8 d6.
Proof.
  intros H. repeat (apply andb_true_iff in H; destruct H as [H ?]).
  repeat split; try (apply Nat.eqb_eq; assumption); apply forallb_Forall; assumption.
Qed.

Lemma createDate_stamp_witness :
  getDate (Ex.world (lit "2021:12:25 14:23:59.123+02:00") []) (lit "/photos/IMG_1234.JPG")
  = Ret (Some (if validFields (Spec.stampFields (lit "20211225") (lit "142359"))
               then Valid (Spec.stampFields (lit "20211225") (lit "142359"))
               else Invalid))
  /\ (validFields (Spec.stampFields (lit "20211225") (lit "142359")) = true ->
      format (Valid (Spec.stampFields (lit "20211225") (lit "142359")))
      = Ret (lit "20211225" ++ "_"%char :: lit "142359")).
Proof.
  apply createDate_stamp.
  - split; reflexivity.
  - apply isStamp_by_compute. reflexivity.
  - reflexivity.
Defined.

(** X6: a [CreateDate] that carries more than white space after the
    seconds and before any dot (a time zone such as [+02:00]) is parsed to
    the invalid date: the resolver returns it, the file-name sources are
    not asked, and [replace] returns the path as it is. *)
Theorem createDate_trailing_text (w : World) (p d8 d6 t : str) :
  Spec.eligible p -> Spec.isStamp d8 d6 ->
  Spec.createDate w p = Some (Spec.exifText d8 d6 ++ t) ->
  forallb isSpace t = false ->
  getDate w p = Ret (Some Invalid)
  /\ forall fuel st, replace w fuel st p = Some (Ret p, st).
Proof.
  intros He Hs Hv Ht.
  assert (Hg : getDate w p = Ret (Some Invalid)).
  { rewrite (getDate_createDate w p _ He Hv), (parse_exifPattern d8 d6 t Hs), Ht.
    reflexivity. }
  split; [exact Hg|]. intros fuel st. unfold replace.
  destruct He as [-> _]. rewrite Hg. reflexivity.
Qed.

Lemma createDate_trailing_text_witness :
  getDate (Ex.world (lit "2021:12:25 14:23:59+02:00") []) Ex.stamped = Ret (Some Invalid)
  /\ forall fuel st,
       replace (Ex.world (lit "2021:12:25 14:23:59+02:00") []) fuel st Ex.stamped
       = Some (Ret Ex.stamped, st).
Proof.
  apply (createDate_trailing_text _ _ (lit "20211225") (lit "142359") (lit "+02:00")).
  - split; reflexivity.
  - apply isStamp_by_compute. reflexivity.
  - reflexivity.
  - reflexivity.
Defined.

(** The text that [/\d{8}_\d{6,}/] matched. *)
Lemma stampAt_matched (y s : str) :
  Re.stampAt y = Some s ->
  exists d8 d6 more, s = d8 ++ "_"%char :: d6 ++ more /\ Spec.isStamp d8 d6.
Proof.
  unfold Re.stampAt.
  destruct ((length (take 8 y) =? 8)%nat && forallb isDigit (take 8 y)) eqn:E;
    [|discriminate].
  apply andb_true_iff in E. destruct E as [L8 D8]. apply Nat.eqb_eq in L8.
  destruct (drop 8 y) as [|c r]; [discriminate|].
  destruct (bool_decide (c = "_"%char)) eqn:Hc; [|discriminate].
  apply bool_decide_eq_true_1 in Hc. subst c.
  destruct (6 <=? length (takeWhile isDigit r))%nat eqn:L6; [|discriminate].
  apply Nat.leb_le in L6. intros [= <-].
  exists (take 8 y), (take 6 (takeWhile isDigit r)), (drop 6 (takeWhile isDigit r)).
  split; [rewrite take_drop; reflexivity|].
  repeat split.
  - exact L8.
  - rewrite length_take. lia.
  - apply forallb_Forall, D8.
  - apply Forall_take, takeWhile_holds.
Qed.

(** X7: on a host whose time zone is UTC, which is the zone that [DateFns]
    fixes for the local time of date-fns, when the file-name source returns
    a valid date, [format] prints it as the first fifteen characters of
    the leftmost match of [/\d{8}_\d{6,}/] in the base of the name:
    further digits of the match are dropped and the timestamp of the name
    is kept as it is.  Where the local time has gaps, a timestamp inside a
    gap is printed as another time: that is outside this statement. *)
Theorem fileName_stamp (file : ParsedPath) (b : str) (m : Re.MatchArray) (f : Fields) :
  baseOf file = Ret b -> Re.matchStamp b = Some m ->
  getDateFromFileName file = Ret (Some (Valid f)) ->
  format (Valid f) = Ret (substring0 15 (Re.matched m)).
Proof.
  intros Hb Hm. unfold getDateFromFileName. rewrite Hb, bind_ret, Hm.
  rewrite (searchFrom_length _ _ _ _ Hm). cbn [Nat.ltb Nat.leb].
  destruct (searchFrom_at _ _ _ _ Hm) as [y Hy].
  destruct (stampAt_matched _ _ Hy) as (d8 & d6 & more & -> & Hs).
  assert (Ht : substring0 15 (d8 ++ "_"%char :: d6 ++ more) = d8 ++ "_"%char :: d6).
  { destruct Hs as (L8 & L6 & _). unfold substring0.
    replace (d8 ++ "_"%char :: d6 ++ more) with ((d8 ++ "_"%char :: d6) ++ more)
      by (rewrite <- app_assoc; reflexivity).
    replace 15%nat with (length (d8 ++ "_"%char :: d6))
      by (rewrite length_app; cbn; lia).
    apply take_app_length. }
  rewrite Ht, (parse_filePattern d8 d6 Hs).
  destruct (validFields (Spec.stampFields d8 d6)) eqn:Hv; [|discriminate].
  intros [= <-]. apply format_stampFields; assumption.
Qed.

Lemma fileName_stamp_witness :
  format (Valid (mkFields 2020 1 1 1 2 3))
  = Ret (substring0 15 (Re.matched (Re.mkMatch (lit "20200101_0102039") [] 4))).
Proof.
  apply (fileName_stamp (parse (lit "/d/IMG_20200101_0102039.jpg")) (lit "IMG_20200101_0102039"));
    reflexivity.
Defined.

End Sources.

Section EpochSource.

Import Js Num DateFns Path MediaDateTime.

Local Open Scope Z_scope.

Lemma ofNumber_epoch_years (t : Z) :
  15 * 10 ^ 11 <= t < 16 * 10 ^ 11 ->
  exists f, ofNumber (Some (Num.Fin t)) = Valid f /\ 2017 <= year f <= 2020.
Proof.
  intros Ht. unfold ofNumber.
  destruct (Z.leb_spec (Z.abs t) 8640000000000000) as [_|?]; [|lia].
  assert (Hday : 17361 <= t / 86400000 <= 17361 + 1157).
  { split; [apply Z.div_le_lower_bound; lia|].
    apply Z.lt_succ_r. apply Z.div_lt_upper_bound; lia. }
  assert (Hall : forallb civilIn2017To2020 (seq 0 1158) = true)
    by (vm_compute; reflexivity).
  rewrite forallb_forall in Hall.
  specialize (Hall (Z.to_nat (t / 86400000 - 17361)) ltac:(apply in_seq; lia)).
  unfold civilIn2017To2020 in Hall.
  replace (17361 + Z.of_nat (Z.to_nat (t / 86400000 - 17361)))
    with (t / 86400000) in Hall by lia.
  destruct (civilFromDays (t / 86400000)) as [[y m] d].
  unfold between in Hall.
  repeat (apply andb_prop in Hall as [Hall ?]).
  repeat match goal with
         | H : (_ <=? _) = true |- _ => apply Z.leb_le in H
         end.
  eexists. split; [reflexivity|]. cbn [year]. lia.
Qed.

(** Where the leftmost match lies: the text before it, the match, the
    text after it; the expression matches at no earlier place. *)
Lemma searchFrom_split (at_ : str -> option str) (x : str) :
  (forall y s, at_ y = Some s -> exists post, y = s ++ post) ->
  forall (i : nat) (m : Re.MatchArray),
  Re.searchFrom at_ i x = Some m ->
  exists pre post,
    x = pre ++ Re.matched m ++ post
    /\ (i + length pre)%nat = Re.index m
    /\ forall j, (j < length pre)%nat -> at_ (drop j x) = None.
Proof.
  intros Hat. induction x as [|c x IH]; intros i m; cbn [Re.searchFrom].
  - destruct (at_ []) as [s|] eqn:Hs; [|discriminate]. intros [= <-].
    destruct (Hat _ _ Hs) as [post Hpost]. exists [], post. cbn.
    split; [exact Hpost|]. split; [lia|]. intros j Hj. lia.
  - destruct (at_ (c :: x)) as [s|] eqn:Hs.
    + intros [= <-]. destruct (Hat _ _ Hs) as [post Hpost]. exists [], post. cbn.
      split; [exact Hpost|]. split; [lia|]. intros j Hj. lia.
    + intros H. destruct (IH _ _ H) as (pre & post & Hx & Hi & Hleft).
      exists (c :: pre), post. cbn [app length]. split; [rewrite Hx at 1; reflexivity|].
      split; [lia|]. intros [|j] Hj; [exact Hs|]. cbn [drop]. apply Hleft. lia.
Qed.

Lemma epochAt_prefix (y s : str) :
  Re.epochAt y = Some s -> exists post, y = s ++ post.
Proof.
  unfold Re.epochAt. destruct (_ && _); [|discriminate]. intros [= <-].
  exists (drop 13 y). symmetry. apply take_drop.
Qed.

(** X8: whenever the epoch source returns a date, the base of the name
    holds a match of [/15\d{11}/], thirteen digits at the leftmost place
    where the expression matches, and the date is the one of the value of
    these digits read as milliseconds since the epoch: a valid date whose
    year, read in UTC, lies between 2017 and 2020. *)
Theorem epoch_date (file : ParsedPath) (d : Date) :
  getDateFromUnixTimestamp file = Ret (Some d) ->
  exists (b pre post : str) (m : Re.MatchArray) (f : Fields),
    baseOf file = Ret b
    /\ Re.matchEpoch b = Some m
    /\ b = pre ++ Re.matched m ++ post
    /\ length pre = Re.index m
    /\ (forall j, (j < length pre)%nat -> Re.epochAt (drop j b) = None)
    /\ length (Re.matched m) = 13%nat
    /\ Forall (fun c => isDigit c = true) (Re.matched m)
    /\ 15 * 10 ^ 11 <= Num.digitsValue (Re.matched m) < 16 * 10 ^ 11
    /\ d = ofNumber (Some (Num.Fin (Num.digitsValue (Re.matched m))))
    /\ d = Valid f /\ 2017 <= year f <= 2020.
Proof.
  unfold getDateFromUnixTimestamp.
  destruct (baseOf file) as [b|]; [|discriminate]. rewrite bind_ret.
  destruct (Re.matchEpoch b) as [m|] eqn:Hm; [|discriminate].
  destruct (1 <? Re.length m)%nat; [discriminate|].
  destruct (searchFrom_split _ b epochAt_prefix _ _ Hm) as (pre & post & Hb & Hi & Hleft).
  pose proof Hm as Hm'.
  apply searchFrom_at in Hm' as [y Hy]. unfold Re.epochAt in Hy.
  destruct (_ && _) eqn:Hc in Hy; [|discriminate]. injection Hy as Hy.
  apply andb_prop in Hc as [Hc Hs]. apply andb_prop in Hc as [Hl Hd].
  apply Nat.eqb_eq in Hl. rewrite Hy in Hl, Hd, Hs.
  unfold substring0. rewrite (take_ge (Re.matched m)) by lia.
  pose proof (epoch_value _ Hl Hd Hs) as Hv.
  assert (Hp : Num.parseInt (Re.matched m)
               = Some (Num.Fin (Num.digitsValue (Re.matched m)))).
  { unfold Num.parseInt. destruct (Re.matched m) as [|c r] eqn:E; [discriminate|].
    assert (Hc : isDigit c = true) by (simpl in Hd; apply andb_prop in Hd; tauto).
    rewrite Hc, takeWhile_all by exact Hd. f_equal. apply ofZ_exact. lia. }
  rewrite Hp. intros [= <-].
  destruct (ofNumber_epoch_years _ Hv) as (f & Hf & Hy').
  exists b, pre, post, m, f.
  split; [reflexivity|]. split; [exact Hm|]. split; [exact Hb|].
  split; [exact Hi|]. split; [exact Hleft|]. split; [exact Hl|].
  split; [apply forallb_Forall, Hd|]. split; [exact Hv|].
  split; [reflexivity|]. split; [exact Hf|exact Hy'].
Qed.

Lemma epoch_date_witness :
  exists (b pre post : str) (m : Re.MatchArray) (f : Fields),
    baseOf (parse (lit "/media/IMG_1500000000000_photo.jpg")) = Ret b
    /\ Re.matchEpoch b = Some m
    /\ b = pre ++ Re.matched m ++ post
    /\ length pre = Re.index m
    /\ (forall j, (j < length pre)%nat -> Re.epochAt (drop j b) = None)
    /\ length (Re.matched m) = 13%nat
    /\ Forall (fun c => isDigit c = true) (Re.matched m)
    /\ 15 * 10 ^ 11 <= Num.digitsValue (Re.matched m) < 16 * 10 ^ 11
    /\ Valid (mkFields 2017 7 14 2 40 0)
       = ofNumber (Some (Num.Fin (Num.digitsValue (Re.matched m))))
    /\ Valid (mkFields 2017 7 14 2 40 0) = Valid f /\ 2017 <= year f <= 2020.
Proof.
  apply (epoch_date (parse (lit "/media/IMG_1500000000000_photo.jpg"))). reflexivity.
Defined.

End EpochSource.

Section Metadata.

Import Js Path MediaDateTime.

Lemma takeWhile_cut (P : ascii -> bool) (x : str) :
  x = takeWhile P x
  \/ exists c t, x = takeWhile P x ++ c :: t /\ P c = false.
Proof.
  induction x as [|c x IH]; [left; reflexivity|]. cbn.
  destruct (P c) eqn:E.
  - destruct IH as [IH|(c' & t & IH & Hc)].
    + left. congruence.
    + right. exists c', t. split; [cbn; congruence|exact Hc].
  - right. exists c, x. split; [reflexivity|exact E].
Qed.

Lemma notColon_true (c : ascii) : Spec.notColon c = true -> c <> ":"%char.
Proof.
  unfold Spec.notColon. intros H ->.
  rewrite bool_decide_eq_true_2 in H by reflexivity. discriminate.
Qed.

Lemma notColon_false (c : ascii) : Spec.notColon c = false -> c = ":"%char.
Proof.
  unfold Spec.notColon. intros H. apply negb_false_iff in H.
  apply bool_decide_eq_true_1 in H. exact H.
Qed.

(** One line of the output sets its key to its value. *)
Lemma exifLine_insert (m : ExifMap) (line : str) :
  exifLine m line = <[Spec.lineKey line := Spec.lineValue line]> m.
Proof.
  unfold exifLine, Spec.lineKey, Spec.lineValue.
  assert (Hk' : Forall (fun a => a <> ":"%char) (takeWhile Spec.notColon line)).
  { eapply Forall_impl; [apply takeWhile_holds|]. exact notColon_true. }
  destruct (takeWhile_cut Spec.notColon line) as [E|(c & t & E & Hc)];
    remember (takeWhile Spec.notColon line) as k eqn:Ek; clear Ek.
  - rewrite E. rewrite (splitChar_none _ _ Hk'). cbn [Js.join].
    rewrite drop_ge by lia. reflexivity.
  - apply notColon_false in Hc. subst c.
    rewrite E. rewrite splitChar_app, (splitChar_none _ _ Hk'). cbn [app].
    change (lit ":") with [":"%char]. rewrite join_splitChar.
    replace (S (length k)) with (length (k ++ [":"%char]))
      by (rewrite length_app; cbn; lia).
    replace (k ++ ":"%char :: t) with ((k ++ [":"%char]) ++ t)
      by (rewrite <- app_assoc; reflexivity).
    rewrite drop_app_length. reflexivity.
Qed.

Lemma fold_exifLine_lookup (key : str) (lines : list str) :
  forall m0 : ExifMap,
  fold_left exifLine lines m0 !! key
  = match last (filter (fun l => Spec.lineKey l = key) lines) with
    | Some l => Some (Spec.lineValue l)
    | None => m0 !! key
    end.
Proof.
  induction lines as [|l ls IH]; intros m0; [reflexivity|].
  cbn [fold_left]. rewrite IH, exifLine_insert. rewrite filter_cons.
  destruct (decide (Spec.lineKey l = key)) as [Hl|Hl].
  - rewrite last_cons.
    destruct (last (filter (fun l0 => Spec.lineKey l0 = key) ls)); [reflexivity|].
    rewrite <- Hl, lookup_insert_eq. reflexivity.
  - destruct (last (filter (fun l0 => Spec.lineKey l0 = key) ls)); [reflexivity|].
    apply lookup_insert_ne. exact Hl.
Qed.

(** X9: the map that [#getExif] builds holds, under each key, the value
    of the last line of the output that has this key, and nothing under a
    key that no line has.  The key of a line is its text before the first
    colon, trimmed and without white space; its value is the text after
    the first colon, trimmed, further colons included. *)
Theorem getExif_lookup (w : World) (p out : str) :
  exiftool w p = Some out ->
  exists m, getExif w p = Ret m
    /\ forall key,
         m !! key
         = Spec.lineValue
             <$> last (filter (fun l => Spec.lineKey l = key)
                         (splitChar (ascii_of_nat 10) out)).
Proof.
  intros Ho. unfold getExif. rewrite Ho. eexists. split; [reflexivity|].
  intros key. rewrite fold_exifLine_lookup.
  destruct (last _); reflexivity.
Qed.

Lemma getExif_lookup_witness :
  exists m, getExif (Ex.world2020 []) (lit "/d/a.jpg") = Ret m
    /\ forall key,
         m !! key
         = Spec.lineValue
             <$> last (filter (fun l => Spec.lineKey l = key)
                         (splitChar (ascii_of_nat 10) (Ex.exifOutput (lit "2020:01:01 01:02:03")))).
Proof. apply getExif_lookup. reflexivity. Defined.

(** X10: [#getDateFromExif] returns nothing when the map has no
    [CreateDate]; otherwise it parses the value up to its first dot, so
    that fractions of a second and what follows them are ignored. *)
Theorem getDateFromExif_text (file : ParsedPath) (m : ExifMap) :
  (m !! lit "CreateDate" = None -> getDateFromExif file m = None)
  /\ (forall v, m !! lit "CreateDate" = Some v ->
        Forall (fun c => c <> "."%char) v ->
        getDateFromExif file m = Some (DateFns.parse v DateFns.exifPattern))
  /\ (forall v t, m !! lit "CreateDate" = Some (v ++ "."%char :: t) ->
        Forall (fun c => c <> "."%char) v ->
        getDateFromExif file m = Some (DateFns.parse v DateFns.exifPattern)).
Proof.
  unfold getDateFromExif. repeat split.
  - intros ->. reflexivity.
  - intros v -> Hv. rewrite (splitChar_none _ _ Hv). reflexivity.
  - intros v t -> Hv. rewrite splitChar_app, (splitChar_none _ _ Hv). reflexivity.
Qed.

End Metadata.

Section DirectoryCache.

Import Js Num DateFns Path MediaDateTime.

(** X11: looking a directory up a second time returns the same set and
    changes nothing; a lookup leaves the index map and the cache of every
    other directory as they were; a directory that cannot be listed is
    cached as the empty set, and one that can holds the lower-case forms
    of its entries. *)
Theorem getDirCache_cached (w : World) (d : str) (st : State) :
  getDirCache w d (getDirCache w d st).2 = getDirCache w d st
  /\ indexMap (getDirCache w d st).2 = indexMap st
  /\ (forall d', d' <> d ->
        dirCache (getDirCache w d st).2 !! d' = dirCache st !! d')
  /\ (dirCache st !! d = None -> readdirSync w d = None ->
        (getDirCache w d st).1 = ∅)
  /\ (forall entries, dirCache st !! d = None -> readdirSync w d = Some entries ->
        forall n, n ∈ (getDirCache w d st).1
                  <-> exists x, x ∈ entries /\ n = toLowerCase x).
Proof.
  unfold getDirCache. destruct (dirCache st !! d) as [K|] eqn:HK.
  - cbn [fst snd]. rewrite HK. repeat split; try discriminate.
  - cbn [fst snd dirCache indexMap]. rewrite lookup_insert_eq.
    split; [reflexivity|]. split; [reflexivity|]. split; [|split].
    + intros d' Hd. apply lookup_insert_ne. congruence.
    + intros _ ->. reflexivity.
    + intros entries _ -> n. cbn [tryCatch]. rewrite elem_of_list_to_set.
      rewrite list_elem_of_fmap. split; intros (x & H1 & H2); exists x; tauto.
Qed.

(** X12: after [#addToDirCache(dir, name)] a lookup of [dir] returns the
    set it returned before with [name] added, without listing the
    directory again; the index map and the other directories of the cache
    are unchanged. *)
Theorem addToDirCache_lookup (w : World) (d n : str) (st : State) :
  getDirCache w d (addToDirCache w d n st)
  = ((getDirCache w d st).1 ∪ {[n]}, addToDirCache w d n st)
  /\ readdirLog (addToDirCache w d n st) = readdirLog (getDirCache w d st).2
  /\ indexMap (addToDirCache w d n st) = indexMap st
  /\ (forall d', d' <> d ->
        dirCache (addToDirCache w d n st) !! d' = dirCache st !! d').
Proof.
  unfold addToDirCache. rewrite (getDirCache_eq w d st), getDirCache_snd.
  cbn [fst snd dirCache indexMap readdirLog]. split; [|split; [|split]].
  - unfold getDirCache at 1. cbn [dirCache]. rewrite lookup_insert_eq. reflexivity.
  - reflexivity.
  - reflexivity.
  - intros d' Hd. rewrite !lookup_insert_ne by congruence. reflexivity.
Qed.

Lemma indexLe_refl (a : number) : Spec.indexLe a a.
Proof. destruct a; cbn; [lia|exact I]. Qed.

Lemma indexLe_trans (a b c : number) : Spec.indexLe a b -> Spec.indexLe b c -> Spec.indexLe a c.
Proof. destruct a, b, c; cbn; try tauto; lia. Qed.

Lemma indexLe_max_l (a b : number) : Spec.indexLe a (Num.max a b).
Proof. destruct a, b; cbn; try exact I; lia. Qed.

Lemma indexLe_max_r (a b : number) : Spec.indexLe b (Num.max a b).
Proof. destruct a, b; cbn; try exact I; lia. Qed.

Lemma max_cases (a b : number) : Num.max a b = a \/ Num.max a b = b.
Proof.
  destruct a as [x|], b as [y|]; cbn; auto.
  destruct (Z.max_spec x y) as [[_ ->]|[_ ->]]; auto.
Qed.

Lemma suffixStep_suffixOf (T e name : str) (m : number) :
  suffixStep T e name m
  = match Spec.suffixOf T e name with
    | Some n => Num.max m n
    | None => m
    end.
Proof.
  unfold suffixStep, Spec.suffixOf.
  destruct (Re.matchSuffix T e name) as [[m1|]|]; reflexivity.
Qed.

End DirectoryCache.

Section InitialIndex.

Import Js Num DateFns Path MediaDateTime.

Local Open Scope Z_scope.

(** A text without line terminator matches itself, its dots read as
    wild cards or not. *)
Lemma matchChars_refl (x : str) : Re.matchChars x x = Some [].
Proof.
  induction x as [|c x IH]; [reflexivity|]. cbn [Re.matchChars].
  destruct (bool_decide (c = "."%char)) eqn:E.
  - apply bool_decide_eq_true_1 in E. subst c.
    change (isLineTerminator ".") with false. exact IH.
  - rewrite bool_decide_eq_true_2 by reflexivity. exact IH.
Qed.

Lemma fullMatch_refl (x : str) : Re.fullMatch x x = true.
Proof. unfold Re.fullMatch. rewrite matchChars_refl. reflexivity. Qed.

(** The dot of the extension is not escaped in the expression: any
    character but a line terminator stands for it. *)
Lemma fullMatch_wild (c : ascii) (e' : str) :
  isLineTerminator c = false -> Re.fullMatch (dot :: e') (c :: e') = true.
Proof.
  intros Hc. unfold Re.fullMatch. cbn [Re.matchChars].
  rewrite (bool_decide_eq_true_2 (dot = "."%char)) by reflexivity.
  rewrite Hc, matchChars_refl. reflexivity.
Qed.

Lemma matchSuffix_numbered (T e x ds : str) :
  Forall (fun c => stampChar c = true) T ->
  ds <> [] -> Forall (fun c => isDigit c = true) ds ->
  length x = length e -> Re.fullMatch e x = true ->
  Re.matchSuffix T e (T ++ "_"%char :: ds ++ x) = Some (Some ds).
Proof.
  intros HT Hne Hd Hl Hm. unfold Re.matchSuffix. rewrite (matchChars_self T _ HT).
  rewrite (bool_decide_eq_true_2 ("_"%char = "_"%char)) by reflexivity.
  rewrite length_app, Hl.
  replace (length ds + length e - length e)%nat with (length ds) by lia.
  rewrite take_app_length, drop_app_length, Hm, (Forall_forallb _ _ Hd).
  destruct ds; [contradiction|]. reflexivity.
Qed.

Lemma decimal_nonempty (k : Z) : 1 <= k -> decimal k <> [].
Proof.
  intros Hk E. pose proof (digitsValue_decimal k ltac:(lia)) as H.
  rewrite E in H. cbn in H. lia.
Qed.

Lemma parseInt_decimal (k : Z) :
  1 <= k < 2 ^ 53 -> Num.parseInt (decimal k) = Some (Fin k).
Proof.
  intros Hk. unfold Num.parseInt.
  pose proof (decimal_digits k) as Hd. pose proof (decimal_nonempty k ltac:(lia)) as Hne.
  destruct (decimal k) as [|c r] eqn:E; [contradiction|].
  inversion Hd as [|? ? Hc Hr]; subst. rewrite Hc.
  rewrite takeWhile_all by (apply Forall_forallb; exact Hd).
  rewrite <- E, digitsValue_decimal by lia. rewrite ofZ_exact by lia. reflexivity.
Qed.

Lemma suffixOf_numbered (T e x : str) (k : Z) :
  Forall (fun c => stampChar c = true) T ->
  1 <= k < 2 ^ 53 ->
  length x = length e -> Re.fullMatch e x = true ->
  Spec.suffixOf T e (T ++ "_"%char :: decimal k ++ x) = Some (Fin k).
Proof.
  intros HT Hk Hl Hm. unfold Spec.suffixOf.
  rewrite matchSuffix_numbered;
    [apply parseInt_decimal, Hk|exact HT|apply decimal_nonempty; lia
    |apply decimal_digits|exact Hl|exact Hm].
Qed.

(** The index computed from the names of a directory bounds the suffix of
    each of them. *)
Lemma set_fold_suffixStep (T e : str) (X : gset str) :
  Spec.indexLe (Fin (-1)) (set_fold (suffixStep T e) (Fin (-1)) X)
  /\ (forall name n, name ∈ X -> Spec.suffixOf T e name = Some n ->
        Spec.indexLe n (set_fold (suffixStep T e) (Fin (-1)) X))
  /\ (set_fold (suffixStep T e) (Fin (-1)) X = Fin (-1)
      \/ exists name, name ∈ X
           /\ Spec.suffixOf T e name = Some (set_fold (suffixStep T e) (Fin (-1)) X)).
Proof.
  apply (set_fold_ind_L
           (fun (r : number) (X : gset str) =>
              Spec.indexLe (Fin (-1)) r
              /\ (forall name n, name ∈ X -> Spec.suffixOf T e name = Some n -> Spec.indexLe n r)
              /\ (r = Fin (-1)
                  \/ exists name, name ∈ X /\ Spec.suffixOf T e name = Some r))).
  - split; [apply indexLe_refl|]. split; [|left; reflexivity].
    intros name n Hin. apply elem_of_empty in Hin. contradiction.
  - intros x Y r Hx (H1 & H2 & H3). rewrite suffixStep_suffixOf.
    destruct (Spec.suffixOf T e x) as [nx|] eqn:Hsx.
    + split; [eapply indexLe_trans; [exact H1|apply indexLe_max_l]|]. split.
      * intros name n Hin Hs. apply elem_of_union in Hin. destruct Hin as [Hin|Hin].
        -- apply elem_of_singleton in Hin. subst name.
           rewrite Hsx in Hs. injection Hs as <-. apply indexLe_max_r.
        -- eapply indexLe_trans; [exact (H2 name n Hin Hs)|apply indexLe_max_l].
      * destruct (max_cases r nx) as [-> | ->].
        -- destruct H3 as [-> | (name & Hin & Hs)]; [left; reflexivity|].
           right. exists name. split; [|exact Hs].
           apply elem_of_union. right. exact Hin.
        -- right. exists x. split; [|exact Hsx].
           apply elem_of_union. left. apply elem_of_singleton. reflexivity.
    + split; [exact H1|]. split.
      * intros name n Hin Hs. apply elem_of_union in Hin. destruct Hin as [Hin|Hin].
        -- apply elem_of_singleton in Hin. subst name. congruence.
        -- exact (H2 name n Hin Hs).
      * destruct H3 as [-> | (name & Hin & Hs)]; [left; reflexivity|].
        right. exists name. split; [|exact Hs].
        apply elem_of_union. right. exact Hin.
Qed.

(** X13: [#computeInitialIndex] returns the maximum of [-1] and of the
    suffixes of the known names of the directory that the expression
    matches, whatever the order in which the set is traversed: it is at
    least [-1] and at least every suffix, and it is [-1] or the suffix of
    one of the names.  Its state is the one of the cache lookup. *)
Theorem computeInitialIndex_max (w : World) (d T e : str) (st : State) :
  let set := (getDirCache w d st).1 in
  let r := (computeInitialIndex w d T e st).1 in
  (computeInitialIndex w d T e st).2 = (getDirCache w d st).2
  /\ Spec.indexLe (Fin (-1)) r
  /\ (forall name n, name ∈ set -> Spec.suffixOf T e name = Some n -> Spec.indexLe n r)
  /\ (r = Fin (-1)
      \/ exists name, name ∈ set /\ Spec.suffixOf T e name = Some r).
Proof.
  intros set r. unfold computeInitialIndex in *. subst r.
  rewrite (getDirCache_eq w d st). fold set. cbn [fst snd].
  split; [reflexivity|]. apply set_fold_suffixStep.
Qed.

(** X14: a known name [T_k?ext], where [?] is the dot of the extension
    or any other character but a line terminator (the dot is not escaped
    in the expression), makes the initial index at least [k]. *)
Theorem computeInitialIndex_skips (w : World) (d e' : str) (st : State)
    (date : Date) (T : str) (k : Z) (c : ascii) :
  format date = Ret T ->
  1 <= k < 2 ^ 53 ->
  isLineTerminator c = false ->
  T ++ "_"%char :: decimal k ++ c :: e' ∈ (getDirCache w d st).1 ->
  Spec.indexLe (Fin k) (computeInitialIndex w d T (dot :: e') st).1.
Proof.
  intros HT Hk Hc Hin. unfold computeInitialIndex.
  rewrite (getDirCache_eq w d st). cbn [fst].
  destruct (set_fold_suffixStep T (dot :: e') (getDirCache w d st).1) as (_ & H & _).
  apply (H _ _ Hin). apply suffixOf_numbered.
  - exact (format_chars _ _ HT).
  - exact Hk.
  - reflexivity.
  - apply fullMatch_wild, Hc.
Qed.

Lemma computeInitialIndex_skips_witness :
  Spec.indexLe (Fin 12)
    (computeInitialIndex (Ex.world2020 [lit "20200101_010203_12xJPG"]) (lit "/d")
       Ex.stamp2020 (dot :: lit "jpg") init).1.
Proof.
  apply (computeInitialIndex_skips _ _ _ _ (Valid (mkFields 2020 1 1 1 2 3)) _ 12 "x"%char).
  - reflexivity.
  - lia.
  - reflexivity.
  - apply elem_of_by_compute. vm_compute. reflexivity.
Defined.

End InitialIndex.

Section Numbering.

Import Js Num DateFns Path MediaDateTime.

Local Open Scope Z_scope.

Lemma matchSuffix_base (T e : str) :
  Forall (fun c => stampChar c = true) T -> Re.matchSuffix T e (T ++ e) <> None.
Proof.
  intros HT. unfold Re.matchSuffix. rewrite (matchChars_self T e HT).
  rewrite fullMatch_refl. destruct e as [|c r]; [discriminate|].
  destruct (_ && _); discriminate.
Qed.

Lemma matchSuffix_candidate (T e : str) (j : Z) :
  Forall (fun c => stampChar c = true) T ->
  -1 <= j -> j + 1 < 2 ^ 53 -> Re.matchSuffix T e (candidate T e (Fin j)) <> None.
Proof.
  intros HT H1 H2. destruct (Z.ltb_spec j 0).
  - rewrite candidate_neg by lia. exact (matchSuffix_base T e HT).
  - rewrite candidate_nonneg by lia.
    rewrite matchSuffix_numbered;
      [discriminate|exact HT|apply decimal_nonempty; lia|apply decimal_digits
      |reflexivity|apply fullMatch_refl].
Qed.

Lemma in_firstCandidates (T e : str) (k : nat) (x : str) :
  x ∈ Spec.firstCandidates T e k
  <-> exists j : nat, (j < k)%nat /\ x = candidate T e (Fin (Z.of_nat j - 1)).
Proof.
  induction k as [|k IH]; cbn [Spec.firstCandidates].
  - split; [intros H; apply elem_of_empty in H; contradiction|].
    intros (j & Hj & _). lia.
  - rewrite elem_of_union, elem_of_singleton, IH. split.
    + intros [(j & Hj & ->) | ->]; [exists j|exists k]; split; try reflexivity; lia.
    + intros (j & Hj & ->). destruct (decide (j = k)) as [->|Hne].
      * right. reflexivity.
      * left. exists j. split; [lia|reflexivity].
Qed.

Lemma candidate_neq (T e : str) (i j : Z) :
  -1 <= i < j -> j + 1 < 2 ^ 53 -> candidate T e (Fin i) <> candidate T e (Fin j).
Proof.
  intros Hi Hj Heq. destruct (Z.ltb_spec i 0).
  - rewrite candidate_neg, candidate_nonneg in Heq by lia.
    apply app_inv_head in Heq. apply (f_equal (@length ascii)) in Heq.
    cbn in Heq. rewrite length_app in Heq. lia.
  - apply candidate_inj in Heq; lia.
Qed.

Lemma indexStr_suffixText (k : nat) :
  Z.of_nat k < 2 ^ 53 ->
  indexStr (Fin (Z.of_nat k - 1)) = Spec.suffixText k.
Proof.
  intros Hk. destruct k as [|k]; [reflexivity|].
  unfold indexStr, Spec.suffixText. cbn [ltZero].
  destruct (Z.ltb_spec (Z.of_nat (S k) - 1) 0); [lia|].
  rewrite add1_exact by lia. rewrite toString_small by lia.
  replace (Z.of_nat (S k) - 1 + 1) with (Z.of_nat (S k)) by lia. reflexivity.
Qed.

Variable w : World.
Variables d T e : str.

Hypothesis Hpre : Spec.preexisting w (d, T, e) = [].
Hypothesis HT : Forall (fun c => stampChar c = true) T.

Local Abbreviation listed :=
  (list_to_set (map toLowerCase (Spec.listing w d)) : gset str).

Lemma listed_no_match (x : str) :
  x ∈ listed -> Re.matchSuffix T e x = None.
Proof.
  intros Hin. apply elem_of_list_to_set, list_elem_of_fmap in Hin.
  destruct Hin as (n & -> & Hn).
  destruct (Re.matchSuffix T e (toLowerCase n)) eqn:E; [|reflexivity]. exfalso.
  assert (Hp : n ∈ Spec.preexisting w (d, T, e)).
  { unfold Spec.preexisting. apply list_elem_of_filter. split; [congruence|exact Hn]. }
  rewrite Hpre in Hp. inversion Hp.
Qed.

Lemma candidate_not_listed (j : Z) :
  -1 <= j -> j + 1 < 2 ^ 53 -> candidate T e (Fin j) ∉ listed.
Proof.
  intros H1 H2 Hin. apply listed_no_match in Hin.
  exact (matchSuffix_candidate T e j HT H1 H2 Hin).
Qed.

Lemma set_fold_listed : set_fold (suffixStep T e) (Fin (-1)) listed = Fin (-1).
Proof.
  destruct (set_fold_suffixStep T e listed) as (_ & _ & [H|(name & Hin & Hs)]);
    [exact H|].
  apply listed_no_match in Hin. unfold Spec.suffixOf in Hs. rewrite Hin in Hs.
  discriminate.
Qed.

Lemma firstFree_numbered (fuel : nat) (k : nat) :
  (2 <= fuel)%nat ->
  Z.of_nat k + 1 < 2 ^ 53 ->
  firstFree fuel (listed ∪ Spec.firstCandidates T e k) T e
    (match k with
     | O => Fin (-1)
     | S k' => Fin (Z.of_nat k' - 1)
     end)
  = Some (Fin (Z.of_nat k - 1)).
Proof.
  intros Hfuel Hk.
  assert (Hfree : candidate T e (Fin (Z.of_nat k - 1))
                  ∉ listed ∪ Spec.firstCandidates T e k).
  { intros Hin. apply elem_of_union in Hin. destruct Hin as [Hin|Hin].
    - revert Hin. apply candidate_not_listed; lia.
    - apply in_firstCandidates in Hin. destruct Hin as (j & Hj & Heq).
      symmetry in Heq. revert Heq. apply candidate_neq; lia. }
  apply (firstFree_at_least 2); [|exact Hfuel].
  destruct k as [|k'].
  - rewrite firstFree_S. rewrite bool_decide_eq_false_2 by exact Hfree. reflexivity.
  - rewrite firstFree_S. rewrite bool_decide_eq_true_2.
    2:{ apply elem_of_union. right. apply in_firstCandidates.
        exists k'. split; [lia|reflexivity]. }
    rewrite add1_exact by lia. rewrite firstFree_S.
    replace (Z.of_nat k' - 1 + 1) with (Z.of_nat (S k') - 1) by lia.
    rewrite bool_decide_eq_false_2 by exact Hfree. reflexivity.
Qed.

Lemma replace_numbered (fuel : nat) (k : nat) (st : State) (p : str) :
  (2 <= fuel)%nat ->
  Spec.numberedUpTo w d T e k st ->
  Spec.keyOf w p = Some (d, T, e) ->
  Z.of_nat k + 1 < 2 ^ 53 ->
  exists st',
    replace w fuel st p
    = Some (Ret (join [d; T ++ Spec.suffixText k ++ ext (parse p)]), st')
    /\ Spec.numberedUpTo w d T e (S k) st'.
Proof.
  intros Hfuel [HK HI] Hkey Hk.
  destruct (replace_keyOf_some w fuel st _ _ _ _ Hkey) as (Hd & He & ->).
  rewrite assignName_eq, <- Hd, <- He, HK, HI.
  assert (Hstart : match k with
                   | O => set_fold (suffixStep T e) (Fin (-1))
                            (listed ∪ Spec.firstCandidates T e 0)
                   | S k' => Fin (Z.of_nat k' - 1)
                   end
                   = match k with
                     | O => Fin (-1)
                     | S k' => Fin (Z.of_nat k' - 1)
                     end).
  { destruct k; [|reflexivity]. cbn [Spec.firstCandidates].
    rewrite (right_id_L ∅ (∪)). apply set_fold_listed. }
  replace (match match k with
                 | O => None
                 | S k' => Some (Fin (Z.of_nat k' - 1))
                 end with
           | Some v => v
           | None => set_fold (suffixStep T e) (Fin (-1))
                       (listed ∪ Spec.firstCandidates T e k)
           end)
    with (match k with
          | O => Fin (-1)
          | S k' => Fin (Z.of_nat k' - 1)
          end)
    by (destruct k; [symmetry; exact Hstart|reflexivity]).
  rewrite (firstFree_numbered fuel k Hfuel Hk), (indexStr_suffixText k ltac:(lia)).
  eexists. split; [reflexivity|]. split.
  - unfold Spec.knownNames. cbn [dirCache]. rewrite lookup_insert_eq.
    cbn [Spec.firstCandidates]. rewrite candidate_indexStr, (indexStr_suffixText k ltac:(lia)).
    rewrite (assoc_L (∪)). reflexivity.
  - cbn [indexMap]. rewrite lookup_insert_eq. reflexivity.
Qed.

Lemma run_numbered (fuel : nat) (paths : list str) :
  (2 <= fuel)%nat ->
  forall (k : nat) (st : State),
  Spec.numberedUpTo w d T e k st ->
  Forall (fun p => Spec.keyOf w p = Some (d, T, e)) paths ->
  Z.of_nat k + Z.of_nat (length paths) < 2 ^ 53 ->
  exists st', run w fuel st paths = Some (Spec.numbered d T k paths, st').
Proof.
  intros Hfuel. induction paths as [|p ps IH]; intros k st Hinv Hall Hk.
  - eexists. reflexivity.
  - inversion Hall as [|? ? Hp Hps]; subst. cbn [length] in Hk.
    destruct (replace_numbered fuel k st p Hfuel Hinv Hp ltac:(lia)) as (st1 & Hr & Hinv1).
    destruct (IH (S k) st1 Hinv1 Hps ltac:(lia)) as (st2 & Hrun).
    exists st2. cbn [run Spec.numbered]. rewrite Hr, Hrun. reflexivity.
Qed.

End Numbering.

Section NumberingTheorems.

Import Js Num DateFns Path MediaDateTime.

Local Open Scope Z_scope.

(** X15: in a directory whose listing holds no name of the bucket, the
    files of one bucket are numbered in the order of the calls: the first
    one gets no suffix, the following ones [_1], [_2], ..., and each keeps
    its own extension. *)
Theorem sequential_suffixes (w : World) (d T e : str) (paths : list str) (fuel : nat) :
  Spec.preexisting w (d, T, e) = [] ->
  Forall (fun p => Spec.keyOf w p = Some (d, T, e)) paths ->
  (2 <= fuel)%nat ->
  Z.of_nat (length paths) < 2 ^ 53 ->
  Ex.outputs (run w fuel init paths) = Some (Spec.numbered d T 0 paths).
Proof.
  intros Hpre Hall Hfuel Hlen.
  destruct paths as [|p ps]; [reflexivity|].
  assert (HT : Forall (fun c => stampChar c = true) T).
  { inversion Hall as [|? ? Hp _]; subst.
    destruct (keyOf_inv _ _ _ _ _ Hp) as (_ & _ & _ & f & _ & Hf).
    exact (format_chars _ _ Hf). }
  destruct (run_numbered w d T e Hpre HT fuel (p :: ps) Hfuel 0%nat init) as (st' & ->).
  - split; [|apply lookup_empty].
    unfold Spec.knownNames. cbn [init dirCache]. rewrite lookup_empty.
    cbn [Spec.firstCandidates]. rewrite (right_id_L ∅ (∪)). reflexivity.
  - exact Hall.
  - lia.
  - reflexivity.
Qed.

Lemma sequential_suffixes_witness :
  Ex.outputs (run (Ex.world (lit "2019:07:04 08:09:10") [lit "notes.txt"]) 2 init
                [lit "/photos/a.jpg"; lit "/photos/b.JPG"; lit "/photos/c.jpg"])
  = Some (Spec.numbered (lit "/photos") (lit "20190704_080910") 0
            [lit "/photos/a.jpg"; lit "/photos/b.JPG"; lit "/photos/c.jpg"]).
Proof.
  apply (sequential_suffixes _ _ _ (lit ".jpg")).
  - vm_compute. reflexivity.
  - repeat constructor; vm_compute; reflexivity.
  - lia.
  - cbn. lia.
Defined.

End NumberingTheorems.

Section Extensions.

Import Js Num DateFns Path MediaDateTime.

(** X16: the path that [replace] returns has the extension of the input,
    in the same letter case. *)
Theorem replace_keeps_extension (w : World) (fuel : nat) (st st' : State) (p q : str) :
  replace w fuel st p = Some (Ret q, st') ->
  ext (parse q) = ext (parse p).
Proof.
  intros H. destruct (Spec.keyOf w p) as [[[d T] e]|] eqn:Hk.
  - destruct (replace_keyOf_some w fuel st _ _ _ _ Hk) as (Hd & He & Hr).
    rewrite Hr in H.
    destruct (assignName w fuel st (parse p) T) as [[q' s]|] eqn:Ha; [|discriminate].
    injection H as -> ->.
    destruct (assignName_spec _ _ _ _ _ _ _ Ha) as (idx & start & _ & _ & _ & -> & _).
    destruct (emitted_parse w p d T e idx Hk) as (_ & _ & _ & Hx & _).
    subst d. exact Hx.
  - rewrite (replace_keyOf_none w fuel st p Hk) in H. congruence.
Qed.

Lemma replace_keeps_extension_witness :
  ext (parse (lit "/photos/20211225_142359.JPG")) = ext (parse (lit "/photos/IMG_1234.JPG")).
Proof.
  apply (replace_keeps_extension (Ex.world (lit "2021:12:25 14:23:59.123+02:00") []) 9
           init
           (Ex.finalState (run (Ex.world (lit "2021:12:25 14:23:59.123+02:00") []) 9 init
                             [lit "/photos/IMG_1234.JPG"]))).
  vm_compute. reflexivity.
Defined.



Lemma ext_no_slash (p : str) : Forall (fun c => c <> slash) (ext (parse p)).
Proof.
  destruct (ext_shape p) as [->|(e' & -> & _ & Hs)]; constructor;
    [discriminate|exact Hs].
Qed.




End Extensions.

Section UncachedRevision.

Import Js Num DateFns Path MediaDateTime.

Local Open Scope Z_scope.

Lemma countKey_app (w : World) (key : str) (a b : list str) :
  Spec.countKey w key (a ++ b)
  = (Spec.countKey w key a + Spec.countKey w key b)%nat.
Proof. induction a as [|p a IH]; cbn; [reflexivity|]. rewrite IH. lia. Qed.

Lemma countKey_le (w : World) (key : str) (a : list str) :
  (Spec.countKey w key a <= length a)%nat.
Proof.
  induction a as [|p a IH]; cbn; [lia|].
  destruct (decide (Spec.baseKeyOf w p = Some key)); lia.
Qed.

Lemma Uncached_replace_none (w : World) (m : gmap str number) (p : str) :
  Spec.keyOf w p = None -> Uncached.replace w m p = (Ret p, m).
Proof.
  unfold Spec.keyOf, Uncached.replace.
  destruct (tryCatch _ None) as [d|]; [|reflexivity].
  destruct (DateFns.format d); [discriminate|reflexivity].
Qed.

Lemma Uncached_replace_some (w : World) (m : gmap str number) (p d T e : str) :
  Spec.keyOf w p = Some (d, T, e) ->
  Uncached.replace w m p
  = (Ret (join [d; T ++ match m !! join [d; T ++ e] with
                       | None => []
                       | Some index => "_"%char :: toString (add1 index)
                       end ++ ext (parse p)]),
     <[join [d; T ++ e] := add1 (default (Fin (-1)) (m !! join [d; T ++ e]))]> m).
Proof.
  unfold Spec.keyOf, Uncached.replace.
  destruct (tryCatch _ None) as [date|]; [|discriminate].
  destruct (DateFns.format date); [|discriminate].
  intros [= <- <- <-]. reflexivity.
Qed.

Lemma Uncached_replace_counted (w : World) (seen : list str) (m : gmap str number)
    (p : str) :
  Spec.counted w seen m ->
  Z.of_nat (length seen) + 1 < 2 ^ 53 ->
  (Uncached.replace w m p).1
  = match Spec.keyOf w p with
    | Some (d, T, e) =>
        Ret (join [d; T ++ Spec.suffixText (Spec.countKey w (join [d; T ++ e]) seen)
                      ++ ext (parse p)])
    | None => Ret p
    end
  /\ Spec.counted w (seen ++ [p]) (Uncached.replace w m p).2.
Proof.
  intros Hinv Hlen.
  destruct (Spec.keyOf w p) as [[[d T] e]|] eqn:Hk.
  - rewrite (Uncached_replace_some w m p d T e Hk). cbn [fst snd].
    pose proof (Hinv (join [d; T ++ e])) as Hbk.
    pose proof (countKey_le w (join [d; T ++ e]) seen) as Hc.
    split.
    + rewrite Hbk. destruct (Spec.countKey w (join [d; T ++ e]) seen) as [|c];
        [reflexivity|].
      rewrite add1_exact by lia. rewrite toString_small by lia.
      unfold Spec.suffixText.
      replace (Z.of_nat c + 1) with (Z.of_nat (S c)) by lia. reflexivity.
    + intros key. rewrite countKey_app. cbn [Spec.countKey].
      assert (Hbko : Spec.baseKeyOf w p = Some (join [d; T ++ e]))
        by (unfold Spec.baseKeyOf; rewrite Hk; reflexivity).
      destruct (decide (Spec.baseKeyOf w p = Some key)) as [Heq|Hne];
        rewrite Hbko in *.
      * injection Heq as <-. rewrite lookup_insert_eq, Hbk.
        destruct (Spec.countKey w (join [d; T ++ e]) seen) as [|c].
        -- reflexivity.
        -- change (default (Fin (-1)) (Some (Fin (Z.of_nat c)))) with (Fin (Z.of_nat c)).
           rewrite add1_exact by lia.
           replace (S c + (1 + 0))%nat with (S (S c)) by lia.
           replace (Z.of_nat c + 1) with (Z.of_nat (S c)) by lia. reflexivity.
      * rewrite lookup_insert_ne by congruence. rewrite Hinv.
        replace (Spec.countKey w key seen + (0 + 0))%nat
          with (Spec.countKey w key seen) by lia.
        reflexivity.
  - rewrite (Uncached_replace_none w m p Hk). cbn [fst snd]. split; [reflexivity|].
    intros key. rewrite countKey_app. cbn [Spec.countKey].
    assert (Hbko : Spec.baseKeyOf w p = None)
      by (unfold Spec.baseKeyOf; rewrite Hk; reflexivity).
    destruct (decide (Spec.baseKeyOf w p = Some key)) as [Heq|_];
      [rewrite Hbko in Heq; discriminate|].
    replace (Spec.countKey w key seen + (0 + 0))%nat
      with (Spec.countKey w key seen) by lia.
    apply Hinv.
Qed.

Lemma Uncached_run_counted (w : World) (paths : list str) :
  forall (seen : list str) (m : gmap str number),
  Spec.counted w seen m ->
  Z.of_nat (length seen) + Z.of_nat (length paths) < 2 ^ 53 ->
  (Uncached.run w m paths).1 = Spec.countedOutputs w seen paths.
Proof.
  induction paths as [|p ps IH]; intros seen m Hinv Hlen; [reflexivity|].
  cbn [length] in Hlen.
  destruct (Uncached_replace_counted w seen m p Hinv ltac:(lia)) as [Hout Hinv'].
  cbn [Uncached.run Spec.countedOutputs].
  destruct (Uncached.replace w m p) as [out m1]. cbn [fst snd] in Hout, Hinv'.
  specialize (IH (seen ++ [p]) m1 Hinv').
  destruct (Uncached.run w m1 ps) as [outs m2]. cbn [fst] in *.
  rewrite Hout, IH by (rewrite length_app; cbn; lia).
  destruct (Spec.keyOf w p) as [[[d T] e]|]; reflexivity.
Qed.

(** X18: the revision without directory cache numbers each renaming by
    the count of the earlier renamings of the run under the same key (the
    directory joined to the timestamp and the lower-cased extension): no
    suffix for the first one, then [_1], [_2], ...; other files are
    returned as they are. *)
Theorem Uncached_numbering (w : World) (paths : list str) :
  Z.of_nat (length paths) < 2 ^ 53 ->
  (Uncached.run w ∅ paths).1 = Spec.countedOutputs w [] paths.
Proof.
  intros Hlen. apply Uncached_run_counted; [|cbn; lia].
  intros key. apply lookup_empty.
Qed.

Lemma Uncached_numbering_witness :
  (Uncached.run (Ex.world (lit "2022:03:14 15:09:26") []) ∅
     [lit "/mix/one.JPG"; lit "/docs/readme.txt"; lit "/mix/./two.jpg"]).1
  = Spec.countedOutputs (Ex.world (lit "2022:03:14 15:09:26") []) []
      [lit "/mix/one.JPG"; lit "/docs/readme.txt"; lit "/mix/./two.jpg"].
Proof. apply Uncached_numbering. cbn. lia. Defined.

End UncachedRevision.

Section OlderEntryPoint.

Import Js Num DateFns Path MediaDateTime.

(** X19: in [main.ts] the file name is asked first and [format] is called
    outside any [try]: for a media file whose name holds a match of
    [/\d{8}_\d{6,}/] that is no calendar date, [replace] throws a
    [RangeError], in every world. *)
Theorem MainTs_invalid_stamp_throws (w : World) (im : gmap str number)
    (p b : str) (m : Re.MatchArray) :
  (MainTs.isImage (parse p) || MainTs.isVideo (parse p)) = true ->
  baseOf (parse p) = Ret b ->
  Re.matchStamp b = Some m ->
  DateFns.parse (substring0 15 (Re.matched m)) filePattern = Invalid ->
  MainTs.replace w im p = (Throw RangeError, im).
Proof.
  intros Hmedia Hb Hm Hinv.
  unfold MainTs.replace, MainTs.getDate, MainTs.getDateFromFileName, getDateFromFileName.
  rewrite Hmedia, Hb, bind_ret, Hm.
  rewrite (searchFrom_length _ _ _ _ Hm). cbn [Nat.ltb Nat.leb]. rewrite Hinv.
  reflexivity.
Qed.

Lemma MainTs_invalid_stamp_throws_witness :
  MainTs.replace (Ex.world2020 []) ∅ Ex.month13 = (Throw RangeError, ∅).
Proof.
  apply (MainTs_invalid_stamp_throws _ _ _ (lit "IMG_20201301_010203")
           (Re.mkMatch (lit "20201301_010203") [] 4)); reflexivity.
Defined.

(** X20: in [main.ts] the epoch source never yields a date: a file whose
    name holds thirteen digits [15...] and no timestamp is returned as it
    is, in every world, the metadata not being read. *)
Theorem MainTs_epoch_unchanged (w : World) (im : gmap str number)
    (p b : str) (m : Re.MatchArray) :
  baseOf (parse p) = Ret b ->
  Re.matchStamp b = None ->
  Re.matchEpoch b = Some m ->
  MainTs.replace w im p = (Ret p, im).
Proof.
  intros Hb Hs Hm.
  unfold MainTs.replace, MainTs.getDate, MainTs.getDateFromFileName, getDateFromFileName,
    MainTs.getDateFromUnixTimestamp.
  rewrite Hb, !bind_ret, Hs, bind_ret, Hm.
  rewrite (searchFrom_length _ _ _ _ Hm). cbn [Nat.ltb Nat.leb].
  destruct (MainTs.isImage (parse p) || MainTs.isVideo (parse p)); reflexivity.
Qed.

Lemma MainTs_epoch_unchanged_witness :
  MainTs.replace (Ex.world2020 []) ∅ (lit "/media/1500000000000_photo.jpg")
  = (Ret (lit "/media/1500000000000_photo.jpg"), ∅).
Proof.
  apply (MainTs_epoch_unchanged _ _ _ (lit "1500000000000_photo")
           (Re.mkMatch (lit "1500000000000") [] 0)); reflexivity.
Defined.

(** X21: [main.ts] keys its counters by the extension as written: two
    files of the same directory and date whose extensions differ are both
    renamed without suffix, to names that are equal up to letter case when
    the extensions are. *)
Theorem MainTs_case_collision (w : World) (p1 p2 T : str) (date : Date) :
  (MainTs.isImage (parse p1) || MainTs.isVideo (parse p1)) = true ->
  (MainTs.isImage (parse p2) || MainTs.isVideo (parse p2)) = true ->
  MainTs.getDate w p1 = Ret (Some date) ->
  MainTs.getDate w p2 = Ret (Some date) ->
  format date = Ret T ->
  dir (parse p1) = dir (parse p2) ->
  ext (parse p1) <> ext (parse p2) ->
  (MainTs.replace w ∅ p1).1 = Ret (join [dir (parse p1); T ++ ext (parse p1)])
  /\ (MainTs.replace w (MainTs.replace w ∅ p1).2 p2).1
     = Ret (join [dir (parse p1); T ++ ext (parse p2)])
  /\ (toLowerCase (ext (parse p1)) = toLowerCase (ext (parse p2)) ->
      toLowerCase (join [dir (parse p1); T ++ ext (parse p1)])
      = toLowerCase (join [dir (parse p1); T ++ ext (parse p2)])).
Proof.
  intros Hm1 Hm2 Hg1 Hg2 HT Hd Hx.
  assert (Hplain : forall x, Forall (fun c => c <> slash) x -> Spec.plainName (T ++ x)).
  { intros x Hxs. apply (emitted_plain date T x (Fin (-1)) HT Hxs). }
  assert (Hj : forall x, Forall (fun c => c <> slash) x ->
                 join [dir (parse p1); T ++ x] = Spec.dirPrefix (dir (parse p1)) ++ T ++ x).
  { intros x Hxs. apply join_dir_name, Hplain, Hxs. }
  assert (Hdx : forall p, Forall (fun c => c <> slash) ("."%char :: ext (parse p))).
  { intros p. constructor; [discriminate|apply ext_no_slash]. }
  unfold MainTs.replace. rewrite Hm1, Hg1. cbn [tryCatch]. rewrite HT.
  rewrite lookup_empty. cbn [fst snd app].
  split; [reflexivity|]. split.
  - rewrite Hm2, Hg2. cbn [tryCatch]. rewrite HT, <- Hd.
    rewrite lookup_insert_ne.
    + rewrite lookup_empty. reflexivity.
    + rewrite !Hj by apply Hdx. intros E.
      apply app_inv_head in E. apply app_inv_head in E. injection E as E.
      contradiction.
  - intros Hl. rewrite !Hj by apply ext_no_slash.
    rewrite !toLowerCase_app, Hl. reflexivity.
Qed.

Lemma MainTs_case_collision_witness :
  (MainTs.replace (Ex.world (lit "2022:03:14 15:09:26") []) ∅ (lit "/mix/one.JPG")).1
  = Ret (join [dir (parse (lit "/mix/one.JPG"));
               lit "20220314_150926" ++ ext (parse (lit "/mix/one.JPG"))])
  /\ (MainTs.replace (Ex.world (lit "2022:03:14 15:09:26") [])
        (MainTs.replace (Ex.world (lit "2022:03:14 15:09:26") []) ∅ (lit "/mix/one.JPG")).2
        (lit "/mix/two.jpg")).1
     = Ret (join [dir (parse (lit "/mix/one.JPG"));
                  lit "20220314_150926" ++ ext (parse (lit "/mix/two.jpg"))])
  /\ (toLowerCase (ext (parse (lit "/mix/one.JPG")))
      = toLowerCase (ext (parse (lit "/mix/two.jpg"))) ->
      toLowerCase (join [dir (parse (lit "/mix/one.JPG"));
                         lit "20220314_150926" ++ ext (parse (lit "/mix/one.JPG"))])
      = toLowerCase (join [dir (parse (lit "/mix/one.JPG"));
                           lit "20220314_150926" ++ ext (parse (lit "/mix/two.jpg"))])).
Proof.
  apply (MainTs_case_collision _ _ _ _ (Valid (mkFields 2022 3 14 15 9 26)));
    try reflexivity.
  discriminate.
Defined.

End OlderEntryPoint.

Section Effects.

Import Js Num DateFns Path MediaDateTime.

Local Open Scope Z_scope.

(** X22: the name that a renaming emits was not known for the directory
    before the call and is known after it; unless the index is saturated,
    it is the emitted file name in lower case. *)
Theorem replace_fresh_name (w : World) (fuel : nat) (st st' : State)
    (p q d T e : str) :
  Spec.keyOf w p = Some (d, T, e) ->
  replace w fuel st p = Some (Ret q, st') ->
  exists idx : number,
    base (parse q) = T ++ indexStr idx ++ ext (parse p)
    /\ (T ++ indexStr idx ++ e ∉ Spec.knownNames w st d)
    /\ (T ++ indexStr idx ++ e ∈ Spec.knownNames w st' d)
    /\ (Num.saturated idx \/ toLowerCase (base (parse q)) = T ++ indexStr idx ++ e).
Proof.
  intros Hk H.
  destruct (replace_keyOf_some w fuel st _ _ _ _ Hk) as (Hd & He & Hr).
  rewrite Hr in H.
  destruct (assignName w fuel st (parse p) T) as [[q' s]|] eqn:Ha; [|discriminate].
  injection H as -> ->.
  destruct (assignName_spec _ _ _ _ _ _ _ Ha)
    as (idx & start & Hff & _ & _ & -> & _ & Hc & _).
  destruct (emitted_parse w p d T e idx Hk) as (_ & _ & Hb & _).
  destruct (keyOf_inv _ _ _ _ _ Hk) as (_ & _ & _ & f & _ & HT).
  rewrite <- Hd, <- He in *. exists idx. rewrite Hb.
  split; [reflexivity|]. split; [|split].
  - rewrite <- candidate_indexStr. exact (firstFree_free _ _ _ _ _ _ Hff).
  - unfold Spec.knownNames at 1. rewrite Hc, lookup_insert_eq.
    apply elem_of_union. right. apply elem_of_singleton. reflexivity.
  - destruct (indexStr_cases idx) as [Hs|Hn]; [left; exact Hs|right].
    rewrite (toLowerCase_emitted (Valid f) T _ idx HT Hn), He. reflexivity.
Qed.

Lemma replace_fresh_name_witness :
  exists idx : number,
    base (parse (lit "/d/20200101_010203_1.JPG"))
    = Ex.stamp2020 ++ indexStr idx ++ ext (parse (lit "/d/a.JPG"))
    /\ (Ex.stamp2020 ++ indexStr idx ++ lit ".jpg"
        ∉ Spec.knownNames (Ex.world2020 [lit "20200101_010203.jpg"]) init (lit "/d"))
    /\ (Ex.stamp2020 ++ indexStr idx ++ lit ".jpg"
        ∈ Spec.knownNames (Ex.world2020 [lit "20200101_010203.jpg"])
            (Ex.finalState (run (Ex.world2020 [lit "20200101_010203.jpg"]) 2 init
                              [lit "/d/a.JPG"]))
            (lit "/d"))
    /\ (Num.saturated idx
        \/ toLowerCase (base (parse (lit "/d/20200101_010203_1.JPG")))
           = Ex.stamp2020 ++ indexStr idx ++ lit ".jpg").
Proof.
  apply (replace_fresh_name (Ex.world2020 [lit "20200101_010203.jpg"]) 2 init _
           (lit "/d/a.JPG")); vm_compute; reflexivity.
Defined.

(** X23: a call of [replace] changes the index of its own key at most,
    and the cache entry of its own directory at most, and no known name of
    any directory is forgotten. *)
Theorem replace_frame (w : World) (fuel : nat) (st st' : State) (p : str)
    (r : result str) :
  replace w fuel st p = Some (r, st') ->
  (forall key, Spec.baseKeyOf w p <> Some key ->
     indexMap st' !! key = indexMap st !! key)
  /\ (forall d', d' <> dir (parse p) -> dirCache st' !! d' = dirCache st !! d')
  /\ (forall d' x, x ∈ Spec.knownNames w st d' -> x ∈ Spec.knownNames w st' d').
Proof.
  intros H. destruct (Spec.keyOf w p) as [[[d T] e]|] eqn:Hk.
  - destruct (replace_keyOf_some w fuel st _ _ _ _ Hk) as (Hd & He & Hr).
    rewrite Hr in H.
    destruct (assignName w fuel st (parse p) T) as [[q' s]|] eqn:Ha; [|discriminate].
    injection H as <- <-.
    destruct (assignName_spec _ _ _ _ _ _ _ Ha)
      as (idx & start & _ & _ & _ & _ & Hi & Hc & _).
    rewrite <- Hd, <- He in *.
    assert (Hbk : Spec.baseKeyOf w p = Some (join [d; T ++ e]))
      by (unfold Spec.baseKeyOf; rewrite Hk; reflexivity).
    split; [|split].
    + intros key Hne. rewrite Hi. apply lookup_insert_ne. congruence.
    + intros d' Hne. rewrite Hc. apply lookup_insert_ne. congruence.
    + intros d' x Hx. rewrite (knownNames_after w st s d _ Hc d').
      destruct (decide (d' = d)) as [->|_]; [|exact Hx].
      apply elem_of_union. left. exact Hx.
  - rewrite (replace_keyOf_none w fuel st p Hk) in H. injection H as <- <-.
    repeat split; auto.
Qed.

Lemma replace_frame_witness :
  (forall key, Spec.baseKeyOf (Ex.world2020 []) (lit "/d/a.jpg") <> Some key ->
     indexMap (Ex.finalState (run (Ex.world2020 []) 1 init [lit "/d/a.jpg"])) !! key
     = indexMap init !! key)
  /\ (forall d', d' <> dir (parse (lit "/d/a.jpg")) ->
        dirCache (Ex.finalState (run (Ex.world2020 []) 1 init [lit "/d/a.jpg"])) !! d'
        = dirCache init !! d')
  /\ (forall d' x, x ∈ Spec.knownNames (Ex.world2020 []) init d' ->
        x ∈ Spec.knownNames (Ex.world2020 [])
              (Ex.finalState (run (Ex.world2020 []) 1 init [lit "/d/a.jpg"])) d').
Proof.
  apply (replace_frame (Ex.world2020 []) 1 init _ (lit "/d/a.jpg")
           (Ret (lit "/d/20200101_010203.jpg"))).
  vm_compute. reflexivity.
Defined.

Lemma countKey_all (w : World) (d T e : str) (seen : list str) :
  Forall (fun p => Spec.keyOf w p = Some (d, T, e)) seen ->
  Spec.countKey w (join [d; T ++ e]) seen = length seen.
Proof.
  induction 1 as [|p seen Hp _ IH]; [reflexivity|]. cbn [Spec.countKey length].
  rewrite IH.
  assert (Hbk : Spec.baseKeyOf w p = Some (join [d; T ++ e]))
    by (unfold Spec.baseKeyOf; rewrite Hp; reflexivity).
  destruct (decide (Spec.baseKeyOf w p = Some (join [d; T ++ e]))); [reflexivity|].
  contradiction.
Qed.

Lemma countedOutputs_numbered (w : World) (d T e : str) (paths : list str) :
  forall seen : list str,
  Forall (fun p => Spec.keyOf w p = Some (d, T, e)) seen ->
  Forall (fun p => Spec.keyOf w p = Some (d, T, e)) paths ->
  Spec.countedOutputs w seen paths = Spec.numbered d T (length seen) paths.
Proof.
  induction paths as [|p ps IH]; intros seen Hseen Hall; [reflexivity|].
  inversion Hall as [|? ? Hp Hps]; subst.
  cbn [Spec.countedOutputs Spec.numbered]. rewrite Hp, (countKey_all w d T e seen Hseen).
  rewrite IH; [|apply Forall_app; split; [exact Hseen|repeat constructor; exact Hp]
               |exact Hps].
  rewrite length_app. cbn [length]. replace (length seen + 1)%nat with (S (length seen)) by lia.
  reflexivity.
Qed.

(** X24: for the files of one bucket in a directory whose listing holds no
    name of the bucket, the engine with the directory cache returns the
    paths that the revision without cache returns. *)
Theorem cached_agrees_with_uncached (w : World) (d T e : str) (paths : list str)
    (fuel : nat) :
  Spec.preexisting w (d, T, e) = [] ->
  Forall (fun p => Spec.keyOf w p = Some (d, T, e)) paths ->
  (2 <= fuel)%nat ->
  Z.of_nat (length paths) < 2 ^ 53 ->
  Ex.outputs (run w fuel init paths) = Some (Uncached.run w ∅ paths).1.
Proof.
  intros Hpre Hall Hfuel Hlen.
  destruct paths as [|p ps]; [reflexivity|].
  assert (HT : Forall (fun c => stampChar c = true) T).
  { inversion Hall as [|? ? Hp _]; subst.
    destruct (keyOf_inv _ _ _ _ _ Hp) as (_ & _ & _ & f & _ & Hf).
    exact (format_chars _ _ Hf). }
  destruct (run_numbered w d T e Hpre HT fuel (p :: ps) Hfuel 0%nat init) as (st' & ->).
  - split; [|apply lookup_empty].
    unfold Spec.knownNames. cbn [init dirCache]. rewrite lookup_empty.
    cbn [Spec.firstCandidates]. rewrite (right_id_L ∅ (∪)). reflexivity.
  - exact Hall.
  - lia.
  - rewrite (Uncached_run_counted w (p :: ps) [] ∅);
      [|intros key; apply lookup_empty|cbn [length] in *; lia].
    rewrite (countedOutputs_numbered w d T e (p :: ps) []); [reflexivity|constructor|exact Hall].
Qed.

Lemma cached_agrees_with_uncached_witness :
  Ex.outputs (run (Ex.world2020 [lit "other.jpg"]) 2 init [lit "/d/a.jpg"; lit "/d/b.JPG"])
  = Some (Uncached.run (Ex.world2020 [lit "other.jpg"]) ∅ [lit "/d/a.jpg"; lit "/d/b.JPG"]).1.
Proof.
  apply (cached_agrees_with_uncached _ (lit "/d") Ex.stamp2020 (lit ".jpg")).
  - vm_compute. reflexivity.
  - repeat constructor; vm_compute; reflexivity.
  - lia.
  - cbn. lia.
Defined.

End Effects.

Section FirstName.

Import Js Num DateFns Path MediaDateTime.

Local Open Scope Z_scope.

Lemma keyOf_not_canonical (w : World) (p : str) (k : str * str * str) :
  Spec.keyOf w p = Some k -> isCorrectFileName (parse p) = Ret false.
Proof.
  destruct k as [[d T] e]. intros Hk.
  destruct (keyOf_inv _ _ _ _ _ Hk) as (_ & _ & _ & f & Hg & _).
  unfold getDate in Hg.
  destruct (isCorrectFileName (parse p)) as [[|]|]; [discriminate|reflexivity|discriminate].
Qed.

(** X25: [replace] returns its input exactly when the call does not
    rename (no date was resolved, or the date could not be formatted): a
    renaming always changes the path, and a path returned as it is leaves
    both caches as they were. *)
Theorem renaming_changes_path (w : World) (fuel : nat) (st st' : State) (p q : str) :
  replace w fuel st p = Some (Ret q, st') ->
  (q = p <-> Spec.keyOf w p = None) /\ (q = p -> st' = st).
Proof.
  intros H. destruct (Spec.keyOf w p) as [[[d T] e]|] eqn:Hk.
  - assert (Hne : q <> p).
    { destruct (replace_keyOf_some w fuel st _ _ _ _ Hk) as (Hd & He & Hr).
      rewrite Hr in H.
      destruct (assignName w fuel st (parse p) T) as [[q' s]|] eqn:Ha; [|discriminate].
      injection H as -> ->.
      destruct (assignName_spec _ _ _ _ _ _ _ Ha) as (idx & start & _ & _ & _ & -> & _).
      destruct (emitted_parse w p d T e idx Hk) as (_ & _ & Hb & Hx & _).
      destruct (keyOf_inv _ _ _ _ _ Hk) as (Hmedia & _ & _ & f & Hg & HT).
      pose proof (media_ext _ Hmedia) as Hn.
      destruct (ext_shape p) as [He0|(e' & He' & _)]; [contradiction|].
      subst d. intros Heq.
      assert (Hc : isCorrectFileName (parse (join [dir (parse p);
                     T ++ indexStr idx ++ ext (parse p)])) = Ret true).
      { apply (isCorrectFileName_emitted _ f T (indexStr idx) e').
        - exact (getDate_printable _ _ _ Hg).
        - exact HT.
        - rewrite Hb, He'. reflexivity.
        - rewrite Hx, He'. reflexivity. }
      rewrite Heq, (keyOf_not_canonical w p _ Hk) in Hc. discriminate. }
    split; [split; [contradiction|discriminate]|contradiction].
  - rewrite (replace_keyOf_none w fuel st p Hk) in H. injection H as <- <-.
    split; [split; reflexivity|reflexivity].
Qed.

Lemma renaming_changes_path_witness :
  (lit "/d/20240429_132557.jpg" = lit "/d/one.jpg"
   <-> Spec.keyOf Ex.world2024 (lit "/d/one.jpg") = None)
  /\ (lit "/d/20240429_132557.jpg" = lit "/d/one.jpg" ->
      Ex.finalState (run Ex.world2024 1 init [lit "/d/one.jpg"]) = init).
Proof.
  apply (renaming_changes_path Ex.world2024 1 init). vm_compute. reflexivity.
Defined.

(** X26: the first file of a bucket is numbered one above the highest
    suffix found among the known names of the directory, so that gaps are
    not filled; when no suffix is found, it gets [_1] if the name without
    suffix is known and no suffix otherwise. *)
Theorem first_name_of_bucket (w : World) (fuel : nat) (st : State)
    (p d T e : str) (s : Z) :
  Spec.keyOf w p = Some (d, T, e) ->
  indexMap st !! join [d; T ++ e] = None ->
  (computeInitialIndex w d T e st).1 = Fin s ->
  s + 1 < 2 ^ 53 ->
  (2 <= fuel)%nat ->
  exists st',
    replace w fuel st p
    = Some (Ret (join [d; T ++ Spec.suffixText
                             (if (0 <=? s)%Z then Z.to_nat (s + 1)
                              else if bool_decide (T ++ e ∈ (getDirCache w d st).1)
                                   then 1%nat else 0%nat)
                          ++ ext (parse p)]), st').
Proof.
  intros Hk Hi Hs Hlt Hfuel.
  destruct (keyOf_inv _ _ _ _ _ Hk) as (_ & _ & _ & f & _ & Hf).
  pose proof (format_chars _ _ Hf) as HT.
  destruct (replace_keyOf_some w fuel st _ _ _ _ Hk) as (Hd & He & ->).
  rewrite assignName_eq, <- Hd, <- He, Hi.
  unfold computeInitialIndex in Hs. rewrite (getDirCache_eq w d st) in Hs.
  cbn [fst] in Hs. rewrite getDirCache_fst in *. rewrite Hs.
  destruct (set_fold_suffixStep T e (Spec.knownNames w st d)) as (Hlow & Hup & _).
  rewrite Hs in Hlow, Hup. cbn [Spec.indexLe] in Hlow.
  assert (Hfree : forall j, 0 <= j -> s <= j -> j + 1 < 2 ^ 53 ->
                    candidate T e (Fin j) ∉ Spec.knownNames w st d).
  { intros j Hj0 Hj Hj1 Hin. rewrite candidate_nonneg in Hin by lia.
    specialize (Hup _ (Fin (j + 1)) Hin).
    cbn [Spec.indexLe] in Hup. enough (j + 1 <= s) by lia. apply Hup.
    apply suffixOf_numbered; [exact HT|lia|reflexivity|apply fullMatch_refl]. }
  destruct (Z.leb_spec 0 s) as [H0|H0].
  - rewrite (firstFree_at_least 1 fuel _ _ _ _ (Fin s));
      [|rewrite firstFree_S, bool_decide_eq_false_2 by (apply Hfree; lia); reflexivity|lia].
    rewrite <- (indexStr_suffixText (Z.to_nat (s + 1))) by lia.
    replace (Z.of_nat (Z.to_nat (s + 1)) - 1) with s by lia.
    eexists. reflexivity.
  - assert (s = -1) by lia. subst s. clear Hlow H0.
    destruct (bool_decide (T ++ e ∈ Spec.knownNames w st d)) eqn:Hb.
    + apply bool_decide_eq_true_1 in Hb.
      rewrite (firstFree_at_least 2 fuel _ _ _ _ (Fin 0)); [| |exact Hfuel].
      * change (indexStr (Fin 0)) with (lit "_1"). eexists. reflexivity.
      * rewrite firstFree_S, candidate_neg by lia.
        rewrite bool_decide_eq_true_2 by exact Hb.
        change (add1 (Fin (-1))) with (Fin 0).
        rewrite firstFree_S, bool_decide_eq_false_2 by (apply Hfree; lia). reflexivity.
    + apply bool_decide_eq_false_1 in Hb.
      rewrite (firstFree_at_least 1 fuel _ _ _ _ (Fin (-1))); [| |lia].
      * eexists. reflexivity.
      * rewrite firstFree_S, candidate_neg by lia.
        rewrite bool_decide_eq_false_2 by exact Hb. reflexivity.
Qed.

Lemma first_name_of_bucket_witness :
  exists st',
    replace (Ex.world2020 [lit "20200101_010203_1.jpg"; lit "20200101_010203_5.JPG"]) 2
      init (lit "/d/a.jpg")
    = Some (Ret (join [lit "/d"; Ex.stamp2020 ++ Spec.suffixText
                             (if (0 <=? 5)%Z then Z.to_nat (5 + 1)
                              else if bool_decide
                                        (Ex.stamp2020 ++ lit ".jpg"
                                         ∈ (getDirCache
                                              (Ex.world2020 [lit "20200101_010203_1.jpg";
                                                             lit "20200101_010203_5.JPG"])
                                              (lit "/d") init).1)
                                   then 1%nat else 0%nat)
                          ++ ext (parse (lit "/d/a.jpg"))]), st').
Proof.
  apply (first_name_of_bucket _ 2 init _ (lit "/d") Ex.stamp2020 (lit ".jpg") 5).
  - vm_compute. reflexivity.
  - vm_compute. reflexivity.
  - vm_compute. reflexivity.
  - lia.
  - lia.
Defined.

End FirstName.

Section OtherBuckets.

Import Js Num DateFns Path MediaDateTime.

Local Open Scope Z_scope.














End OtherBuckets.

Section PrePopulatedDirectory.

Import Js Num DateFns Path MediaDateTime.







End PrePopulatedDirectory.

Section Checks.

Import MediaDateTime.

(** Numbers print and round as in JavaScript. *)
Example number_checks :
  Num.toString (Num.Fin 12) = lit "12" /\
  Num.toString (Num.Fin (2 ^ 53)) = lit "9007199254740992" /\
  Num.toString (Num.ofZ (2 ^ 64)) = lit "18446744073709552000" /\
  Num.toString (Num.ofZ (10 ^ 21)) = lit "1e+21" /\
  Num.toString (Num.ofZ (2 ^ 70)) = lit "1.1805916207174113e+21" /\
  Num.toString (Num.ofZ (2 ^ 100)) = lit "1.2676506002282294e+30" /\
  Num.add1 (Num.Fin (2 ^ 53)) = Num.Fin (2 ^ 53) /\
  Num.add1 (Num.Fin (2 ^ 53 + 2)) = Num.Fin (2 ^ 53 + 4) /\
  Num.parseInt (lit "9007199254740993") = Some (Num.Fin (2 ^ 53)).
Proof. vm_compute. repeat split; reflexivity. Qed.

(** [path.parse], [path.join] and [path.normalize] on some paths. *)
Example path_checks :
  Path.parse (lit "/photos/IMG_1234.JPG")
    = Path.mkParsed (lit "/") (lit "/photos") (lit "IMG_1234.JPG") (lit ".JPG") (lit "IMG_1234") /\
  Path.parse (lit "one.jpg") = Path.mkParsed [] [] (lit "one.jpg") (lit ".jpg") (lit "one") /\
  Path.parse (lit "/one.jpg")
    = Path.mkParsed (lit "/") (lit "/") (lit "one.jpg") (lit ".jpg") (lit "one") /\
  Path.parse (lit "a//b.c.d/") = Path.mkParsed [] (lit "a/") (lit "b.c.d") (lit ".d") (lit "b.c") /\
  Path.parse (lit "./.bashrc") = Path.mkParsed [] (lit ".") (lit ".bashrc") [] (lit ".bashrc") /\
  Path.parse (lit "x/..") = Path.mkParsed [] (lit "x") (lit "..") [] (lit "..") /\
  Path.parse (lit "//") = Path.mkParsed (lit "/") (lit "/") [] [] [] /\
  Path.join [lit "/photos"; lit "a.jpg"] = lit "/photos/a.jpg" /\
  Path.join [lit ""; lit "a.jpg"] = lit "a.jpg" /\
  Path.join [lit "."; lit "a.jpg"] = lit "a.jpg" /\
  Path.join [lit "/a/./b//c/.."; lit "a.jpg"] = lit "/a/b/a.jpg" /\
  Path.join [lit "../x/../.."; lit "a.jpg"] = lit "../../a.jpg" /\
  Path.join [lit "/.."; lit "a.jpg"] = lit "/a.jpg" /\
  Path.normalize (lit "a/b/../../") = lit "./".
Proof. vm_compute. repeat split; reflexivity. Qed.

(** date-fns on some dates; 1500000000000 is 2017-07-14T02:40:00Z. *)
Example date_checks :
  DateFns.parse (lit "2021:12:25 14:23:59") DateFns.exifPattern
    = DateFns.Valid (DateFns.mkFields 2021 12 25 14 23 59) /\
  DateFns.parse (lit "2021:2:29 14:23:59") DateFns.exifPattern = DateFns.Invalid /\
  DateFns.parse (lit "2020:2:29 4:3:9  ") DateFns.exifPattern
    = DateFns.Valid (DateFns.mkFields 2020 2 29 4 3 9) /\
  DateFns.parse Ex.unsetDate DateFns.exifPattern = DateFns.Invalid /\
  DateFns.parse (lit "20210518_122045") DateFns.filePattern
    = DateFns.Valid (DateFns.mkFields 2021 5 18 12 20 45) /\
  DateFns.format (DateFns.Valid (DateFns.mkFields 2021 5 18 2 0 45))
    = Ret (lit "20210518_020045") /\
  DateFns.format (DateFns.ofNumber (Some (Num.Fin 1500000000000)))
    = Ret (lit "20170714_024000") /\
  DateFns.format (DateFns.ofNumber (Some (Num.Fin 951782400000)))
    = Ret (lit "20000229_000000") /\
  DateFns.format (DateFns.ofNumber (Some (Num.Fin (-1)))) = Ret (lit "19691231_235959").
Proof. vm_compute. repeat split; reflexivity. Qed.

(** The regular expressions on some names. *)
Example regex_checks :
  Re.matchStamp (lit "IMG_20200101_0102030_x")
    = Some (Re.mkMatch (lit "20200101_0102030") [] 4) /\
  Re.matchStamp (lit "1234567_123456") = None /\
  Re.matchStamp (lit "120200101_010203") = Some (Re.mkMatch (lit "20200101_010203") [] 1) /\
  Re.matchEpoch (lit "x1500000000000_photo") = Some (Re.mkMatch (lit "1500000000000") [] 1) /\
  Re.matchSuffix Ex.stamp2020 (lit ".jpg") (lit "20200101_010203.jpg") = Some None /\
  Re.matchSuffix Ex.stamp2020 (lit ".jpg") (lit "20200101_010203_12.jpg")
    = Some (Some (lit "12")) /\
  Re.matchSuffix Ex.stamp2020 (lit ".mp4") (lit "20200101_010203_125mp4")
    = Some (Some (lit "12")) /\
  Re.matchSuffix Ex.stamp2020 (lit ".jpg") (lit "20200101_010203_.jpg") = None /\
  Re.matchSuffix Ex.stamp2020 (lit ".jpg") (lit "20200101_010203_1.jpeg") = None /\
  Re.endsWithDotAny [lit "jpg"; lit "jpeg"] (lit ".jpeg") = true /\
  Re.endsWithDotAny [lit "jpg"; lit "jpeg"] (lit ".jpe") = false.
Proof. vm_compute. repeat split; reflexivity. Qed.

(** The cases of the test-suite on collisions with the file system. *)
Example collision_tests :
  Ex.outputs (run (Ex.world2020 [lit "20200101_010203.jpg"]) 9 init
                [lit "/virtual-dir/input.jpg"])
    = Some [Ret (lit "/virtual-dir/20200101_010203_1.jpg")] /\
  Ex.outputs (run (Ex.world2020 [lit "20200101_010203.jpg"; lit "20200101_010203_1.jpg";
                                 lit "20200101_010203_2.jpg"]) 9 init
                [lit "/virtual-dir/a.jpg"; lit "/virtual-dir/b.jpg"])
    = Some [Ret (lit "/virtual-dir/20200101_010203_3.jpg");
            Ret (lit "/virtual-dir/20200101_010203_4.jpg")] /\
  Ex.outputs (run (Ex.world2020 [lit "20200101_010203.JPG"]) 9 init
                [lit "/virtual-dir/photo.jpg"])
    = Some [Ret (lit "/virtual-dir/20200101_010203_1.jpg")] /\
  Ex.outputs (run (Ex.world2020 []) 9 init [lit "/virtual-dir/clean.jpg"])
    = Some [Ret (lit "/virtual-dir/20200101_010203.jpg")] /\
  Ex.outputs (run Ex.world2024 9 init [lit "/dir/a.jpg"; lit "/dir/b.jpg"])
    = Some [Ret (lit "/dir/20240429_132557.jpg"); Ret (lit "/dir/20240429_132557_1.jpg")] /\
  readdirLog (Ex.finalState (run Ex.world2024 9 init [lit "/dir/a.jpg"; lit "/dir/b.jpg"]))
    = [lit "/dir"].
Proof. vm_compute. repeat split; reflexivity. Qed.

(** The cases of the test-suite on the plugin. *)
Example plugin_tests :
  Ex.outputs (run (Ex.world (lit "2021:12:25 14:23:59.123+02:00") []) 9 init
                [lit "/photos/IMG_1234.JPG"])
    = Some [Ret (lit "/photos/20211225_142359.JPG")] /\
  Ex.outputs (run (Ex.world (lit "2020:01:02 03:04:05") []) 9 init [lit "/videos/clip.mov"])
    = Some [Ret (lit "/videos/20200102_030405.mov")] /\
  Ex.outputs (run (Ex.noDate []) 9 init
                [lit "/photos/20210518_122045_sample.jpg"; lit "/photos/20210518_122045.jpg"])
    = Some [Ret (lit "/photos/20210518_122045_sample.jpg");
            Ret (lit "/photos/20210518_122045.jpg")] /\
  Ex.outputs (run (Ex.noDate []) 9 init [lit "/media/1500000000000_photo.jpg"])
    = Some [Ret (lit "/media/20170714_024000.jpg")] /\
  Ex.outputs (run (Ex.world (lit "2021:12:25 14:23:59") []) 9 init [lit "/docs/readme.txt"])
    = Some [Ret (lit "/docs/readme.txt")] /\
  Ex.outputs (run (Ex.world (lit "2019:07:04 08:09:10") []) 9 init
                [lit "/photos/a.jpg"; lit "/photos/b.jpg"; lit "/photos/c.jpg"])
    = Some [Ret (lit "/photos/20190704_080910.jpg"); Ret (lit "/photos/20190704_080910_1.jpg");
            Ret (lit "/photos/20190704_080910_2.jpg")] /\
  Ex.outputs (run (Ex.world (lit "2022:03:14 15:09:26") []) 9 init
                [lit "/mix/one.JPG"; lit "/mix/two.jpg"])
    = Some [Ret (lit "/mix/20220314_150926.JPG"); Ret (lit "/mix/20220314_150926_1.jpg")] /\
  Ex.outputs (run (Ex.world (lit "2018:11:23 10:11:12.456Z") []) 9 init
                [lit "/pics/img.HEIC"; lit "/pics/anim.gif"])
    = Some [Ret (lit "/pics/20181123_101112.HEIC"); Ret (lit "/pics/20181123_101112.gif")] /\
  Ex.outputs (run (Ex.noTool []) 9 init [lit "/photos/20210518_122045_sample.jpg"])
    = Some [Ret (lit "/photos/20210518_122045_sample.jpg")].
Proof. vm_compute. repeat split; reflexivity. Qed.

(** The two caches are keyed differently: [#indexMap] by the joined, hence
    normalised, path and [#dirCache] by the directory as it is written.
    Written in two ways, one directory shares the index of a bucket and not
    its known names: both files receive the same new path, and the
    directory is listed once per spelling. *)
Example directory_spellings :
  Ex.outputs (run (Ex.world2020 []) 9 init [lit "/d/a.jpg"; lit "/d/./b.jpg"])
    = Some [Ret (lit "/d/20200101_010203.jpg"); Ret (lit "/d/20200101_010203.jpg")] /\
  readdirLog (Ex.finalState (run (Ex.world2020 []) 9 init [lit "/d/a.jpg"; lit "/d/./b.jpg"]))
    = [lit "/d"; lit "/d/."].
Proof. vm_compute. repeat split; reflexivity. Qed.

End Checks.
